(** * TRTC real-time ASR client for Node.js: query builder, credential and
    streaming session, embedded from [src/signature.ts], [src/credential.ts],
    [src/errors.ts], [src/usersig.ts] and [src/speech-recognizer.ts].

    Conventions of the embedding.
    - A JavaScript [number] is an integer [Z]; [String(n)] is its decimal
      notation ([pretty]).
    - A JavaScript string is a [string] of bytes holding its UTF-8 encoding,
      so [encodeURIComponent] escapes byte by byte; a string with a lone
      surrogate, on which it throws, has no such encoding and is left out.
    - A [Record<string, string>] is a [gmap string string].  [Object.keys]
      lists the domain; the only use the code makes of it sorts it at once,
      so the insertion order of the object is not observable.
    - The listener, the transport and the pending promises are observed
      through the trace of effects kept in the session state.  A callback
      of the listener returns without calling back into the session.
    - Time is counted in milliseconds from the call that is being awaited;
      what the platform and the network do (clock, random draw, token
      provider, acknowledgements, inbound events) is an argument of the
      operation it bears on. *)

From Stdlib Require Import ZArith Ascii String List Sorted Permutation Lia.
From stdpp Require Import gmap strings list fin_maps sorting pretty.

Open Scope string_scope.
Open Scope Z_scope.

(** ** JavaScript strings *)

(** Truthiness of a string ([if (this.hotwordId)]) and of a number
    ([if (this.filterDirty)]). *)
Definition truthy_str (s : string) : bool :=
  match s with
  | EmptyString => false
  | String _ _ => true
  end.

Definition truthy_num (n : Z) : bool := negb (n =? 0).

(** [String(n)] for an integer. *)
Definition String_of (n : Z) : string := pretty n.

(** [Array.prototype.join]. *)
Fixpoint join (sep : string) (l : list string) : string :=
  match l with
  | [] => ""
  | [x] => x
  | x :: rest => x +:+ sep +:+ join sep rest
  end.

(** [String.prototype.split] on a one-character separator. *)
Fixpoint split_on (sep : ascii) (s : string) : list string :=
  match s with
  | EmptyString => [""]
  | String c s' =>
      if Ascii.eqb c sep then "" :: split_on sep s'
      else match split_on sep s' with
           | h :: t => String c h :: t
           | [] => [String c ""]
           end
  end.

(** Does character [c] occur in [s]? *)
Fixpoint has_char (c : ascii) (s : string) : bool :=
  match s with
  | EmptyString => false
  | String c' s' => Ascii.eqb c' c || has_char c s'
  end.

(** Characters that [encodeURIComponent] leaves alone:
    [A-Z a-z 0-9 - _ . ! ~ * ' ( )]. *)
Definition unreserved (c : ascii) : bool :=
  let n := nat_of_ascii c in
  ((65 <=? n) && (n <=? 90))%nat
  || ((97 <=? n) && (n <=? 122))%nat
  || ((48 <=? n) && (n <=? 57))%nat
  || bool_decide (c ∈ list_ascii_of_string "-_.!~*'()").

Fixpoint all_unreserved (s : string) : bool :=
  match s with
  | EmptyString => true
  | String c s' => unreserved c && all_unreserved s'
  end.

Definition hex_digit (n : nat) : ascii :=
  (if n <? 10 then ascii_of_nat (48 + n) else ascii_of_nat (55 + n))%nat.

Definition percent_encode (c : ascii) : string :=
  let n := nat_of_ascii c in
  String "%" (String (hex_digit (n / 16)) (String (hex_digit (n mod 16)) "")).

Fixpoint encodeURIComponent (s : string) : string :=
  match s with
  | EmptyString => ""
  | String c s' =>
      (if unreserved c then String c "" else percent_encode c)
      +:+ encodeURIComponent s'
  end.

(** ** errors.ts *)

Module ErrorCode.
Definition INVALID_PARAM : Z := 1001.
Definition CONNECT_FAILED : Z := 1002.
Definition WRITE_FAILED : Z := 1003.
Definition READ_FAILED : Z := 1004.
Definition AUTH_FAILED : Z := 1005.
Definition TIMEOUT : Z := 1006.
Definition SERVER_ERROR : Z := 1007.
Definition ALREADY_STARTED : Z := 1008.
Definition NOT_STARTED : Z := 1009.
Definition ALREADY_STOPPED : Z := 1010.
End ErrorCode.

Module ASRError.
Record t := { code : Z; message : string }.

(** [constructor(code, message)]: the message handed to [Error] is
    [`trtc-asr error [${code}]: ${message}`]. *)
Definition new (code : Z) (message : string) : t :=
  {| code := code;
     message := "trtc-asr error [" +:+ String_of code +:+ "]: " +:+ message |}.
End ASRError.

(** ** credential.ts *)

Module Credential.
Record t := {
  appId : Z;
  sdkAppId : Z;
  secretKey : string;
  userSig : string
}.

Definition new (appId sdkAppId : Z) (secretKey : string) : t :=
  {| appId := appId; sdkAppId := sdkAppId; secretKey := secretKey;
     userSig := "" |}.

Definition setUserSig (userSig : string) (c : t) : t :=
  {| appId := appId c; sdkAppId := sdkAppId c; secretKey := secretKey c;
     userSig := userSig |}.
End Credential.

(** ** usersig.ts *)

(** What a call either returns or throws (the text of the exception). *)
Inductive Outcome (A : Type) :=
| Returns (a : A)
| Throws (err : string).
Arguments Returns {A} a.
Arguments Throws {A} err.

Definition DEFAULT_EXPIRE : Z := 86400 * 180.

(** [genUserSig].  [api_genSig sdkAppId key userId expire] stands for
    [new TLSSigAPIv2.Api(sdkAppId, key).genSig(userId, expire)], the signing
    primitive of the external library. *)
Definition genUserSig
    (api_genSig : Z -> string -> string -> Z -> Outcome string)
    (sdkAppId : Z) (key userId : string) (expire : Z) : Outcome string :=
  let expire := if expire <=? 0 then DEFAULT_EXPIRE else expire in
  api_genSig sdkAppId key userId expire.

(** ** signature.ts *)

Definition Object_keys (params : gmap string string) : list string :=
  elements (dom params).

(** [Object.keys(params).sort()]: the default sort compares strings code
    unit by code unit. *)
Definition sorted_keys (params : gmap string string) : list string :=
  merge_sort String.le (Object_keys params).

Definition encodeParams (params : gmap string string) : string :=
  join "&"
    ((fun k => k +:+ "=" +:+ encodeURIComponent (params !!! k))
       <$> sorted_keys params).

(** [if (c) m[k] = v;] *)
Definition set_if (c : bool) (k v : string) (m : gmap string string)
    : gmap string string :=
  if c then <[k := v]> m else m.

Module SignatureParams.
Record Options := {
  opt_appId : Z;
  opt_engineModelType : string;
  opt_voiceId : string;
  opt_voiceFormat : option Z;
  opt_needVad : option Z;
  opt_convertNumMode : option Z;
  opt_hotwordId : option string;
  opt_customizationId : option string;
  opt_filterDirty : option Z;
  opt_filterModal : option Z;
  opt_filterPunc : option Z;
  opt_wordInfo : option Z;
  opt_vadSilenceTime : option Z;
  opt_maxSpeakTime : option Z
}.

Record t := {
  appId : Z;
  engineModelType : string;
  voiceId : string;
  timestamp : Z;
  expired : Z;
  nonce : Z;
  voiceFormat : Z;
  needVad : Z;
  convertNumMode : Z;
  hotwordId : string;
  customizationId : string;
  filterDirty : Z;
  filterModal : Z;
  filterPunc : Z;
  wordInfo : Z;
  vadSilenceTime : Z;
  maxSpeakTime : Z
}.

(** The constructor.  [now_ms] is what [Date.now()] returns and [rnd] is
    [Math.floor(Math.random() * 9999999)], an integer of [0, 9999998]. *)
Definition new (opts : Options) (now_ms rnd : Z) : t :=
  let now := now_ms / 1000 in
  {| appId := opt_appId opts;
     engineModelType := opt_engineModelType opts;
     voiceId := opt_voiceId opts;
     timestamp := now;
     expired := now + 86400;
     nonce := rnd + 1;
     voiceFormat := default 1 (opt_voiceFormat opts);
     needVad := default 1 (opt_needVad opts);
     convertNumMode := default 1 (opt_convertNumMode opts);
     hotwordId := default "" (opt_hotwordId opts);
     customizationId := default "" (opt_customizationId opts);
     filterDirty := default 0 (opt_filterDirty opts);
     filterModal := default 0 (opt_filterModal opts);
     filterPunc := default 0 (opt_filterPunc opts);
     wordInfo := default 0 (opt_wordInfo opts);
     vadSilenceTime := default 0 (opt_vadSilenceTime opts);
     maxSpeakTime := default 0 (opt_maxSpeakTime opts) |}.

Definition toMap (p : t) : gmap string string :=
  let m : gmap string string :=
    <["needvad" := String_of (needVad p)]>
    (<["voice_format" := String_of (voiceFormat p)]>
    (<["voice_id" := voiceId p]>
    (<["engine_model_type" := engineModelType p]>
    (<["nonce" := String_of (nonce p)]>
    (<["expired" := String_of (expired p)]>
    (<["timestamp" := String_of (timestamp p)]>
    (<["secretid" := String_of (appId p)]> ∅))))))) in
  let m := set_if (truthy_str (hotwordId p)) "hotword_id" (hotwordId p) m in
  let m := set_if (truthy_str (customizationId p))
             "customization_id" (customizationId p) m in
  let m := set_if (truthy_num (filterDirty p))
             "filter_dirty" (String_of (filterDirty p)) m in
  let m := set_if (truthy_num (filterModal p))
             "filter_modal" (String_of (filterModal p)) m in
  let m := set_if (truthy_num (filterPunc p))
             "filter_punc" (String_of (filterPunc p)) m in
  let m := set_if (truthy_num (convertNumMode p))
             "convert_num_mode" (String_of (convertNumMode p)) m in
  let m := set_if (truthy_num (wordInfo p))
             "word_info" (String_of (wordInfo p)) m in
  let m := set_if (truthy_num (vadSilenceTime p))
             "vad_silence_time" (String_of (vadSilenceTime p)) m in
  let m := set_if (truthy_num (maxSpeakTime p))
             "max_speak_time" (String_of (maxSpeakTime p)) m in
  m.

Definition buildQueryString (p : t) : string :=
  encodeParams (toMap p).

Definition buildQueryStringWithSignature (p : t) (userSig : string)
    : string :=
  encodeParams (<["signature" := userSig]> (toMap p)).
End SignatureParams.

(** Reading a query string back, the way the repository's test does
    ([qs.split("&").map(p => p.split("=")[0])]): the pairs of a query string
    and their keys. *)
Definition query_pairs (qs : string) : list (string * string) :=
  (fun part => match split_on "=" part with
               | k :: vs => (k, join "=" vs)
               | [] => (part, "")
               end) <$> split_on "&" qs.

Definition query_keys (qs : string) : list string := (query_pairs qs).*1.

(** The keys [toMap] can produce, in sorted order, on either side of the
    place of [signature]. *)
Definition KEYS_BEFORE : list string :=
  ["convert_num_mode"; "customization_id"; "engine_model_type"; "expired";
   "filter_dirty"; "filter_modal"; "filter_punc"; "hotword_id";
   "max_speak_time"; "needvad"; "nonce"; "secretid"].

Definition KEYS_AFTER : list string :=
  ["timestamp"; "vad_silence_time"; "voice_format"; "voice_id"; "word_info"].

Definition ALL_KEYS : list string :=
  KEYS_BEFORE ++ ["signature"] ++ KEYS_AFTER.

(** A key that reads back from a query string: it holds no separator. *)
Definition plain_key (k : string) : Prop :=
  has_char "&" k = false /\ has_char "=" k = false.

(** In the pairs [kvs] of a query string, key [k] is there exactly when
    [present] holds, and then with the one value [v]. *)
Definition carries (kvs : list (string * string)) (k : string)
    (present : Prop) (v : string) : Prop :=
  (k ∈ (kvs.*1) <-> present) /\
  (present -> forall v', (k, v') ∈ kvs <-> v' = v).

(** The parameters of the repository's tests: only the three required
    options, built at a fixed clock and random draw. *)
Definition sample_opts : SignatureParams.Options :=
  {| SignatureParams.opt_appId := 1300403317;
     SignatureParams.opt_engineModelType := "16k_zh";
     SignatureParams.opt_voiceId := "test-voice-001";
     SignatureParams.opt_voiceFormat := None;
     SignatureParams.opt_needVad := None;
     SignatureParams.opt_convertNumMode := None;
     SignatureParams.opt_hotwordId := None;
     SignatureParams.opt_customizationId := None;
     SignatureParams.opt_filterDirty := None;
     SignatureParams.opt_filterModal := None;
     SignatureParams.opt_filterPunc := None;
     SignatureParams.opt_wordInfo := None;
     SignatureParams.opt_vadSilenceTime := None;
     SignatureParams.opt_maxSpeakTime := None |}.

Definition sample_params : SignatureParams.t :=
  SignatureParams.new sample_opts 1700000000123 41.

(** The same with number conversion switched off: [convertNumMode: 0]. *)
Definition sample_opts_no_convert : SignatureParams.Options :=
  {| SignatureParams.opt_appId := 1300403317;
     SignatureParams.opt_engineModelType := "16k_zh";
     SignatureParams.opt_voiceId := "test-voice-001";
     SignatureParams.opt_voiceFormat := None;
     SignatureParams.opt_needVad := None;
     SignatureParams.opt_convertNumMode := Some 0;
     SignatureParams.opt_hotwordId := None;
     SignatureParams.opt_customizationId := None;
     SignatureParams.opt_filterDirty := None;
     SignatureParams.opt_filterModal := None;
     SignatureParams.opt_filterPunc := None;
     SignatureParams.opt_wordInfo := None;
     SignatureParams.opt_vadSilenceTime := None;
     SignatureParams.opt_maxSpeakTime := None |}.

(** ** speech-recognizer.ts *)

Definition ENDPOINT : string := "wss://asr.cloud-rtc.com".

Inductive State := IDLE | STARTING | RUNNING | STOPPING | STOPPED.

(** The numeric value of the enum, compared in [this.state < State.STOPPING]. *)
Definition State_value (st : State) : Z :=
  match st with
  | IDLE => 0 | STARTING => 1 | RUNNING => 2 | STOPPING => 3 | STOPPED => 4
  end.

Definition State_eqb (a b : State) : bool := State_value a =? State_value b.

Record WordInfo := {
  word : string;
  word_start_time : Z;
  word_end_time : Z;
  stable_flag : Z
}.

(** [slice_type] is optional: [dispatchEvent] reads [resp.result?.slice_type]
    and has a branch for its absence. *)
Record RecognitionResult := {
  slice_type : option Z;
  index : Z;
  start_time : Z;
  end_time : Z;
  voice_text_str : string;
  word_size : Z;
  word_list : list WordInfo
}.

Record SpeechRecognitionResponse := {
  code : Z;
  message : string;
  voice_id : string;
  message_id : string;
  final : Z;
  result : option RecognitionResult
}.

(** The six callbacks of [SpeechRecognitionListener], as the calls made on
    the listener. *)
Inductive Callback :=
| onRecognitionStart (response : SpeechRecognitionResponse)
| onSentenceBegin (response : SpeechRecognitionResponse)
| onRecognitionResultChange (response : SpeechRecognitionResponse)
| onSentenceEnd (response : SpeechRecognitionResponse)
| onRecognitionComplete (response : SpeechRecognitionResponse)
| onFail (response : option SpeechRecognitionResponse) (error : ASRError.t).

(** What [JSON.parse] makes of the text of a frame. *)
Inductive Parsed :=
| ParseError (err : string)
| ParseOk (resp : SpeechRecognitionResponse).

(** The [WebSocket.Data] handed to the message handler: a string or a
    [Buffer], with what [JSON.parse] makes of its text, or one of the other
    data types ([ArrayBuffer], [Buffer[]]). *)
Inductive WsData :=
| TextData (json : Parsed)
| OtherData.

(** The four events the session listens to on its socket. *)
Inductive WsEvent :=
| EvOpen
| EvError (msg : string)
| EvMessage (data : WsData)
| EvClose.

Inductive Frame :=
| BinaryFrame (data : list Byte.byte)
| TextFrame (text : string).

(** The observable history of a session: the events its handlers received,
    the calls it made on the listener, on the token provider and on the
    transport, and the promises it settled.  Sockets and completion promises
    are named by the number of the connection attempt that created them. *)
Inductive Effect :=
| Inbound (ev : WsEvent)
| Listener (cb : Callback)
| GenUserSig (sdkAppId : Z) (userId : string) (expire : Z)
    (result : Outcome string)
| WsNew (w : nat) (url : string) (headers : list (string * string))
| WsSend (w : nat) (frame : Frame)
| WsClose (w : nat)
| DoneResolve (p : nat)
| StartResolve
| StartReject (error : ASRError.t).

(** What the platform supplies to one [start] call. *)
Record StartEnv := {
  uuidv4 : string;
  api_genSig : Z -> string -> string -> Z -> Outcome string;
  Date_now : Z;
  random_draw : Z;
  WebSocket_throws : option string
}.

(** How a [ws.send(data, cb)] goes: the callback is invoked [after] ms
    later, with or without an error, or never. *)
Inductive SendOutcome :=
| Acked (after : N) (err : option string)
| NoAck.

(** A settled promise: when (ms after the call) and how ([None]: resolved,
    [Some e]: rejected with [e]). *)
Record Settled := { at_ms : Z; rejection : option ASRError.t }.

(** Node's [setTimeout]: a delay below 1 or above 2^31-1 is set to 1. *)
Definition setTimeout_delay (ms : Z) : Z :=
  if (ms <? 1) || (2147483647 <? ms) then 1 else ms.

(** The race of [ws.send]'s callback with the timer armed next to it, in
    [write] and in [stop]. *)
Definition settle_send (timeout : Z) (o : SendOutcome)
    (timeout_msg failed_msg : string) : Settled :=
  let timed_out :=
    {| at_ms := setTimeout_delay timeout;
       rejection := Some (ASRError.new ErrorCode.WRITE_FAILED timeout_msg) |} in
  match o with
  | NoAck => timed_out
  | Acked after err =>
      if Z.of_N after <? setTimeout_delay timeout then
        {| at_ms := Z.of_N after;
           rejection :=
             match err with
             | Some m =>
                 Some (ASRError.new ErrorCode.WRITE_FAILED (failed_msg +:+ m))
             | None => None
             end |}
      else timed_out
  end.

(** [JSON.stringify({ type: "end" })] *)
Definition endMsg : string :=
  let q := String "034" "" in
  "{" +:+ q +:+ "type" +:+ q +:+ ":" +:+ q +:+ "end" +:+ q +:+ "}".

Module SpeechRecognizer.
(** The private fields of the class.  [credential] and [listener] are
    references: the credential is threaded through [start] next to the
    session, the listener is seen through [trace].  [attempts] counts the
    connection attempts and names the sockets and promises they create. *)
Record t := {
  ws : option nat;
  endpoint : string;
  engineModelType : string;
  voiceFormat : Z;
  needVad : Z;
  convertNumMode : Z;
  hotwordId : string;
  customizationId : string;
  filterDirty : Z;
  filterModal : Z;
  filterPunc : Z;
  wordInfo : Z;
  vadSilenceTime : Z;
  maxSpeakTime : Z;
  voiceId : string;
  writeTimeout : Z;
  state : State;
  doneResolve : option nat;
  donePromise : option nat;
  attempts : nat;
  trace : list Effect
}.

Definition new (engineModelType : string) : t :=
  {| ws := None; endpoint := ENDPOINT; engineModelType := engineModelType;
     voiceFormat := 1; needVad := 1; convertNumMode := 1; hotwordId := "";
     customizationId := ""; filterDirty := 0; filterModal := 0;
     filterPunc := 0; wordInfo := 0; vadSilenceTime := 0;
     maxSpeakTime := 0; voiceId := ""; writeTimeout := 5000;
     state := IDLE; doneResolve := None; donePromise := None;
     attempts := 0; trace := [] |}.

(** Field updates. *)
Definition with_ws (x : option nat) (s : t) : t :=
  {| ws := x; endpoint := endpoint s; engineModelType := engineModelType s;
     voiceFormat := voiceFormat s; needVad := needVad s;
     convertNumMode := convertNumMode s; hotwordId := hotwordId s;
     customizationId := customizationId s; filterDirty := filterDirty s;
     filterModal := filterModal s; filterPunc := filterPunc s;
     wordInfo := wordInfo s; vadSilenceTime := vadSilenceTime s;
     maxSpeakTime := maxSpeakTime s; voiceId := voiceId s;
     writeTimeout := writeTimeout s; state := state s;
     doneResolve := doneResolve s; donePromise := donePromise s;
     attempts := attempts s; trace := trace s |}.

Definition with_voiceId (x : string) (s : t) : t :=
  {| ws := ws s; endpoint := endpoint s; engineModelType := engineModelType s;
     voiceFormat := voiceFormat s; needVad := needVad s;
     convertNumMode := convertNumMode s; hotwordId := hotwordId s;
     customizationId := customizationId s; filterDirty := filterDirty s;
     filterModal := filterModal s; filterPunc := filterPunc s;
     wordInfo := wordInfo s; vadSilenceTime := vadSilenceTime s;
     maxSpeakTime := maxSpeakTime s; voiceId := x;
     writeTimeout := writeTimeout s; state := state s;
     doneResolve := doneResolve s; donePromise := donePromise s;
     attempts := attempts s; trace := trace s |}.


Definition with_state (x : State) (s : t) : t :=
  {| ws := ws s; endpoint := endpoint s; engineModelType := engineModelType s;
     voiceFormat := voiceFormat s; needVad := needVad s;
     convertNumMode := convertNumMode s; hotwordId := hotwordId s;
     customizationId := customizationId s; filterDirty := filterDirty s;
     filterModal := filterModal s; filterPunc := filterPunc s;
     wordInfo := wordInfo s; vadSilenceTime := vadSilenceTime s;
     maxSpeakTime := maxSpeakTime s; voiceId := voiceId s;
     writeTimeout := writeTimeout s; state := x;
     doneResolve := doneResolve s; donePromise := donePromise s;
     attempts := attempts s; trace := trace s |}.

Definition with_doneResolve (x : option nat) (s : t) : t :=
  {| ws := ws s; endpoint := endpoint s; engineModelType := engineModelType s;
     voiceFormat := voiceFormat s; needVad := needVad s;
     convertNumMode := convertNumMode s; hotwordId := hotwordId s;
     customizationId := customizationId s; filterDirty := filterDirty s;
     filterModal := filterModal s; filterPunc := filterPunc s;
     wordInfo := wordInfo s; vadSilenceTime := vadSilenceTime s;
     maxSpeakTime := maxSpeakTime s; voiceId := voiceId s;
     writeTimeout := writeTimeout s; state := state s;
     doneResolve := x; donePromise := donePromise s;
     attempts := attempts s; trace := trace s |}.

(** [this.donePromise = new Promise((res) => { this.doneResolve = res; })]:
    a fresh promise, named by the attempt counter, and its resolver. *)
Definition new_donePromise (s : t) : t :=
  {| ws := ws s; endpoint := endpoint s; engineModelType := engineModelType s;
     voiceFormat := voiceFormat s; needVad := needVad s;
     convertNumMode := convertNumMode s; hotwordId := hotwordId s;
     customizationId := customizationId s; filterDirty := filterDirty s;
     filterModal := filterModal s; filterPunc := filterPunc s;
     wordInfo := wordInfo s; vadSilenceTime := vadSilenceTime s;
     maxSpeakTime := maxSpeakTime s; voiceId := voiceId s;
     writeTimeout := writeTimeout s; state := state s;
     doneResolve := Some (attempts s); donePromise := Some (attempts s);
     attempts := S (attempts s); trace := trace s |}.

(** One more effect at the end of the history. *)
Definition emit (e : Effect) (s : t) : t :=
  {| ws := ws s; endpoint := endpoint s; engineModelType := engineModelType s;
     voiceFormat := voiceFormat s; needVad := needVad s;
     convertNumMode := convertNumMode s; hotwordId := hotwordId s;
     customizationId := customizationId s; filterDirty := filterDirty s;
     filterModal := filterModal s; filterPunc := filterPunc s;
     wordInfo := wordInfo s; vadSilenceTime := vadSilenceTime s;
     maxSpeakTime := maxSpeakTime s; voiceId := voiceId s;
     writeTimeout := writeTimeout s; state := state s;
     doneResolve := doneResolve s; donePromise := donePromise s;
     attempts := attempts s; trace := trace s ++ [e] |}.

Definition setVoiceId (id : string) (s : t) : t := with_voiceId id s.

(** Has promise [p] been resolved? *)
Definition resolved (p : nat) (s : t) : bool :=
  existsb (fun e => match e with
                    | DoneResolve q => Nat.eqb p q
                    | _ => false
                    end) (trace s).

(** [if (this.doneResolve) { this.doneResolve(); this.doneResolve = null; }] *)
Definition release_done (s : t) : t :=
  match doneResolve s with
  | Some p => with_doneResolve None (emit (DoneResolve p) s)
  | None => s
  end.

(** What releasing adds to the history. *)
Definition released (s : t) : list Effect :=
  match doneResolve s with
  | Some p => [DoneResolve p]
  | None => []
  end.

Definition close (s : t) : t :=
  match ws s with
  | Some w => with_ws None (emit (WsClose w) s)
  | None => s
  end.

Definition dispatchEvent (resp : SpeechRecognitionResponse) (s : t) : t :=
  match result resp ≫= slice_type with
  | Some 0 => emit (Listener (onSentenceBegin resp)) s
  | Some 1 => emit (Listener (onRecognitionResultChange resp)) s
  | Some 2 => emit (Listener (onSentenceEnd resp)) s
  | _ =>
      if final resp =? 1 then s
      else emit (Listener (onRecognitionStart resp)) s
  end.

Definition handleMessage (data : WsData) (s : t) : t :=
  match data with
  | OtherData => s
  | TextData (ParseError err) =>
      emit (Listener (onFail None
              (ASRError.new ErrorCode.READ_FAILED
                 ("unmarshal response failed: " +:+ err)))) s
  | TextData (ParseOk resp) =>
      if negb (code resp =? 0) then
        let s := emit (Listener (onFail (Some resp)
                         (ASRError.new (code resp) (message resp)))) s in
        let s := close s in
        release_done s
      else
        let s := dispatchEvent resp s in
        if final resp =? 1 then
          let s := emit (Listener (onRecognitionComplete resp)) s in
          release_done s
        else s
  end.

(** The handlers registered on the socket by [connect]. *)
Definition on_open (s : t) : t :=
  emit StartResolve (with_state RUNNING s).

Definition on_error (msg : string) (s : t) : t :=
  if State_eqb (state s) STARTING then
    emit (StartReject (ASRError.new ErrorCode.CONNECT_FAILED
                         ("websocket connect failed: " +:+ msg)))
      (with_state IDLE s)
  else s.

Definition on_close (s : t) : t :=
  let s :=
    if State_value (state s) <? State_value STOPPING then
      emit (Listener (onFail None
              (ASRError.new ErrorCode.READ_FAILED
                 "websocket connection closed unexpectedly"))) s
    else s in
  release_done s.

(** One event of the socket reaches its handler. *)
Definition handle (ev : WsEvent) (s : t) : t :=
  let s := emit (Inbound ev) s in
  match ev with
  | EvOpen => on_open s
  | EvError msg => on_error msg s
  | EvMessage data => handleMessage data s
  | EvClose => on_close s
  end.

(** How [connect] ends: it has rejected the promise of [start] and
    returned, an exception escapes from it (the [WebSocket] constructor
    threw), or the socket is connecting and the handlers are in place. *)
Inductive Connect :=
| Rejected (error : ASRError.t)
| Threw (err : string)
| Connecting.

Definition connect (env : StartEnv) (c : Credential.t) (s : t)
    : Credential.t * t * Connect :=
  let s := if truthy_str (voiceId s) then s
           else with_voiceId (uuidv4 env) s in
  (* Generate UserSig if not already set *)
  let derived : Credential.t * t * option string :=
    if truthy_str (Credential.userSig c) then (c, s, None)
    else
      let r := genUserSig (api_genSig env) (Credential.sdkAppId c)
                 (Credential.secretKey c) (voiceId s) 86400 in
      let s := emit (GenUserSig (Credential.sdkAppId c) (voiceId s)
                       86400 r) s in
      match r with
      | Returns sig => (Credential.setUserSig sig c, s, None)
      | Throws err => (c, s, Some err)
      end in
  match derived with
  | (c, s, Some err) =>
      (c, with_state IDLE s,
       Rejected (ASRError.new ErrorCode.AUTH_FAILED
                   ("generate user sig failed: " +:+ err)))
  | (c, s, None) =>
      (* Build request parameters *)
      let sigParams :=
        SignatureParams.new
          {| SignatureParams.opt_appId := Credential.appId c;
             SignatureParams.opt_engineModelType := engineModelType s;
             SignatureParams.opt_voiceId := voiceId s;
             SignatureParams.opt_voiceFormat := Some (voiceFormat s);
             SignatureParams.opt_needVad := Some (needVad s);
             SignatureParams.opt_convertNumMode := Some (convertNumMode s);
             SignatureParams.opt_hotwordId := Some (hotwordId s);
             SignatureParams.opt_customizationId :=
               Some (customizationId s);
             SignatureParams.opt_filterDirty := Some (filterDirty s);
             SignatureParams.opt_filterModal := Some (filterModal s);
             SignatureParams.opt_filterPunc := Some (filterPunc s);
             SignatureParams.opt_wordInfo := Some (wordInfo s);
             SignatureParams.opt_vadSilenceTime := Some (vadSilenceTime s);
             SignatureParams.opt_maxSpeakTime := Some (maxSpeakTime s) |}
          (Date_now env) (random_draw env) in
      let queryString :=
        SignatureParams.buildQueryStringWithSignature sigParams
          (Credential.userSig c) in
      let wsUrl :=
        endpoint s +:+ "/asr/v2/" +:+ String_of (Credential.appId c)
        +:+ "?" +:+ queryString in
      let headers :=
        [("X-TRTC-SdkAppId", String_of (Credential.sdkAppId c));
         ("X-TRTC-UserSig", Credential.userSig c)] in
      let w := attempts s in
      let s := new_donePromise s in
      match WebSocket_throws env with
      | Some err => (c, s, Threw err)
      | None => (c, with_ws (Some w) (emit (WsNew w wsUrl headers) s),
                 Connecting)
      end
  end.

(** [start].  The third component is the rejection the returned promise
    already carries when [start] returns; [None] leaves it pending, to be
    settled by the socket's [open] or [error] handler. *)
Definition start (env : StartEnv) (c : Credential.t) (s : t)
    : Credential.t * t * option ASRError.t :=
  if negb (State_eqb (state s) IDLE) then
    (c, s, Some (ASRError.new ErrorCode.ALREADY_STARTED
                   "recognizer already started"))
  else
    let s := with_state STARTING s in
    match connect env c s with
    | (c, s, Connecting) => (c, s, None)
    | (c, s, Rejected e) => (c, s, Some e)
    | (c, s, Threw err) =>
        (c, with_state IDLE s,
         Some (ASRError.new ErrorCode.CONNECT_FAILED
                 ("websocket connect failed: " +:+ err)))
    end.

Definition write (data : list Byte.byte) (o : SendOutcome) (s : t)
    : t * Settled :=
  if negb (State_eqb (state s) RUNNING) then
    (s, {| at_ms := 0;
           rejection := Some (ASRError.new ErrorCode.NOT_STARTED
                                "recognizer not running") |})
  else
    match ws s with
    | None =>
        (s, {| at_ms := 0;
               rejection := Some (ASRError.new ErrorCode.NOT_STARTED
                                    "connection not established") |})
    | Some w =>
        (emit (WsSend w (BinaryFrame data)) s,
         settle_send (writeTimeout s) o
           "write timeout" "write audio data failed: ")
    end.

(** The events that reach the handlers while [stop] is suspended.  Each
    comes with its arrival time, in ms after the call of [stop], in
    arrival order.  [deliver_before limit] runs the handlers of those
    that arrive before [limit] and returns the others. *)
Fixpoint deliver_before (limit : Z) (evs : list (N * WsEvent)) (s : t)
    : t * list (N * WsEvent) :=
  match evs with
  | [] => (s, [])
  | (a, ev) :: rest =>
      if Z.of_N a <? limit then deliver_before limit rest (handle ev s)
      else (s, evs)
  end.

(** [await Promise.race([this.donePromise, <timer of 10000 ms>])], begun
    at [now] with the timer due at [deadline]: handlers run until one of
    them resolves promise [p] or the timer fires. *)
Fixpoint await_done (p : nat) (deadline now : Z)
    (evs : list (N * WsEvent)) (s : t) : t * Z :=
  if resolved p s then (s, now)
  else
    match evs with
    | [] => (s, deadline)
    | (a, ev) :: rest =>
        if Z.of_N a <? deadline then
          await_done p deadline (Z.max now (Z.of_N a)) rest (handle ev s)
        else (s, deadline)
    end.

Definition stop (o : SendOutcome) (evs : list (N * WsEvent)) (s : t)
    : t * Settled :=
  if negb (State_eqb (state s) RUNNING) then
    (s, {| at_ms := 0;
           rejection := Some (ASRError.new ErrorCode.NOT_STARTED
                                "recognizer not running") |})
  else
    let s := with_state STOPPING s in
    match ws s with
    | None =>
        (with_state STOPPED s,
         {| at_ms := 0;
            rejection := Some (ASRError.new ErrorCode.NOT_STARTED
                                 "connection not established") |})
    | Some w =>
        (* Send end signal *)
        let s := emit (WsSend w (TextFrame endMsg)) s in
        let sent := settle_send (writeTimeout s) o
                      "send end signal timeout"
                      "send end signal failed: " in
        let '(s, later) := deliver_before (at_ms sent) evs s in
        match rejection sent with
        | Some err => (with_state STOPPED (close s), sent)
        | None =>
            (* Wait for read loop to finish (with 10s timeout) *)
            let '(s, finished) :=
              match donePromise s with
              | Some p =>
                  await_done p (at_ms sent + 10000) (at_ms sent) later s
              | None => (s, at_ms sent)
              end in
            (with_state STOPPED (close s),
             {| at_ms := finished; rejection := None |})
        end
    end.

(** What can happen to a session and the credential it shares: a call of
    its API, an event of its socket, or the owner of the credential
    setting a token. *)
Inductive Action :=
| Start (env : StartEnv)
| Write (data : list Byte.byte) (o : SendOutcome)
| Stop (o : SendOutcome) (evs : list (N * WsEvent))
| Transport (ev : WsEvent)
| SetUserSig (userSig : string).

Definition step (w : Credential.t * t) (a : Action) : Credential.t * t :=
  let '(c, s) := w in
  match a with
  | Start env => (start env c s).1
  | Write data o => (c, (write data o s).1)
  | Stop o evs => (c, (stop o evs s).1)
  | Transport ev => (c, handle ev s)
  | SetUserSig sig => (Credential.setUserSig sig c, s)
  end.

Definition run (acts : list Action) (w : Credential.t * t)
    : Credential.t * t :=
  fold_left step acts w.

(** Counting in the history. *)
Definition is_complete (e : Effect) : bool :=
  match e with Listener (onRecognitionComplete _) => true | _ => false end.

Definition is_release (p : nat) (e : Effect) : bool :=
  match e with DoneResolve q => Nat.eqb p q | _ => false end.

(** A zero-status event marked final reached the message handler. *)
Definition is_terminal (e : Effect) : bool :=
  match e with
  | Inbound (EvMessage (TextData (ParseOk resp))) =>
      (code resp =? 0) && (final resp =? 1)
  | _ => false
  end.

(** A call of the token provider that returned a token. *)
Definition is_derivation (e : Effect) : bool :=
  match e with GenUserSig _ _ _ (Returns _) => true | _ => false end.

(** Any call of the token provider. *)
Definition is_provider_call (e : Effect) : bool :=
  match e with GenUserSig _ _ _ _ => true | _ => false end.

Definition count (f : Effect -> bool) (s : t) : nat :=
  length (filter (fun e => f e = true) (trace s)).
End SpeechRecognizer.

(** ** Invariants and sample data *)

(** A session on which nothing was called yet: as constructed, whatever
    the setters stored in it. *)
Definition pristine (s : SpeechRecognizer.t) : Prop :=
  SpeechRecognizer.state s = IDLE /\
  SpeechRecognizer.ws s = None /\
  SpeechRecognizer.doneResolve s = None /\
  SpeechRecognizer.donePromise s = None /\
  SpeechRecognizer.attempts s = 0%nat /\
  SpeechRecognizer.trace s = [].

(** The completion signal and its history agree: no promise was resolved
    twice, none that does not exist yet was resolved, the resolver the
    session holds is that of its current promise and was not called, and
    the current promise is pending with its resolver at hand or resolved. *)
Definition signal_inv (s : SpeechRecognizer.t) : Prop :=
  (forall p,
      (SpeechRecognizer.count (SpeechRecognizer.is_release p) s <= 1)%nat) /\
  (forall p, (SpeechRecognizer.attempts s <= p)%nat ->
             SpeechRecognizer.count (SpeechRecognizer.is_release p) s = 0%nat) /\
  (forall p, SpeechRecognizer.doneResolve s = Some p ->
             SpeechRecognizer.count (SpeechRecognizer.is_release p) s = 0%nat /\
             SpeechRecognizer.donePromise s = Some p) /\
  (forall p, SpeechRecognizer.donePromise s = Some p ->
             (p < SpeechRecognizer.attempts s)%nat /\
             (SpeechRecognizer.doneResolve s = Some p \/
              SpeechRecognizer.count (SpeechRecognizer.is_release p) s
              = 1%nat)).

(** As many completion callbacks were made as zero-status final events
    were received. *)
Definition balanced (s : SpeechRecognizer.t) : Prop :=
  SpeechRecognizer.count SpeechRecognizer.is_complete s
  = SpeechRecognizer.count SpeechRecognizer.is_terminal s.

(** Sessions that share one credential are started one after the other,
    each with its own platform values: the credential left by a [start] is
    the one the next [start] finds. *)
Fixpoint start_all (c : Credential.t)
    (starts : list (StartEnv * SpeechRecognizer.t))
    : Credential.t * list SpeechRecognizer.t :=
  match starts with
  | [] => (c, [])
  | (env, s) :: rest =>
      let '(c1, s1, _) := SpeechRecognizer.start env c s in
      let '(c2, ss) := start_all c1 rest in
      (c2, s1 :: ss)
  end.

(** The effects selected by [f] in the histories of a list of sessions. *)
Definition tally (f : Effect -> bool) (ss : list SpeechRecognizer.t) : nat :=
  sum_list (SpeechRecognizer.count f <$> ss).

(** The subject of the token that [connect] derives: the voice id of the
    session, generated when it has none. *)
Definition subject (env : StartEnv) (s : SpeechRecognizer.t) : string :=
  if truthy_str (SpeechRecognizer.voiceId s) then SpeechRecognizer.voiceId s
  else uuidv4 env.

(** A token provider that signs, one that throws, and the platform values
    of a sample [start]. *)
Definition sample_env : StartEnv :=
  {| uuidv4 := "0b0e2a5e-6d0f-4f43-9a5c-3d1f0c9f7a11";
     api_genSig := fun _ _ userId _ => Returns ("sig-" +:+ userId);
     Date_now := 1700000000123;
     random_draw := 41;
     WebSocket_throws := None |}.

Definition failing_env : StartEnv :=
  {| uuidv4 := "0b0e2a5e-6d0f-4f43-9a5c-3d1f0c9f7a11";
     api_genSig := fun _ _ _ _ => Throws "Error: invalid secret key";
     Date_now := 1700000000123;
     random_draw := 41;
     WebSocket_throws := None |}.

Definition sample_credential : Credential.t :=
  Credential.new 1300000000 1400000000 "secret".

Definition sample_recognizer : SpeechRecognizer.t :=
  SpeechRecognizer.new "16k_zh_en".

(** The sample recognizer once started and its socket open. *)
Definition running_recognizer : SpeechRecognizer.t :=
  (SpeechRecognizer.run
     [SpeechRecognizer.Start sample_env; SpeechRecognizer.Transport EvOpen]
     (sample_credential, sample_recognizer)).2.

Definition sample_result (slice : option Z) (text : string)
    : RecognitionResult :=
  {| slice_type := slice; index := 0; start_time := 0; end_time := 1200;
     voice_text_str := text; word_size := 0; word_list := [] |}.

Definition sample_response (code : Z) (message : string) (final : Z)
    (result : option RecognitionResult) : SpeechRecognitionResponse :=
  {| code := code; message := message;
     voice_id := "0b0e2a5e-6d0f-4f43-9a5c-3d1f0c9f7a11";
     message_id := "m-1"; final := final; result := result |}.

Definition interim_response : SpeechRecognitionResponse :=
  sample_response 0 "success" 0 (Some (sample_result (Some 1) "hello")).

Definition final_response : SpeechRecognitionResponse :=
  sample_response 0 "success" 1 None.

Definition fatal_response : SpeechRecognitionResponse :=
  sample_response 1005 "auth failed" 0 None.

(** The socket delivers a frame whose text parses to [resp]. *)
Definition inbound (resp : SpeechRecognitionResponse) : WsEvent :=
  EvMessage (TextData (ParseOk resp)).

(** What the close handler tells the listener of a closure it did not
    expect. *)
Definition read_failed_on_close : Effect :=
  Listener (onFail None
              (ASRError.new ErrorCode.READ_FAILED
                 "websocket connection closed unexpectedly")).

(** ** The sockets of a session *)

Definition is_ws_new (w : nat) (e : Effect) : bool :=
  match e with WsNew w' _ _ => Nat.eqb w w' | _ => false end.

Definition is_ws_send (w : nat) (e : Effect) : bool :=
  match e with WsSend w' _ => Nat.eqb w w' | _ => false end.

Definition is_ws_close (w : nat) (e : Effect) : bool :=
  match e with WsClose w' => Nat.eqb w w' | _ => false end.

(** In a history, no frame is sent on a socket after it was closed. *)
Definition sends_precede_close (tr : list Effect) : Prop :=
  forall l1 l2 w frame,
    tr = (l1 ++ WsClose w :: l2)%list -> WsSend w frame ∉ l2.

(** The session and the history of its sockets agree: a socket is made
    once and closed at most once, none that does not exist yet is
    mentioned, frames and closings go to sockets that were made, the socket
    at hand was made and not closed, and no frame follows a closing. *)
Definition socket_inv (s : SpeechRecognizer.t) : Prop :=
  (forall w, (SpeechRecognizer.count (is_ws_new w) s <= 1)%nat) /\
  (forall w, (SpeechRecognizer.count (is_ws_close w) s <= 1)%nat) /\
  (forall w, (SpeechRecognizer.attempts s <= w)%nat ->
             SpeechRecognizer.count (is_ws_new w) s = 0%nat) /\
  (forall w, SpeechRecognizer.count (is_ws_new w) s = 0%nat ->
             SpeechRecognizer.count (is_ws_send w) s = 0%nat /\
             SpeechRecognizer.count (is_ws_close w) s = 0%nat) /\
  (forall w, SpeechRecognizer.ws s = Some w ->
             SpeechRecognizer.count (is_ws_new w) s = 1%nat /\
             SpeechRecognizer.count (is_ws_close w) s = 0%nat) /\
  sends_precede_close (SpeechRecognizer.trace s).

(** ** Counting what the handlers do not do *)

(** Any frame sent. *)
Definition is_send (e : Effect) : bool :=
  match e with WsSend _ _ => true | _ => false end.

(** [f] selects none of the effects the handlers of the socket can have. *)
Definition not_of_handlers (f : Effect -> bool) : Prop :=
  (forall ev, f (Inbound ev) = false) /\
  (forall cb, f (Listener cb) = false) /\
  (forall w, f (WsClose w) = false) /\
  (forall p, f (DoneResolve p) = false) /\
  f StartResolve = false /\
  (forall e, f (StartReject e) = false).


(** The frame is acknowledged without error before the timer fires. *)
Definition acknowledged (timeout : Z) (o : SendOutcome) : Prop :=
  exists after, o = Acked after None /\ Z.of_N after < setTimeout_delay timeout.

(** Socket [w] is the one the session holds, or it has been closed and
    the session holds none. *)
Definition held_or_closed (w : nat) (s : SpeechRecognizer.t) : Prop :=
  SpeechRecognizer.ws s = Some w \/
  (SpeechRecognizer.ws s = None /\ WsClose w ∈ SpeechRecognizer.trace s).

(** A failure reported to the listener. *)
Definition is_fail (e : Effect) : bool :=
  match e with Listener (onFail _ _) => true | _ => false end.

(** The events whose handler releases the completion signal: the closing
    of the socket, an event of non-zero status, a final event. *)
Definition releases (ev : WsEvent) : bool :=
  match ev with
  | EvClose => true
  | EvMessage (TextData (ParseOk resp)) =>
      negb (code resp =? 0) || (final resp =? 1)
  | _ => false
  end.

(** ** Who a session says it is *)



(** ** The HTTP recognizers: JSON bodies and requests *)

(** The values the request bodies hold. *)
Inductive JsValue :=
| JsUndefined
| JsString (s : string)
| JsNumber (n : Z).

Definition is_undefined (v : JsValue) : bool :=
  match v with JsUndefined => true | _ => false end.

(** An optional property of a request, read: [req.url]. *)
Definition of_opt_str (o : option string) : JsValue :=
  match o with Some s => JsString s | None => JsUndefined end.

Definition of_opt_num (o : option Z) : JsValue :=
  match o with Some n => JsNumber n | None => JsUndefined end.

(** [if (req.hotwordId)], [if (req.wordInfo)] *)
Definition truthy_opt_str (o : option string) : bool :=
  match o with Some s => truthy_str s | None => false end.

Definition truthy_opt_num (o : option Z) : bool :=
  match o with Some n => truthy_num n | None => false end.

(** An object built by a literal and assignments: its properties in
    insertion order. *)
Definition JsObject : Type := list (string * JsValue).

(** [o[k] = v] *)
Fixpoint obj_set (k : string) (v : JsValue) (o : JsObject) : JsObject :=
  match o with
  | [] => [(k, v)]
  | (k', v') :: rest =>
      if String.eqb k k' then (k, v) :: rest
      else (k', v') :: obj_set k v rest
  end.

(** [if (c) o[k] = v;] *)
Definition obj_set_if (c : bool) (k : string) (v : JsValue) (o : JsObject)
    : JsObject :=
  if c then obj_set k v o else o.

(** [o[k]] *)
Fixpoint obj_get (k : string) (o : JsObject) : JsValue :=
  match o with
  | [] => JsUndefined
  | (k', v) :: rest => if String.eqb k k' then v else obj_get k rest
  end.

(** What [JSON.stringify] writes of an object: the properties that are
    not undefined, in insertion order. *)
Definition json_fields (o : JsObject) : JsObject :=
  filter (fun kv => is_undefined kv.2 = false) o.

(** [Buffer.toString("base64")] *)
Definition base64_digit (n : N) : ascii :=
  default "="%char
    (String.get (N.to_nat n)
       "ABCDEFGHIJKLMNOPQRSTUVWXYZabcdefghijklmnopqrstuvwxyz0123456789+/").

Fixpoint base64 (data : list Byte.byte) : string :=
  match data with
  | [] => ""
  | [a] =>
      let x := Byte.to_N a in
      String (base64_digit (x / 4))
        (String (base64_digit (x mod 4 * 16)) "==")
  | [a; b] =>
      let x := Byte.to_N a in
      let y := Byte.to_N b in
      String (base64_digit (x / 4))
        (String (base64_digit (x mod 4 * 16 + y / 16))
           (String (base64_digit (y mod 16 * 4)) "="))
  | a :: b :: c :: rest =>
      let x := Byte.to_N a in
      let y := Byte.to_N b in
      let z := Byte.to_N c in
      String (base64_digit (x / 4))
        (String (base64_digit (x mod 4 * 16 + y / 16))
           (String (base64_digit (y mod 16 * 4 + z / 64))
              (String (base64_digit (z mod 64)) (base64 rest))))
  end%N.

(** What the recognizers do to the outside: a call of the token provider,
    a POST.  The body posted is the JSON text of the properties given. *)
Inductive HttpEffect :=
| HttpGenUserSig (sdkAppId : Z) (userId : string) (expire : Z)
| HttpFetch (url : string) (headers : list (string * string))
    (body : JsObject).

(** How [fetch] and [resp.text()] go: one of them throws (the timer that
    aborts the request makes [fetch] throw too), or the response has a
    status and a text. *)
Inductive Fetched :=
| FetchFails (err : string)
| FetchReturns (status : Z) (text : string).

(** What the platform supplies to one request: the identifier drawn, the
    signing primitive, the clock, the exchange, and [JSON.parse] on the
    text received, whose result is a document of type [Doc]. *)
Record HttpEnv (Doc : Type) := {
  http_uuidv4 : string;
  http_genSig : Z -> string -> string -> Z -> Outcome string;
  http_now : Z;
  http_fetch : Fetched;
  JSON_parse : string -> Outcome Doc
}.
Arguments http_uuidv4 {Doc} _.
Arguments http_genSig {Doc} _ _ _ _ _.
Arguments http_now {Doc} _.
Arguments http_fetch {Doc} _.
Arguments JSON_parse {Doc} _ _.

(** [Response.Error] of a reply. *)
Record ApiError := { Code : option string; Message : option string }.

(** The message of the error thrown for [response.Error]. *)
Definition server_error_message (err : ApiError) (RequestId : option string)
    : string :=
  "server error [" +:+ default "" (Code err) +:+ "]: "
  +:+ default "" (Message err) +:+ " "
  +:+ "(RequestId: " +:+ default "" RequestId +:+ ")".

(** The request of both recognizers: [doRequest] of the file recognizer,
    and the same statements inside [recognize] of the sentence
    recognizer.  The token is the credential's, or one derived for the
    request id and not stored. *)
Definition doRequest {Doc} (endpoint path : string) (c : Credential.t)
    (env : HttpEnv Doc) (body : JsObject)
    : list HttpEffect * (ASRError.t + Doc) :=
  let requestId := http_uuidv4 env in
  let token : list HttpEffect * (ASRError.t + string) :=
    if truthy_str (Credential.userSig c) then
      ([], inr (Credential.userSig c))
    else
      let call := HttpGenUserSig (Credential.sdkAppId c) requestId 86400 in
      match genUserSig (http_genSig env) (Credential.sdkAppId c)
              (Credential.secretKey c) requestId 86400 with
      | Returns sig => ([call], inr sig)
      | Throws err =>
          ([call],
           inl (ASRError.new ErrorCode.AUTH_FAILED
                  ("generate user sig failed: " +:+ err)))
      end in
  match token with
  | (effs, inl e) => (effs, inl e)
  | (effs, inr userSig) =>
      let timestamp := http_now env / 1000 in
      let reqUrl :=
        endpoint +:+ path
        +:+ "?AppId=" +:+ String_of (Credential.appId c)
        +:+ "&Secretid=" +:+ String_of (Credential.appId c)
        +:+ "&RequestId=" +:+ requestId
        +:+ "&Timestamp=" +:+ String_of timestamp in
      let headers :=
        [("Content-Type", "application/json; charset=utf-8");
         ("X-TRTC-SdkAppId", String_of (Credential.sdkAppId c));
         ("X-TRTC-UserSig", userSig)] in
      let effs := (effs ++ [HttpFetch reqUrl headers (json_fields body)])%list in
      match http_fetch env with
      | FetchFails err =>
          (effs,
           inl (ASRError.new ErrorCode.CONNECT_FAILED
                  ("http request failed: " +:+ err)))
      | FetchReturns status text =>
          if negb (status =? 200) then
            (effs,
             inl (ASRError.new ErrorCode.SERVER_ERROR
                    ("http status " +:+ String_of status +:+ ": " +:+ text)))
          else
            match JSON_parse env text with
            | Throws err =>
                (effs,
                 inl (ASRError.new ErrorCode.READ_FAILED
                        ("unmarshal response failed: " +:+ err)))
            | Returns doc => (effs, inr doc)
            end
      end
  end.

(** ** sentence-recognizer.ts *)

Definition SENTENCE_ENDPOINT : string := "https://asr.cloud-rtc.com".

Module SourceType.
Definition URL : Z := 0.
Definition DATA : Z := 1.
End SourceType.

Module SentenceRecognizer.
Record SentenceRecognitionRequest := {
  engServiceType : string;
  sourceType : Z;
  voiceFormat : string;
  url : option string;
  data : option string;
  dataLen : option Z;
  wordInfo : option Z;
  filterDirty : option Z;
  filterModal : option Z;
  filterPunc : option Z;
  convertNumMode : option Z;
  hotwordId : option string;
  hotwordList : option string;
  inputSampleRate : option Z
}.

Record SentenceWord := { word : string; startTime : Z; endTime : Z }.

Record SentenceRecognitionResult := {
  result : string;
  audioDuration : Z;
  wordSize : Z;
  wordList : list SentenceWord;
  requestId : string
}.

(** The reply as [JSON.parse] gives it: [respData?.Response] and the
    properties read from it. *)
Record RawWord := {
  Word : option string;
  StartTime : option Z;
  EndTime : option Z
}.

Record Response := {
  Error : option ApiError;
  RequestId : option string;
  Result : option string;
  AudioDuration : option Z;
  WordSize : option Z;
  WordList : option (list RawWord)
}.

(** The private fields of the class; the credential is passed next to
    it. *)
Record t := { endpoint : string; timeout : Z }.

Definition new : t := {| endpoint := SENTENCE_ENDPOINT; timeout := 30000 |}.

Definition setEndpoint (e : string) (r : t) : t :=
  {| endpoint := e; timeout := timeout r |}.

Definition setTimeout (ms : Z) (r : t) : t :=
  {| endpoint := endpoint r; timeout := ms |}.

Definition invalid (msg : string) : option ASRError.t :=
  Some (ASRError.new ErrorCode.INVALID_PARAM msg).

(** [validateRequest]: the error it throws, if any. *)
Definition validateRequest (req : option SentenceRecognitionRequest)
    : option ASRError.t :=
  match req with
  | None => invalid "request is null"
  | Some req =>
      if negb (truthy_str (engServiceType req)) then
        invalid "engServiceType is required"
      else if negb (truthy_str (voiceFormat req)) then
        invalid "voiceFormat is required"
      else if (sourceType req =? SourceType.URL)
              && negb (truthy_opt_str (url req)) then
        invalid "url is required when sourceType=0"
      else if (sourceType req =? SourceType.DATA)
              && negb (truthy_opt_str (data req)) then
        invalid "data is required when sourceType=1"
      else None
  end.

Definition buildBody (req : SentenceRecognitionRequest) : JsObject :=
  let body : JsObject :=
    [("EngSerViceType", JsString (engServiceType req));
     ("SourceType", JsNumber (sourceType req));
     ("VoiceFormat", JsString (voiceFormat req))] in
  let body :=
    if sourceType req =? SourceType.URL then
      obj_set "Url" (of_opt_str (url req)) body
    else
      obj_set "DataLen" (of_opt_num (dataLen req))
        (obj_set "Data" (of_opt_str (data req)) body) in
  let body := obj_set_if (truthy_opt_num (wordInfo req))
                "WordInfo" (of_opt_num (wordInfo req)) body in
  let body := obj_set_if (truthy_opt_num (filterDirty req))
                "FilterDirty" (of_opt_num (filterDirty req)) body in
  let body := obj_set_if (truthy_opt_num (filterModal req))
                "FilterModal" (of_opt_num (filterModal req)) body in
  let body := obj_set_if (truthy_opt_num (filterPunc req))
                "FilterPunc" (of_opt_num (filterPunc req)) body in
  let body :=
    obj_set_if (match convertNumMode req with
                | Some n => negb (n =? 1)
                | None => false
                end)
      "ConvertNumMode" (of_opt_num (convertNumMode req)) body in
  let body := obj_set_if (truthy_opt_str (hotwordId req))
                "HotwordId" (of_opt_str (hotwordId req)) body in
  let body := obj_set_if (truthy_opt_str (hotwordList req))
                "HotwordList" (of_opt_str (hotwordList req)) body in
  let body := obj_set_if (truthy_opt_num (inputSampleRate req))
                "InputSampleRate" (of_opt_num (inputSampleRate req)) body in
  body.

Definition parseResult (data : Response) : SentenceRecognitionResult :=
  let wordList :=
    (fun w => {| word := default "" (Word w);
                 startTime := default 0 (StartTime w);
                 endTime := default 0 (EndTime w) |})
      <$> default [] (WordList data) in
  {| result := default "" (Result data);
     audioDuration := default 0 (AudioDuration data);
     wordSize := default 0 (WordSize data);
     wordList := wordList;
     requestId := default "" (RequestId data) |}.

(** [recognize].  The document parsed from the reply is its [Response]
    member: [None] when [respData?.Response] is falsy. *)
Definition recognize (r : t) (c : Credential.t)
    (env : HttpEnv (option Response))
    (req : option SentenceRecognitionRequest)
    : list HttpEffect * (ASRError.t + SentenceRecognitionResult) :=
  match validateRequest req, req with
  | Some e, _ => ([], inl e)
  | None, None => ([], inl (ASRError.new ErrorCode.INVALID_PARAM
                              "request is null"))
  | None, Some req =>
      match doRequest (endpoint r) "/v1/SentenceRecognition" c env
              (buildBody req) with
      | (effs, inl e) => (effs, inl e)
      | (effs, inr None) =>
          (effs, inl (ASRError.new ErrorCode.SERVER_ERROR
                        "empty response from server"))
      | (effs, inr (Some response)) =>
          match Error response with
          | Some err =>
              (effs,
               inl (ASRError.new ErrorCode.SERVER_ERROR
                      (server_error_message err (RequestId response))))
          | None => (effs, inr (parseResult response))
          end
      end
  end.

Definition too_large (limit : Z) (data : list Byte.byte) : bool :=
  limit <? Z.of_nat (length data).

Definition recognizeData (r : t) (c : Credential.t)
    (env : HttpEnv (option Response))
    (data : list Byte.byte) (voiceFormat engineModelType : string)
    : list HttpEffect * (ASRError.t + SentenceRecognitionResult) :=
  match data with
  | [] => ([], inl (ASRError.new ErrorCode.INVALID_PARAM
                      "audio data is empty"))
  | _ =>
      if too_large (3 * 1024 * 1024) data then
        ([], inl (ASRError.new ErrorCode.INVALID_PARAM
                    "audio data exceeds 3MB limit"))
      else
        recognize r c env
          (Some {| engServiceType := engineModelType;
                   sourceType := SourceType.DATA;
                   voiceFormat := voiceFormat;
                   url := None;
                   data := Some (base64 data);
                   dataLen := Some (Z.of_nat (length data));
                   wordInfo := None; filterDirty := None;
                   filterModal := None; filterPunc := None;
                   convertNumMode := None; hotwordId := None;
                   hotwordList := None; inputSampleRate := None |})
  end.

(** [recognizeDataWithOptions] writes into the request it is given: the
    first component is the caller's request afterwards. *)
Definition recognizeDataWithOptions (r : t) (c : Credential.t)
    (env : HttpEnv (option Response))
    (raw : list Byte.byte) (req : SentenceRecognitionRequest)
    : SentenceRecognitionRequest
      * (list HttpEffect * (ASRError.t + SentenceRecognitionResult)) :=
  match raw with
  | [] => (req, ([], inl (ASRError.new ErrorCode.INVALID_PARAM
                            "audio data is empty")))
  | _ =>
      if too_large (3 * 1024 * 1024) raw then
        (req, ([], inl (ASRError.new ErrorCode.INVALID_PARAM
                          "audio data exceeds 3MB limit")))
      else
        let req :=
          {| engServiceType := engServiceType req;
             sourceType := SourceType.DATA;
             voiceFormat := voiceFormat req;
             url := url req;
             data := Some (base64 raw);
             dataLen := Some (Z.of_nat (length raw));
             wordInfo := wordInfo req; filterDirty := filterDirty req;
             filterModal := filterModal req; filterPunc := filterPunc req;
             convertNumMode := convertNumMode req;
             hotwordId := hotwordId req; hotwordList := hotwordList req;
             inputSampleRate := inputSampleRate req |} in
        (req, recognize r c env (Some req))
  end.

Definition recognizeURL (r : t) (c : Credential.t)
    (env : HttpEnv (option Response))
    (audioURL voiceFormat engineModelType : string)
    : list HttpEffect * (ASRError.t + SentenceRecognitionResult) :=
  if negb (truthy_str audioURL) then
    ([], inl (ASRError.new ErrorCode.INVALID_PARAM "audio URL is empty"))
  else
    recognize r c env
      (Some {| engServiceType := engineModelType;
               sourceType := SourceType.URL;
               voiceFormat := voiceFormat;
               url := Some audioURL;
               data := None; dataLen := None;
               wordInfo := None; filterDirty := None;
               filterModal := None; filterPunc := None;
               convertNumMode := None; hotwordId := None;
               hotwordList := None; inputSampleRate := None |}).
End SentenceRecognizer.

(** The effects that are a POST, a call of the token provider. *)
Definition is_fetch (e : HttpEffect) : bool :=
  match e with HttpFetch _ _ _ => true | _ => false end.

Definition is_token_call (e : HttpEffect) : bool :=
  match e with HttpGenUserSig _ _ _ => true | _ => false end.

Definition http_count (f : HttpEffect -> bool) (effs : list HttpEffect)
    : nat :=
  length (filter (fun e => f e = true) effs).

(** The keys of an object. *)
Definition obj_keys (o : JsObject) : list string := o.*1.

(** ** file-recognizer.ts *)

Definition FILE_ENDPOINT : string := "https://asr.cloud-rtc.com".

Module FileSourceType.
Definition URL : Z := 0.
Definition DATA : Z := 1.
End FileSourceType.

Module TaskStatusCode.
Definition WAITING : Z := 0.
Definition RUNNING : Z := 1.
Definition SUCCESS : Z := 2.
Definition FAILED : Z := 3.
End TaskStatusCode.

Module FileRecognizer.
Record CreateRecTaskRequest := {
  engineModelType : string;
  channelNum : Z;
  resTextFormat : Z;
  sourceType : Z;
  url : option string;
  data : option string;
  dataLen : option Z;
  callbackUrl : option string;
  filterDirty : option Z;
  filterModal : option Z;
  filterPunc : option Z;
  convertNumMode : option Z;
  hotwordId : option string;
  hotwordList : option string
}.

Record SentenceWords := {
  word : string;
  offsetStartMs : Z;
  offsetEndMs : Z
}.

Record SentenceDetail := {
  finalSentence : string;
  sliceSentence : string;
  writtenText : string;
  startMs : Z;
  endMs : Z;
  wordsNum : Z;
  words : list SentenceWords;
  speechSpeed : Z;
  silenceTime : Z
}.

Record TaskStatus := {
  recTaskId : string;
  status : Z;
  statusStr : string;
  result : string;
  errorMsg : string;
  resultDetail : list SentenceDetail;
  audioDuration : Z
}.

(** The reply as [JSON.parse] gives it. *)
Record RawWords := {
  Word : option string;
  OffsetStartMs : option Z;
  OffsetEndMs : option Z
}.

Record RawDetail := {
  FinalSentence : option string;
  SliceSentence : option string;
  WrittenText : option string;
  StartMs : option Z;
  EndMs : option Z;
  WordsNum : option Z;
  Words : option (list RawWords);
  SpeechSpeed : option Z;
  SilenceTime : option Z
}.

Record TaskData := {
  RecTaskId : option string;
  Status : option Z;
  StatusStr : option string;
  Result : option string;
  ErrorMsg : option string;
  ResultDetail : option (list RawDetail);
  AudioDuration : option Z
}.

Record Response := {
  Error : option ApiError;
  RequestId : option string;
  Data : option TaskData
}.

Record t := { endpoint : string; timeout : Z }.

Definition new : t := {| endpoint := FILE_ENDPOINT; timeout := 60000 |}.

Definition setEndpoint (e : string) (r : t) : t :=
  {| endpoint := e; timeout := timeout r |}.

Definition setTimeout (ms : Z) (r : t) : t :=
  {| endpoint := endpoint r; timeout := ms |}.

Definition invalid (msg : string) : option ASRError.t :=
  Some (ASRError.new ErrorCode.INVALID_PARAM msg).

(** [validateCreateRequest]: the error it throws, if any. *)
Definition validateCreateRequest (req : option CreateRecTaskRequest)
    : option ASRError.t :=
  match req with
  | None => invalid "request is null"
  | Some req =>
      if negb (truthy_str (engineModelType req)) then
        invalid "engineModelType is required"
      else if channelNum req <=? 0 then
        invalid "channelNum must be positive"
      else if (sourceType req =? FileSourceType.URL)
              && negb (truthy_opt_str (url req)) then
        invalid "url is required when sourceType=0"
      else if (sourceType req =? FileSourceType.DATA)
              && negb (truthy_opt_str (data req)) then
        invalid "data is required when sourceType=1"
      else None
  end.

Definition buildBody (req : CreateRecTaskRequest) : JsObject :=
  let body : JsObject :=
    [("EngineModelType", JsString (engineModelType req));
     ("ChannelNum", JsNumber (channelNum req));
     ("ResTextFormat", JsNumber (resTextFormat req));
     ("SourceType", JsNumber (sourceType req))] in
  let body :=
    if sourceType req =? FileSourceType.URL then
      obj_set "Url" (of_opt_str (url req)) body
    else
      obj_set "DataLen" (of_opt_num (dataLen req))
        (obj_set "Data" (of_opt_str (data req)) body) in
  let body := obj_set_if (truthy_opt_str (callbackUrl req))
                "CallbackUrl" (of_opt_str (callbackUrl req)) body in
  let body := obj_set_if (truthy_opt_num (filterDirty req))
                "FilterDirty" (of_opt_num (filterDirty req)) body in
  let body := obj_set_if (truthy_opt_num (filterModal req))
                "FilterModal" (of_opt_num (filterModal req)) body in
  let body := obj_set_if (truthy_opt_num (filterPunc req))
                "FilterPunc" (of_opt_num (filterPunc req)) body in
  let body := obj_set_if (truthy_opt_num (convertNumMode req))
                "ConvertNumMode" (of_opt_num (convertNumMode req)) body in
  let body := obj_set_if (truthy_opt_str (hotwordId req))
                "HotwordId" (of_opt_str (hotwordId req)) body in
  let body := obj_set_if (truthy_opt_str (hotwordList req))
                "HotwordList" (of_opt_str (hotwordList req)) body in
  body.

Definition parseTaskStatus (data : TaskData) : TaskStatus :=
  let resultDetail :=
    (fun sd =>
       {| finalSentence := default "" (FinalSentence sd);
          sliceSentence := default "" (SliceSentence sd);
          writtenText := default "" (WrittenText sd);
          startMs := default 0 (StartMs sd);
          endMs := default 0 (EndMs sd);
          wordsNum := default 0 (WordsNum sd);
          words :=
            (fun w => {| word := default "" (Word w);
                         offsetStartMs := default 0 (OffsetStartMs w);
                         offsetEndMs := default 0 (OffsetEndMs w) |})
              <$> default [] (Words sd);
          speechSpeed := default 0 (SpeechSpeed sd);
          silenceTime := default 0 (SilenceTime sd) |})
      <$> default [] (ResultDetail data) in
  {| recTaskId := default "" (RecTaskId data);
     status := default 0 (Status data);
     statusStr := default "" (StatusStr data);
     result := default "" (Result data);
     errorMsg := default "" (ErrorMsg data);
     resultDetail := resultDetail;
     audioDuration := default 0 (AudioDuration data) |}.

(** The checks [createTask] and [describeTaskStatus] share: a reply with
    a [Response] that holds no [Error]. *)
Definition checked (respData : option Response) : ASRError.t + Response :=
  match respData with
  | None =>
      inl (ASRError.new ErrorCode.SERVER_ERROR "empty response from server")
  | Some response =>
      match Error response with
      | Some err =>
          inl (ASRError.new ErrorCode.SERVER_ERROR
                 (server_error_message err (RequestId response)))
      | None => inr response
      end
  end.

Definition createTask (r : t) (c : Credential.t)
    (env : HttpEnv (option Response)) (req : option CreateRecTaskRequest)
    : list HttpEffect * (ASRError.t + string) :=
  match validateCreateRequest req, req with
  | Some e, _ => ([], inl e)
  | None, None => ([], inl (ASRError.new ErrorCode.INVALID_PARAM
                              "request is null"))
  | None, Some req =>
      match doRequest (endpoint r) "/v1/CreateRecTask" c env
              (buildBody req) with
      | (effs, inl e) => (effs, inl e)
      | (effs, inr respData) =>
          match checked respData with
          | inl e => (effs, inl e)
          | inr response =>
              let taskId := Data response ≫= RecTaskId in
              if negb (truthy_opt_str taskId) then
                (effs, inl (ASRError.new ErrorCode.SERVER_ERROR
                              "empty RecTaskId in response"))
              else (effs, inr (default "" taskId))
          end
      end
  end.

Definition too_large (limit : Z) (data : list Byte.byte) : bool :=
  limit <? Z.of_nat (length data).

Definition createTaskFromData (r : t) (c : Credential.t)
    (env : HttpEnv (option Response))
    (data : list Byte.byte) (engineModelType : string)
    : list HttpEffect * (ASRError.t + string) :=
  match data with
  | [] => ([], inl (ASRError.new ErrorCode.INVALID_PARAM
                      "audio data is empty"))
  | _ =>
      if too_large (5 * 1024 * 1024) data then
        ([], inl (ASRError.new ErrorCode.INVALID_PARAM
                    "audio data exceeds 5MB limit"))
      else
        createTask r c env
          (Some {| engineModelType := engineModelType;
                   channelNum := 1;
                   resTextFormat := 1;
                   sourceType := FileSourceType.DATA;
                   url := None;
                   data := Some (base64 data);
                   dataLen := Some (Z.of_nat (length data));
                   callbackUrl := None; filterDirty := None;
                   filterModal := None; filterPunc := None;
                   convertNumMode := None; hotwordId := None;
                   hotwordList := None |})
  end.

Definition createTaskFromURL (r : t) (c : Credential.t)
    (env : HttpEnv (option Response))
    (audioURL engineModelType : string)
    : list HttpEffect * (ASRError.t + string) :=
  if negb (truthy_str audioURL) then
    ([], inl (ASRError.new ErrorCode.INVALID_PARAM "audio URL is empty"))
  else
    createTask r c env
      (Some {| engineModelType := engineModelType;
               channelNum := 1;
               resTextFormat := 1;
               sourceType := FileSourceType.URL;
               url := Some audioURL;
               data := None; dataLen := None;
               callbackUrl := None; filterDirty := None;
               filterModal := None; filterPunc := None;
               convertNumMode := None; hotwordId := None;
               hotwordList := None |}).

(** [createTaskFromDataWithOptions] writes into the request it is given:
    the first component is the caller's request afterwards. *)
Definition createTaskFromDataWithOptions (r : t) (c : Credential.t)
    (env : HttpEnv (option Response))
    (rawData : list Byte.byte) (req : CreateRecTaskRequest)
    : CreateRecTaskRequest * (list HttpEffect * (ASRError.t + string)) :=
  match rawData with
  | [] => (req, ([], inl (ASRError.new ErrorCode.INVALID_PARAM
                            "audio data is empty")))
  | _ =>
      if too_large (5 * 1024 * 1024) rawData then
        (req, ([], inl (ASRError.new ErrorCode.INVALID_PARAM
                          "audio data exceeds 5MB limit")))
      else
        let req :=
          {| engineModelType := engineModelType req;
             channelNum := channelNum req;
             resTextFormat := resTextFormat req;
             sourceType := FileSourceType.DATA;
             url := url req;
             data := Some (base64 rawData);
             dataLen := Some (Z.of_nat (length rawData));
             callbackUrl := callbackUrl req;
             filterDirty := filterDirty req;
             filterModal := filterModal req; filterPunc := filterPunc req;
             convertNumMode := convertNumMode req;
             hotwordId := hotwordId req; hotwordList := hotwordList req |} in
        (req, createTask r c env (Some req))
  end.

Definition describeTaskStatus (r : t) (c : Credential.t)
    (env : HttpEnv (option Response)) (recTaskId : string)
    : list HttpEffect * (ASRError.t + TaskStatus) :=
  if negb (truthy_str recTaskId) then
    ([], inl (ASRError.new ErrorCode.INVALID_PARAM "recTaskId is empty"))
  else
    let body : JsObject := [("RecTaskId", JsString recTaskId)] in
    match doRequest (endpoint r) "/v1/DescribeTaskStatus" c env body with
    | (effs, inl e) => (effs, inl e)
    | (effs, inr respData) =>
        match checked respData with
        | inl e => (effs, inl e)
        | inr response =>
            match Data response with
            | None =>
                (effs, inl (ASRError.new ErrorCode.SERVER_ERROR
                              "empty response from server"))
            | Some data => (effs, inr (parseTaskStatus data))
            end
        end
    end.

(** One turn of the polling loop, as the platform makes it go: what it
    supplies to the [describeTaskStatus] call of that turn (the clock
    apart, which the loop keeps), how many ms that call takes, and by how
    many ms the timer of the pause that follows fires late. *)
Record Turn := {
  turn_env : HttpEnv (option Response);
  took : N;
  late : N
}.

Definition at_clock (now : Z) (env : HttpEnv (option Response))
    : HttpEnv (option Response) :=
  {| http_uuidv4 := http_uuidv4 env;
     http_genSig := http_genSig env;
     http_now := now;
     http_fetch := http_fetch env;
     JSON_parse := JSON_parse env |}.

(** The polling of a task.  [poll] is the loop of
    [waitForResultWithInterval], entered at clock [now].  It gives what
    was done, the clock when the loop is left, and how it is left; [None]
    says that the loop is still turning when the turns given are used
    up. *)
Fixpoint poll (r : t) (c : Credential.t) (recTaskId : string)
    (intervalMs timeoutMs deadline now : Z) (turns : list Turn)
    : list HttpEffect * (Z * option (ASRError.t + TaskStatus)) :=
  match turns with
  | [] => ([], (now, None))
  | turn :: turns =>
      let '(effs, described) :=
        describeTaskStatus r c (at_clock now (turn_env turn)) recTaskId in
      let now := now + Z.of_N (took turn) in
      match described with
      | inl e => (effs, (now, Some (inl e)))
      | inr st =>
          if status st =? TaskStatusCode.SUCCESS then
            (effs, (now, Some (inr st)))
          else if status st =? TaskStatusCode.FAILED then
            (effs,
             (now,
              Some (inl (ASRError.new ErrorCode.SERVER_ERROR
                           ("task failed: " +:+ errorMsg st
                            +:+ " (RecTaskId: "
                            +:+ FileRecognizer.recTaskId st +:+ ")")))))
          else if deadline <? now then
            (effs,
             (now,
              Some (inl (ASRError.new ErrorCode.TIMEOUT
                           ("task not completed within "
                            +:+ String_of timeoutMs +:+ "ms "
                            +:+ "(RecTaskId: " +:+ recTaskId
                            +:+ ", Status: " +:+ statusStr st +:+ ")")))))
          else
            let now := now + setTimeout_delay intervalMs
                       + Z.of_N (late turn) in
            let '(more, res) :=
              poll r c recTaskId intervalMs timeoutMs deadline now turns in
            ((effs ++ more)%list, res)
      end
  end.

Definition waitForResultWithInterval (r : t) (c : Credential.t)
    (recTaskId : string) (intervalMs timeoutMs : Z) (now : Z)
    (turns : list Turn)
    : list HttpEffect * (Z * option (ASRError.t + TaskStatus)) :=
  let deadline := now + timeoutMs in
  poll r c recTaskId intervalMs timeoutMs deadline now turns.

Definition waitForResult (r : t) (c : Credential.t) (recTaskId : string)
    (now : Z) (turns : list Turn)
    : list HttpEffect * (Z * option (ASRError.t + TaskStatus)) :=
  waitForResultWithInterval r c recTaskId 1000 600000 now turns.

(** The turns of the loop that are enough for a timeout of [timeoutMs]
    when the pause is [delay] ms. *)
Definition turns_needed (timeoutMs delay : Z) : nat :=
  if timeoutMs <? 0 then 1%nat else Z.to_nat (timeoutMs / delay) + 2.
End FileRecognizer.

(** The headers of a request made with token [sig]. *)
Definition request_headers (c : Credential.t) (sig : string)
    : list (string * string) :=
  [("Content-Type", "application/json; charset=utf-8");
   ("X-TRTC-SdkAppId", String_of (Credential.sdkAppId c));
   ("X-TRTC-UserSig", sig)].

(** The call of the token provider a request makes when the credential
    holds no token. *)
Definition token_calls {Doc} (c : Credential.t) (env : HttpEnv Doc)
    : list HttpEffect :=
  if truthy_str (Credential.userSig c) then []
  else [HttpGenUserSig (Credential.sdkAppId c) (http_uuidv4 env) 86400].

(** * Properties *)

(** ** Splitting and joining *)

Section strings.
Implicit Types (s a b : string) (c sep : ascii) (l : list string).

Lemma has_char_app c a b :
  has_char c (a +:+ b) = has_char c a || has_char c b.
Proof.
  induction a as [|c' a IH]; simpl; [done|].
  rewrite IH. by destruct (Ascii.eqb c' c).
Qed.

Lemma split_on_free sep s : has_char sep s = false -> split_on sep s = [s].
Proof.
  induction s as [|c s IH]; simpl; [done|].
  intros [Hc Hs]%orb_false_iff. rewrite Hc, IH by done. done.
Qed.

Lemma split_on_app sep a b :
  has_char sep a = false ->
  split_on sep (a +:+ String sep b) = a :: split_on sep b.
Proof.
  induction a as [|c a IH]; simpl.
  - intros _. by rewrite Ascii.eqb_refl.
  - intros [Hc Ha]%orb_false_iff. rewrite Hc, IH by done. done.
Qed.

Lemma split_on_join sep l :
  l <> [] -> Forall (fun x => has_char sep x = false) l ->
  split_on sep (join (String sep "") l) = l.
Proof.
  induction l as [|x l IH]; [done|]. intros _ Hl.
  apply Forall_cons in Hl as [Hx Hl].
  destruct l as [|y l].
  - by apply split_on_free.
  - change (join (String sep "") (x :: y :: l))
      with (x +:+ String sep (join (String sep "") (y :: l))).
    rewrite split_on_app by done. f_equal. by apply IH.
Qed.

Lemma percent_encode_free sep c :
  sep = "&"%char \/ sep = "="%char ->
  has_char sep (percent_encode c) = false.
Proof.
  intros [-> | ->];
    destruct c as [[] [] [] [] [] [] [] []]; vm_compute; reflexivity.
Qed.

(** An encoded component holds neither [&] nor [=]. *)
Lemma encodeURIComponent_free sep s :
  sep = "&"%char \/ sep = "="%char ->
  has_char sep (encodeURIComponent s) = false.
Proof.
  intros Hsep. induction s as [|c s IH]; simpl; [done|].
  rewrite has_char_app, IH, orb_false_r.
  destruct (unreserved c) eqn:Hc; [|by apply percent_encode_free].
  simpl. rewrite orb_false_r. apply Ascii.eqb_neq. intros ->.
  destruct Hsep as [-> | ->]; vm_compute in Hc; discriminate.
Qed.

Lemma encodeURIComponent_unreserved s :
  all_unreserved s = true -> encodeURIComponent s = s.
Proof.
  induction s as [|c s IH]; simpl; [done|].
  intros [Hc Hs]%andb_true_iff. by rewrite Hc, IH.
Qed.

Lemma all_unreserved_app a b :
  all_unreserved (a +:+ b) = all_unreserved a && all_unreserved b.
Proof.
  induction a as [|c a IH]; simpl; [done|]. by rewrite IH, andb_assoc.
Qed.

Lemma pretty_N_go_unreserved (x : N) s :
  all_unreserved s = true -> all_unreserved (pretty_N_go x s) = true.
Proof.
  revert s. induction (N.lt_wf_0 x) as [x _ IH]. intros s Hs.
  destruct (decide (x = 0%N)) as [-> | Hx]; [by rewrite pretty_N_go_0|].
  rewrite pretty_N_go_step by lia.
  apply IH; [apply N.div_lt; lia|]. simpl. rewrite Hs, andb_true_r.
  unfold pretty_N_char. by repeat case_match.
Qed.

(** The decimal notation of an integer is unchanged by the encoding. *)
Lemma encodeURIComponent_String_of (n : Z) :
  encodeURIComponent (String_of n) = String_of n.
Proof.
  apply encodeURIComponent_unreserved.
  assert (forall x : positive, all_unreserved (pretty x) = true) as Hpos.
  { intros x. unfold pretty, pretty_positive, pretty, pretty_N.
    destruct (decide _); [done|]. by apply pretty_N_go_unreserved. }
  unfold String_of, pretty, pretty_Z. destruct n as [|x|x]; [done|apply Hpos|].
  rewrite all_unreserved_app. by rewrite Hpos.
Qed.

(** The parts of a query string are the pairs it was built from. *)
Lemma query_pairs_join (kvs : list (string * string)) :
  kvs <> [] ->
  Forall (fun kv => has_char "&" kv.1 = false /\ has_char "=" kv.1 = false /\
                    has_char "&" kv.2 = false /\ has_char "=" kv.2 = false)
    kvs ->
  query_pairs (join "&" ((fun kv => kv.1 +:+ "=" +:+ kv.2) <$> kvs)) = kvs.
Proof.
  intros Hne Hkvs. unfold query_pairs.
  rewrite (split_on_join "&").
  - rewrite <- list_fmap_compose. rewrite <- (list_fmap_id kvs) at 2.
    apply Forall_fmap_ext_1. eapply Forall_impl; [exact Hkvs|].
    intros [k v] (_ & Hk & _ & Hv); simpl in *.
    change (k +:+ "=" +:+ v) with (k +:+ String "=" v).
    rewrite (split_on_app "=") by done.
    by rewrite split_on_free.
  - by destruct kvs.
  - apply Forall_fmap. eapply Forall_impl; [exact Hkvs|].
    intros [k v] (Hk & _ & Hv & _); simpl in *.
    change (k +:+ "=" +:+ v) with (k +:+ String "=" v).
    rewrite has_char_app, Hk. simpl. by rewrite Hv.
Qed.
End strings.

(** ** The query string *)

Section query.
Implicit Types (m : gmap string string) (k v : string)
  (p : SignatureParams.t).

Lemma StronglySorted_filter {A} (R : relation A) (P : A -> Prop)
    `{!forall x, Decision (P x)} (l : list A) :
  StronglySorted R l -> StronglySorted R (filter P l).
Proof.
  intros Hl. induction Hl as [|x l Hl IH Hx]; [constructor|].
  rewrite filter_cons. destruct (decide (P x)); [|done].
  constructor; [done|].
  apply Forall_forall. intros y [_ Hy]%list_elem_of_filter.
  by eapply Forall_forall in Hx.
Qed.

Lemma filter_ext_in {A} (P1 P2 : A -> Prop)
    `{!forall x, Decision (P1 x), !forall x, Decision (P2 x)} (l : list A) :
  (forall x, x ∈ l -> P1 x <-> P2 x) -> filter P1 l = filter P2 l.
Proof.
  induction l as [|x l IH]; [done|]. intros Hext.
  rewrite !filter_cons, IH by (intros y Hy; apply Hext; by right).
  apply decide_ext, Hext. by left.
Qed.

Lemma sorted_keys_sorted m : StronglySorted String.le (sorted_keys m).
Proof. apply StronglySorted_merge_sort; apply _. Qed.

Lemma sorted_keys_perm m : sorted_keys m ≡ₚ elements (dom m).
Proof. apply merge_sort_Permutation. Qed.

Lemma sorted_keys_NoDup m : NoDup (sorted_keys m).
Proof. rewrite sorted_keys_perm. apply NoDup_elements. Qed.

Lemma elem_of_sorted_keys m k : k ∈ sorted_keys m <-> is_Some (m !! k).
Proof. by rewrite sorted_keys_perm, elem_of_elements, elem_of_dom. Qed.

(** Sorting the keys of an object is selecting them in any sorted list
    that holds them all. *)
Lemma sorted_keys_filter m (all : list string) :
  StronglySorted String.le all -> NoDup all ->
  (forall k, is_Some (m !! k) -> k ∈ all) ->
  sorted_keys m = filter (fun k => is_Some (m !! k)) all.
Proof.
  intros Hsorted Hnodup Hall.
  apply (StronglySorted_unique String.le).
  - apply sorted_keys_sorted.
  - by apply StronglySorted_filter.
  - apply NoDup_Permutation.
    + apply sorted_keys_NoDup.
    + by apply NoDup_filter.
    + intros k. rewrite elem_of_sorted_keys, list_elem_of_filter.
      split; [by auto | by intros [? _]].
Qed.

(** The pairs read back from [encodeParams]: the sorted keys, each with
    its encoded value. *)
Lemma query_pairs_encodeParams m :
  m <> ∅ -> (forall k, is_Some (m !! k) -> plain_key k) ->
  query_pairs (encodeParams m)
  = (fun k => (k, encodeURIComponent (m !!! k))) <$> sorted_keys m.
Proof.
  intros Hne Hplain. unfold encodeParams.
  rewrite <- (query_pairs_join (_ <$> sorted_keys m)).
  - by rewrite <- list_fmap_compose.
  - intros Hnil%fmap_nil_inv. apply Hne, map_eq. intros k.
    rewrite lookup_empty. apply eq_None_not_Some.
    rewrite <- elem_of_sorted_keys, Hnil. apply not_elem_of_nil.
  - apply Forall_fmap, Forall_forall. intros k Hk%elem_of_sorted_keys.
    destruct (Hplain k Hk) as [Hamp Heq]. simpl.
    rewrite !encodeURIComponent_free by auto. done.
Qed.

Lemma elem_of_query_pairs m k v :
  m <> ∅ -> (forall k, is_Some (m !! k) -> plain_key k) ->
  (k, v) ∈ query_pairs (encodeParams m)
  <-> exists x, m !! k = Some x /\ v = encodeURIComponent x.
Proof.
  intros Hne Hplain. rewrite query_pairs_encodeParams by done.
  rewrite list_elem_of_fmap. split.
  - intros (k' & [= -> ->] & [x Hx]%elem_of_sorted_keys).
    exists x. by rewrite (lookup_total_correct _ _ _ Hx).
  - intros (x & Hx & ->). exists k. split.
    + by rewrite (lookup_total_correct _ _ _ Hx).
    + by apply elem_of_sorted_keys.
Qed.

Lemma query_keys_encodeParams m :
  m <> ∅ -> (forall k, is_Some (m !! k) -> plain_key k) ->
  query_keys (encodeParams m) = sorted_keys m.
Proof.
  intros Hne Hplain. unfold query_keys.
  rewrite query_pairs_encodeParams by done.
  rewrite <- list_fmap_compose. apply list_fmap_id.
Qed.

(** *** The object built by [toMap] *)

Lemma lookup_set_if_eq (c : bool) k v m :
  set_if c k v m !! k = if c then Some v else m !! k.
Proof. destruct c; simpl; [apply lookup_insert_eq | done]. Qed.

Lemma lookup_set_if_ne (c : bool) k k' v m :
  k <> k' -> set_if c k v m !! k' = m !! k'.
Proof. destruct c; simpl; [apply lookup_insert_ne | done]. Qed.

Lemma is_Some_set_if (c : bool) k k' v m :
  is_Some (set_if c k v m !! k') -> k' = k \/ is_Some (m !! k').
Proof.
  destruct (decide (k = k')) as [->|]; [by left|].
  rewrite lookup_set_if_ne by done. by right.
Qed.

Lemma is_Some_insert k k' v m :
  is_Some (<[k := v]> m !! k') -> k' = k \/ is_Some (m !! k').
Proof.
  destruct (decide (k = k')) as [->|]; [by left|].
  rewrite lookup_insert_ne by done. by right.
Qed.

Lemma ALL_KEYS_sorted : StronglySorted String.le ALL_KEYS.
Proof.
  apply Sorted_StronglySorted; [apply _|].
  apply (bool_decide_unpack _). vm_compute. exact I.
Qed.

Lemma ALL_KEYS_NoDup : NoDup ALL_KEYS.
Proof. apply (bool_decide_unpack _). vm_compute. exact I. Qed.

Lemma ALL_KEYS_plain k : k ∈ ALL_KEYS -> plain_key k.
Proof.
  intros Hk%list_elem_of_In. cbv [ALL_KEYS KEYS_BEFORE KEYS_AFTER app In] in Hk.
  repeat (destruct Hk as [<- | Hk]; [by split|]). done.
Qed.
End query.

(** Looking a literal key up in the object built by [toMap]. *)
Ltac toMap_lookup :=
  unfold SignatureParams.toMap;
  repeat first
    [ rewrite lookup_set_if_eq
    | rewrite lookup_set_if_ne by done
    | rewrite lookup_insert_eq
    | rewrite lookup_insert_ne by done
    | rewrite lookup_empty ].

Section toMap_facts.
Implicit Types (m : gmap string string) (k v : string)
  (p : SignatureParams.t).

(** [toMap] writes no key but those of [KEYS_BEFORE] and [KEYS_AFTER]. *)
Lemma toMap_keys p k :
  is_Some (SignatureParams.toMap p !! k) ->
  k ∈ (KEYS_BEFORE ++ KEYS_AFTER)%list.
Proof.
  unfold SignatureParams.toMap. intros H.
  repeat (apply is_Some_set_if in H as [-> | H];
          [apply list_elem_of_In; simpl; tauto|]).
  repeat (apply is_Some_insert in H as [-> | H];
          [apply list_elem_of_In; simpl; tauto|]).
  rewrite lookup_empty in H. by destruct H.
Qed.

Lemma toMap_no_signature p : SignatureParams.toMap p !! "signature" = None.
Proof.
  apply eq_None_not_Some. intros Hin%toMap_keys.
  apply list_elem_of_In in Hin. simpl in Hin.
  repeat (destruct Hin as [? | Hin]; [done|]). done.
Qed.

Lemma toMap_secretid p :
  SignatureParams.toMap p !! "secretid"
  = Some (String_of (SignatureParams.appId p)).
Proof. by toMap_lookup. Qed.

Lemma toMap_timestamp p :
  SignatureParams.toMap p !! "timestamp"
  = Some (String_of (SignatureParams.timestamp p)).
Proof. by toMap_lookup. Qed.

Lemma toMap_nonempty p : SignatureParams.toMap p <> ∅.
Proof.
  intros Hempty. pose proof (toMap_secretid p) as H.
  by rewrite Hempty, lookup_empty in H.
Qed.

Lemma toMap_plain p k :
  is_Some (SignatureParams.toMap p !! k) -> plain_key k.
Proof.
  intros Hin%toMap_keys. apply ALL_KEYS_plain. unfold ALL_KEYS.
  rewrite !elem_of_app. apply elem_of_app in Hin. tauto.
Qed.

Lemma signed_keys p k sig :
  is_Some (<["signature" := sig]> (SignatureParams.toMap p) !! k) ->
  k ∈ ALL_KEYS.
Proof.
  intros [-> | Hin%toMap_keys]%is_Some_insert; unfold ALL_KEYS;
    rewrite !elem_of_app.
  - right; left. apply list_elem_of_singleton. done.
  - apply elem_of_app in Hin. tauto.
Qed.

Lemma signed_plain p k sig :
  is_Some (<["signature" := sig]> (SignatureParams.toMap p) !! k) ->
  plain_key k.
Proof. intros H%signed_keys. by apply ALL_KEYS_plain. Qed.

Lemma signed_nonempty p sig :
  <["signature" := sig]> (SignatureParams.toMap p) <> ∅.
Proof. apply insert_non_empty. Qed.

(** The sorted keys of the signed object are those of the unsigned one
    with [signature] put in its place. *)
Lemma sorted_keys_signed p sig :
  let m := SignatureParams.toMap p in
  sorted_keys m
  = (filter (fun k => is_Some (m !! k)) KEYS_BEFORE
     ++ filter (fun k => is_Some (m !! k)) KEYS_AFTER)%list /\
  sorted_keys (<["signature" := sig]> m)
  = (filter (fun k => is_Some (m !! k)) KEYS_BEFORE
     ++ "signature" :: filter (fun k => is_Some (m !! k)) KEYS_AFTER)%list.
Proof.
  intros m. split.
  - rewrite (sorted_keys_filter m ALL_KEYS ALL_KEYS_sorted ALL_KEYS_NoDup).
    + unfold ALL_KEYS. rewrite !filter_app. f_equal.
      rewrite filter_cons, decide_False; [done|].
      unfold m. rewrite toMap_no_signature. by intros [? ?].
    + intros k Hk. apply (signed_keys p k sig).
      destruct (decide ("signature" = k)) as [<-|];
        [by rewrite lookup_insert_eq | by rewrite lookup_insert_ne].
  - rewrite (sorted_keys_filter _ ALL_KEYS ALL_KEYS_sorted ALL_KEYS_NoDup)
      by (intros k; apply signed_keys).
    unfold ALL_KEYS. rewrite !filter_app.
    rewrite filter_cons, decide_True by (by rewrite lookup_insert_eq).
    f_equal; [|f_equal]; apply filter_ext_in; intros k Hk;
      rewrite lookup_insert_ne; try done; intros <-;
      apply list_elem_of_In in Hk; simpl in Hk;
      repeat (destruct Hk as [? | Hk]; [done|]); done.
Qed.
End toMap_facts.

Section query_claims.
Implicit Types (p : SignatureParams.t) (sig k v : string).

Lemma unsigned_pairs p :
  query_pairs (SignatureParams.buildQueryString p)
  = (fun k => (k, encodeURIComponent (SignatureParams.toMap p !!! k)))
      <$> sorted_keys (SignatureParams.toMap p).
Proof.
  apply query_pairs_encodeParams; [apply toMap_nonempty|].
  intros k. apply toMap_plain.
Qed.

Lemma signed_pairs p sig :
  let m' := <["signature" := sig]> (SignatureParams.toMap p) in
  query_pairs (SignatureParams.buildQueryStringWithSignature p sig)
  = (fun k => (k, encodeURIComponent (m' !!! k))) <$> sorted_keys m'.
Proof.
  apply query_pairs_encodeParams; [apply signed_nonempty|].
  intros k. apply signed_plain.
Qed.

Lemma signature_not_sorted_key p :
  "signature" ∉ sorted_keys (SignatureParams.toMap p).
Proof.
  rewrite elem_of_sorted_keys, toMap_no_signature. by intros [? ?].
Qed.

(** Dropping the [signature] pair from pairs built on the signed object
    gives the pairs built on the unsigned one. *)
Lemma filter_signature_pairs p sig (l : list string) :
  "signature" ∉ l ->
  filter (fun kv => kv.1 <> "signature")
    ((fun k => (k, encodeURIComponent
                     (<["signature" := sig]> (SignatureParams.toMap p) !!! k)))
       <$> l)
  = (fun k => (k, encodeURIComponent (SignatureParams.toMap p !!! k))) <$> l.
Proof.
  induction l as [|k l IH]; [done|].
  intros [Hk Hl]%not_elem_of_cons. rewrite !fmap_cons.
  rewrite filter_cons_True by done. rewrite IH by done.
  by rewrite lookup_total_insert_ne.
Qed.

(** C3.  For every parameter value and every signature string, the signed
    and the unsigned query string differ only by the [signature] pair:
    dropping it from the signed string leaves the pairs of the unsigned
    one, same keys, same values, same order; the unsigned string has no
    [signature] key and the signed one has it once, with the encoded
    signature; and in both strings the keys are in sorted order, each
    once. *)
Theorem signed_and_unsigned_differ_by_signature p sig :
  let unsigned := query_pairs (SignatureParams.buildQueryString p) in
  let signed :=
    query_pairs (SignatureParams.buildQueryStringWithSignature p sig) in
  filter (fun kv => kv.1 <> "signature") signed = unsigned /\
  ("signature" ∉ query_keys (SignatureParams.buildQueryString p)) /\
  (forall v, ("signature", v) ∈ signed <-> v = encodeURIComponent sig) /\
  StronglySorted String.le (unsigned.*1) /\ NoDup (unsigned.*1) /\
  StronglySorted String.le (signed.*1) /\ NoDup (signed.*1).
Proof.
  intros unsigned signed.
  assert ((unsigned.*1) = sorted_keys (SignatureParams.toMap p)) as Hu.
  { apply query_keys_encodeParams; [apply toMap_nonempty|].
    intros k. apply toMap_plain. }
  assert ((signed.*1)
          = sorted_keys (<["signature" := sig]> (SignatureParams.toMap p)))
    as Hs.
  { apply query_keys_encodeParams; [apply signed_nonempty|].
    intros k. apply signed_plain. }
  unfold query_keys. fold unsigned. rewrite Hu, Hs. repeat split.
  - unfold signed, unsigned. rewrite unsigned_pairs, signed_pairs.
    destruct (sorted_keys_signed p sig) as [Hkeys Hkeys'].
    rewrite Hkeys', Hkeys.
    pose proof (signature_not_sorted_key p) as Hnot.
    rewrite Hkeys in Hnot. apply not_elem_of_app in Hnot as [Hb Ha].
    rewrite !fmap_app, fmap_cons, !filter_app, filter_cons_False
      by (simpl; tauto).
    by rewrite !filter_signature_pairs.
  - apply signature_not_sorted_key.
  - intros Hin. apply elem_of_query_pairs in Hin as (x & Hx & ->);
      [|apply signed_nonempty|intros k; apply signed_plain].
    rewrite lookup_insert_eq in Hx. by injection Hx as <-.
  - intros ->. apply elem_of_query_pairs;
      [apply signed_nonempty|intros k; apply signed_plain|].
    exists sig. by rewrite lookup_insert_eq.
  - apply sorted_keys_sorted.
  - apply sorted_keys_NoDup.
  - apply sorted_keys_sorted.
  - apply sorted_keys_NoDup.
Qed.

(** C4, as the code has it.  The [signature] key is sorted with the other
    keys: in the signed query string it stands right after [secretid] and
    right before [timestamp], and the keys around it are those of the
    unsigned string in their order. *)
Theorem signature_sorted_between_secretid_and_timestamp p sig :
  exists before after : list string,
    query_keys (SignatureParams.buildQueryString p)
    = (before ++ ["secretid"; "timestamp"] ++ after)%list /\
    query_keys (SignatureParams.buildQueryStringWithSignature p sig)
    = (before ++ ["secretid"; "signature"; "timestamp"] ++ after)%list.
Proof.
  set (m := SignatureParams.toMap p).
  exists (filter (fun k => is_Some (m !! k))
            ["convert_num_mode"; "customization_id"; "engine_model_type";
             "expired"; "filter_dirty"; "filter_modal"; "filter_punc";
             "hotword_id"; "max_speak_time"; "needvad"; "nonce"]),
         (filter (fun k => is_Some (m !! k))
            ["vad_silence_time"; "voice_format"; "voice_id"; "word_info"]).
  unfold SignatureParams.buildQueryString,
    SignatureParams.buildQueryStringWithSignature.
  rewrite !query_keys_encodeParams;
    [|apply signed_nonempty|intros k; apply signed_plain
     |apply toMap_nonempty|intros k; apply toMap_plain].
  destruct (sorted_keys_signed p sig) as [-> ->]. fold m.
  assert (filter (fun k => is_Some (m !! k)) KEYS_BEFORE
          = (filter (fun k => is_Some (m !! k))
              ["convert_num_mode"; "customization_id"; "engine_model_type";
               "expired"; "filter_dirty"; "filter_modal"; "filter_punc";
               "hotword_id"; "max_speak_time"; "needvad"; "nonce"]
             ++ ["secretid"])%list) as ->.
  { change KEYS_BEFORE with
      (["convert_num_mode"; "customization_id"; "engine_model_type";
        "expired"; "filter_dirty"; "filter_modal"; "filter_punc";
        "hotword_id"; "max_speak_time"; "needvad"; "nonce"]
       ++ ["secretid"])%list.
    rewrite filter_app. f_equal.
    rewrite filter_cons_True; [done|]. unfold m. by rewrite toMap_secretid. }
  assert (filter (fun k => is_Some (m !! k)) KEYS_AFTER
          = "timestamp"
            :: filter (fun k => is_Some (m !! k))
                 ["vad_silence_time"; "voice_format"; "voice_id";
                  "word_info"]) as ->.
  { unfold KEYS_AFTER. rewrite filter_cons_True; [done|].
    unfold m. by rewrite toMap_timestamp. }
  by rewrite <- !app_assoc.
Qed.

(** C4, as stated, fails: with the parameters of the tests the last key
    of the signed query string is [voice_id]; [signature] is the seventh
    of ten keys. *)
Lemma signature_is_not_appended_last :
  query_keys
    (SignatureParams.buildQueryStringWithSignature sample_params "sig")
  = ["convert_num_mode"; "engine_model_type"; "expired"; "needvad";
     "nonce"; "secretid"; "signature"; "timestamp"; "voice_format";
     "voice_id"] /\
  last (query_keys
          (SignatureParams.buildQueryStringWithSignature sample_params
             "sig"))
  <> Some "signature".
Proof. split; [by vm_compute | by vm_compute]. Qed.

Lemma carries_toMap p k (c : bool) (present : Prop) v :
  SignatureParams.toMap p !! k = (if c then Some v else None) ->
  (c = true <-> present) ->
  carries (query_pairs (SignatureParams.buildQueryString p)) k present
    (encodeURIComponent v).
Proof.
  intros Hk Hc. split.
  - fold (query_keys (SignatureParams.buildQueryString p)).
    unfold SignatureParams.buildQueryString.
    rewrite query_keys_encodeParams;
      [|apply toMap_nonempty|intros k'; apply toMap_plain].
    rewrite elem_of_sorted_keys, Hk, <- Hc.
    destruct c; split; intros H; try done; by destruct H.
  - intros Hp%Hc v'. subst c. unfold SignatureParams.buildQueryString.
    rewrite elem_of_query_pairs;
      [|apply toMap_nonempty|intros k'; apply toMap_plain].
    rewrite Hk. split; [by intros (x & [= <-] & ->) | intros ->; eauto].
Qed.

Lemma truthy_str_true (s : string) : truthy_str s = true <-> s <> "".
Proof. by destruct s. Qed.

Lemma truthy_num_true (n : Z) : truthy_num n = true <-> n <> 0.
Proof.
  unfold truthy_num. rewrite negb_true_iff. apply Z.eqb_neq.
Qed.

(** What [toMap] does with the optional fields.  Each optional key is in
    the query string exactly when its field is truthy, that is non-empty
    for the two strings and non-zero for the seven numbers, and then it
    carries the field: the decimal notation of a number, the URI-encoded
    text of a string.  For the eight fields whose default is 0 or the empty
    string that is "set to a non-default value".  For [convertNumMode],
    whose default is 1, it is not: parameters built without it carry
    [convert_num_mode=1]. *)
Theorem optional_keys_present_iff_truthy p :
  let kvs := query_pairs (SignatureParams.buildQueryString p) in
  carries kvs "hotword_id" (SignatureParams.hotwordId p <> "")
    (encodeURIComponent (SignatureParams.hotwordId p)) /\
  carries kvs "customization_id" (SignatureParams.customizationId p <> "")
    (encodeURIComponent (SignatureParams.customizationId p)) /\
  carries kvs "filter_dirty" (SignatureParams.filterDirty p <> 0)
    (String_of (SignatureParams.filterDirty p)) /\
  carries kvs "filter_modal" (SignatureParams.filterModal p <> 0)
    (String_of (SignatureParams.filterModal p)) /\
  carries kvs "filter_punc" (SignatureParams.filterPunc p <> 0)
    (String_of (SignatureParams.filterPunc p)) /\
  carries kvs "convert_num_mode" (SignatureParams.convertNumMode p <> 0)
    (String_of (SignatureParams.convertNumMode p)) /\
  carries kvs "word_info" (SignatureParams.wordInfo p <> 0)
    (String_of (SignatureParams.wordInfo p)) /\
  carries kvs "vad_silence_time" (SignatureParams.vadSilenceTime p <> 0)
    (String_of (SignatureParams.vadSilenceTime p)) /\
  carries kvs "max_speak_time" (SignatureParams.maxSpeakTime p <> 0)
    (String_of (SignatureParams.maxSpeakTime p)) /\
  (forall opts now_ms rnd,
      p = SignatureParams.new opts now_ms rnd ->
      SignatureParams.opt_convertNumMode opts = None ->
      ("convert_num_mode", "1") ∈ kvs).
Proof.
  intros kvs. unfold kvs.
  assert (carries (query_pairs (SignatureParams.buildQueryString p))
            "convert_num_mode" (SignatureParams.convertNumMode p <> 0)
            (String_of (SignatureParams.convertNumMode p))) as Hconvert.
  { rewrite <- (encodeURIComponent_String_of (SignatureParams.convertNumMode p)).
    eapply carries_toMap; [by toMap_lookup | apply truthy_num_true]. }
  repeat split_and; try exact Hconvert;
    try (eapply carries_toMap; [by toMap_lookup | apply truthy_str_true]);
    try (rewrite <- encodeURIComponent_String_of;
         eapply carries_toMap; [by toMap_lookup | apply truthy_num_true]).
  intros opts now_ms rnd -> Hnone.
  destruct Hconvert as [_ Hvalue]. apply Hvalue.
  - simpl. by rewrite Hnone.
  - simpl. by rewrite Hnone.
Qed.

(** C5.  Each optional key should be in the query string exactly when
    its field was set to a non-default value.  [toMap] breaks this for
    [convert_num_mode], which it tests for truthiness like the fields whose
    default is 0: the parameters of the tests leave [convertNumMode]
    unset, at its default 1, and their query string carries
    [convert_num_mode=1]; set to 0, a non-default value, the key is left
    out, so the request cannot switch number conversion off. *)
Lemma convert_num_mode_sent_at_default :
  SignatureParams.opt_convertNumMode sample_opts = None /\
  SignatureParams.buildQueryString sample_params
  = "convert_num_mode=1&engine_model_type=16k_zh&expired=1700086400"
    +:+ "&needvad=1&nonce=42&secretid=1300403317&timestamp=1700000000"
    +:+ "&voice_format=1&voice_id=test-voice-001" /\
  SignatureParams.opt_convertNumMode sample_opts_no_convert = Some 0 /\
  query_keys
    (SignatureParams.buildQueryString
       (SignatureParams.new sample_opts_no_convert 1700000000123 41))
  = ["engine_model_type"; "expired"; "needvad"; "nonce"; "secretid";
     "timestamp"; "voice_format"; "voice_id"].
Proof. repeat split; by vm_compute. Qed.
End query_claims.

(** ** The session *)

Section session.
Import SpeechRecognizer.
Implicit Types (s : SpeechRecognizer.t) (c : Credential.t) (p : nat)
  (e : Effect) (f : Effect -> bool).

(** *** Counting effects *)

Lemma SpeechRecognizer_count_emit f e s :
  count f (emit e s) = (count f s + if f e then 1 else 0)%nat.
Proof.
  unfold count, emit; simpl. rewrite filter_app, length_app. f_equal.
  rewrite filter_cons, filter_nil. by destruct (f e).
Qed.

Lemma SpeechRecognizer_count_release_done f s :
  count f (release_done s)
  = (count f s + match doneResolve s with
                 | Some p => if f (DoneResolve p) then 1 else 0
                 | None => 0
                 end)%nat.
Proof.
  unfold release_done. destruct (doneResolve s) as [p|]; [|lia].
  change (count f (with_doneResolve None (emit (DoneResolve p) s)))
    with (count f (emit (DoneResolve p) s)).
  apply SpeechRecognizer_count_emit.
Qed.

Lemma SpeechRecognizer_count_close f s :
  count f (close s)
  = (count f s + match ws s with
                 | Some w => if f (WsClose w) then 1 else 0
                 | None => 0
                 end)%nat.
Proof.
  unfold close. destruct (ws s) as [w|]; [|lia].
  change (count f (with_ws None (emit (WsClose w) s)))
    with (count f (emit (WsClose w) s)).
  apply SpeechRecognizer_count_emit.
Qed.

Lemma resolved_count p s :
  resolved p s = true <-> (0 < count (is_release p) s)%nat.
Proof.
  unfold resolved, count. induction (trace s) as [|e l IH]; simpl.
  - split; [done | lia].
  - rewrite filter_cons. fold (is_release p e).
    destruct (decide (is_release p e = true)) as [-> | He]; simpl.
    + split; [lia | done].
    + apply not_true_is_false in He. rewrite He. exact IH.
Qed.

(** *** The completion signal *)

Lemma signal_inv_same s s' :
  trace s' = trace s -> doneResolve s' = doneResolve s ->
  donePromise s' = donePromise s -> attempts s' = attempts s ->
  signal_inv s -> signal_inv s'.
Proof.
  intros Ht Hr Hp Ha. unfold signal_inv, count.
  by rewrite Ht, Hr, Hp, Ha.
Qed.

Lemma signal_inv_with_state st s :
  signal_inv s -> signal_inv (with_state st s).
Proof. by apply signal_inv_same. Qed.

Lemma signal_inv_with_ws w s : signal_inv s -> signal_inv (with_ws w s).
Proof. by apply signal_inv_same. Qed.

Lemma signal_inv_with_voiceId id s :
  signal_inv s -> signal_inv (with_voiceId id s).
Proof. by apply signal_inv_same. Qed.

Lemma signal_inv_emit e s :
  (forall p, is_release p e = false) ->
  signal_inv s -> signal_inv (emit e s).
Proof.
  intros He (Hone & Hfresh & Hres & Hprom). unfold signal_inv.
  setoid_rewrite SpeechRecognizer_count_emit. setoid_rewrite He.
  setoid_rewrite Nat.add_0_r. done.
Qed.

Lemma signal_inv_close s : signal_inv s -> signal_inv (close s).
Proof.
  intros H. unfold close. destruct (ws s); [|done].
  by apply signal_inv_with_ws, signal_inv_emit.
Qed.

(** Releasing: the resolver at hand is called once and dropped. *)
Lemma signal_inv_release_done s :
  signal_inv s -> signal_inv (release_done s).
Proof.
  intros H. unfold release_done.
  destruct (doneResolve s) as [q|] eqn:Hq; [|done].
  destruct H as (Hone & Hfresh & Hres & Hprom).
  destruct (Hres q Hq) as [Hzero Hcur].
  assert (forall p, count (is_release p)
                      (with_doneResolve None (emit (DoneResolve q) s))
                    = (count (is_release p) s
                       + if Nat.eqb p q then 1 else 0)%nat) as Hcount.
  { intros p. apply (SpeechRecognizer_count_emit (is_release p) (DoneResolve q) s). }
  unfold signal_inv. setoid_rewrite Hcount. simpl.
  split; [|split; [|split]].
  - intros p. destruct (Nat.eqb_spec p q) as [-> | _].
    + rewrite Hzero. lia.
    + specialize (Hone p). lia.
  - intros p Hp. destruct (Nat.eqb_spec p q) as [-> | _].
    + destruct (Hprom q Hcur) as [Hlt _]. lia.
    + rewrite (Hfresh p Hp). lia.
  - done.
  - intros p Hp. split; [by apply Hprom|]. right.
    rewrite Hcur in Hp. injection Hp as <-.
    rewrite Nat.eqb_refl, Hzero. done.
Qed.

(** A new promise takes the next number, which no history mentions. *)
Lemma signal_inv_new_donePromise s :
  signal_inv s -> signal_inv (new_donePromise s).
Proof.
  intros (Hone & Hfresh & Hres & Hprom).
  unfold signal_inv, new_donePromise, count; simpl.
  split; [|split; [|split]].
  - apply Hone.
  - intros p Hp. apply Hfresh. lia.
  - intros p [= <-]. split; [by apply Hfresh | done].
  - intros p [= <-]. split; [lia | by left].
Qed.

Lemma signal_inv_pristine s : pristine s -> signal_inv s.
Proof.
  intros (_ & _ & Hres & Hprom & _ & Htrace).
  unfold signal_inv, count. rewrite Hres, Hprom, Htrace. simpl.
  repeat split; intros; (done || lia).
Qed.
End session.

(** Counting through the updates of a session. *)
Ltac count_steps :=
  repeat first
    [ rewrite SpeechRecognizer_count_release_done
    | rewrite SpeechRecognizer_count_close
    | rewrite SpeechRecognizer_count_emit
    | progress change (SpeechRecognizer.count ?f
                         (SpeechRecognizer.with_state ?x ?s))
        with (SpeechRecognizer.count f s)
    | progress change (SpeechRecognizer.count ?f
                         (SpeechRecognizer.with_ws ?x ?s))
        with (SpeechRecognizer.count f s)
    | progress change (SpeechRecognizer.count ?f
                         (SpeechRecognizer.with_voiceId ?x ?s))
        with (SpeechRecognizer.count f s)
    | progress change (SpeechRecognizer.count ?f
                         (SpeechRecognizer.new_donePromise ?s))
        with (SpeechRecognizer.count f s) ];
  simpl.

(** One step of an invariance proof for the completion signal. *)
Ltac signal_step :=
  first
    [ assumption
    | apply signal_inv_release_done
    | apply signal_inv_close
    | apply signal_inv_new_donePromise
    | apply signal_inv_with_state
    | apply signal_inv_with_ws
    | apply signal_inv_with_voiceId
    | apply signal_inv_emit; [by intros ?|] ].

Section session_invariant.
Import SpeechRecognizer.
Implicit Types (s : SpeechRecognizer.t) (c : Credential.t) (p : nat).

Lemma signal_inv_handle ev s : signal_inv s -> signal_inv (handle ev s).
Proof.
  intros H.
  unfold handle, on_open, on_error, on_close, handleMessage, dispatchEvent.
  repeat case_match; repeat signal_step.
Qed.

Lemma signal_inv_connect env c s :
  signal_inv s -> signal_inv (connect env c s).1.2.
Proof.
  intros H. unfold connect.
  repeat case_match; simplify_eq; simpl; repeat signal_step;
    repeat case_match; repeat signal_step.
Qed.

Lemma signal_inv_start env c s :
  signal_inv s -> signal_inv (start env c s).1.2.
Proof.
  intros H. unfold start. destruct (negb _); [done|].
  pose proof (signal_inv_connect env c (with_state STARTING s)
                (signal_inv_with_state _ _ H)) as Hc.
  destruct (connect env c (with_state STARTING s)) as [[c' s'] []];
    simpl in *; repeat signal_step.
Qed.

Lemma signal_inv_write data o s :
  signal_inv s -> signal_inv (write data o s).1.
Proof.
  intros H. unfold write. repeat case_match; simpl; repeat signal_step.
Qed.

Lemma signal_inv_deliver_before limit evs s :
  signal_inv s -> signal_inv (deliver_before limit evs s).1.
Proof.
  revert s. induction evs as [|[a ev] evs IH]; intros s H; simpl; [done|].
  destruct (Z.of_N a <? limit); [|done]. by apply IH, signal_inv_handle.
Qed.

Lemma signal_inv_await_done p deadline now evs s :
  signal_inv s -> signal_inv (await_done p deadline now evs s).1.
Proof.
  revert now s. induction evs as [|[a ev] evs IH]; intros now s H; simpl.
  - by destruct (resolved p s).
  - destruct (resolved p s); [done|].
    destruct (Z.of_N a <? deadline); [|done].
    by apply IH, signal_inv_handle.
Qed.

Lemma signal_inv_stop o evs s :
  signal_inv s -> signal_inv (stop o evs s).1.
Proof.
  intros H. unfold stop. destruct (negb _); [done|].
  destruct (ws (with_state STOPPING s)) as [w|]; [|by repeat signal_step].
  set (s1 := emit _ _).
  assert (signal_inv s1) as H1 by (unfold s1; repeat signal_step).
  pose proof (signal_inv_deliver_before
                (at_ms (settle_send (writeTimeout s1) o
                          "send end signal timeout"
                          "send end signal failed: ")) evs s1 H1) as H2.
  destruct (deliver_before _ evs s1) as [s2 later]. simpl in H2.
  destruct (rejection _); [simpl; by repeat signal_step|].
  destruct (donePromise s2) as [p|]; [|simpl; by repeat signal_step].
  pose proof (signal_inv_await_done p
                (at_ms (settle_send (writeTimeout s1) o
                          "send end signal timeout"
                          "send end signal failed: ") + 10000)
                (at_ms (settle_send (writeTimeout s1) o
                          "send end signal timeout"
                          "send end signal failed: ")) later s2 H2) as H3.
  destruct (await_done _ _ _ later s2) as [s3 finished].
  simpl in *. by repeat signal_step.
Qed.

Lemma signal_inv_step w a : signal_inv w.2 -> signal_inv (step w a).2.
Proof.
  destruct w as [c s]. simpl. intros H. destruct a; simpl.
  - destruct (start env c s) as [[c' s'] r] eqn:Hs.
    pose proof (signal_inv_start env c s H) as H'. by rewrite Hs in H'.
  - by apply signal_inv_write.
  - by apply signal_inv_stop.
  - by apply signal_inv_handle.
  - done.
Qed.

Lemma signal_inv_run acts w : signal_inv w.2 -> signal_inv (run acts w).2.
Proof.
  revert w. induction acts as [|a acts IH]; intros w H; simpl; [done|].
  by apply IH, signal_inv_step.
Qed.

(** *** Completion callbacks and terminal events *)

(** A handler adds a completion callback exactly when the event it
    receives is a zero-status event marked final. *)
Lemma counts_handle ev s :
  count is_complete (handle ev s)
  = (count is_complete s + if is_terminal (Inbound ev) then 1 else 0)%nat /\
  count is_terminal (handle ev s)
  = (count is_terminal s + if is_terminal (Inbound ev) then 1 else 0)%nat.
Proof.
  unfold handle, on_open, on_error, on_close, handleMessage, dispatchEvent.
  destruct ev as [|msg|[[err|resp]|]|]; simpl.
  - split; count_steps; lia.
  - split; case_match; count_steps; lia.
  - split; count_steps; lia.
  - destruct (code resp =? 0) eqn:Hc, (final resp =? 1) eqn:Hf; simpl;
      split; repeat case_match; count_steps; rewrite ?Hc, ?Hf; simpl;
      repeat case_match; lia.
  - split; count_steps; lia.
  - split; repeat case_match; count_steps; repeat case_match; lia.
Qed.

Lemma balanced_handle ev s : balanced s -> balanced (handle ev s).
Proof.
  unfold balanced. destruct (counts_handle ev s) as [-> ->]. lia.
Qed.

Lemma balanced_connect env c s :
  balanced s -> balanced (connect env c s).1.2.
Proof.
  unfold balanced, connect. intros H.
  repeat case_match; simplify_eq; simpl; count_steps;
    repeat case_match; count_steps; lia.
Qed.

Lemma balanced_start env c s : balanced s -> balanced (start env c s).1.2.
Proof.
  intros H. unfold start. destruct (negb _); [done|].
  assert (balanced (with_state STARTING s)) as H' by done.
  apply (balanced_connect env c) in H'.
  destruct (connect env c (with_state STARTING s)) as [[c' s'] []];
    simpl in *; done.
Qed.

Lemma balanced_write data o s : balanced s -> balanced (write data o s).1.
Proof.
  unfold balanced, write. intros H.
  repeat case_match; simpl; count_steps; lia.
Qed.

Lemma balanced_deliver_before limit evs s :
  balanced s -> balanced (deliver_before limit evs s).1.
Proof.
  revert s. induction evs as [|[a ev] evs IH]; intros s H; simpl; [done|].
  destruct (Z.of_N a <? limit); [|done]. by apply IH, balanced_handle.
Qed.

Lemma balanced_await_done p deadline now evs s :
  balanced s -> balanced (await_done p deadline now evs s).1.
Proof.
  revert now s. induction evs as [|[a ev] evs IH]; intros now s H; simpl.
  - by destruct (resolved p s).
  - destruct (resolved p s); [done|].
    destruct (Z.of_N a <? deadline); [|done].
    by apply IH, balanced_handle.
Qed.

Lemma balanced_close s : balanced s -> balanced (close s).
Proof. unfold balanced. count_steps. case_match; lia. Qed.

Lemma balanced_stop o evs s : balanced s -> balanced (stop o evs s).1.
Proof.
  intros H. unfold stop. destruct (negb _); [done|].
  destruct (ws (with_state STOPPING s)) as [w|]; [|done].
  set (s1 := emit _ _).
  assert (balanced s1) as H1.
  { unfold s1, balanced in *. count_steps. lia. }
  set (sent := settle_send _ _ _ _).
  pose proof (balanced_deliver_before (at_ms sent) evs s1 H1) as H2.
  destruct (deliver_before _ evs s1) as [s2 later]. simpl in H2.
  destruct (rejection sent); [by apply balanced_close|].
  destruct (donePromise s2) as [p|]; [|by apply balanced_close].
  pose proof (balanced_await_done p (at_ms sent + 10000) (at_ms sent)
                later s2 H2) as H3.
  destruct (await_done _ _ _ later s2) as [s3 finished].
  by apply balanced_close.
Qed.

Lemma balanced_run acts w : balanced w.2 -> balanced (run acts w).2.
Proof.
  revert w. induction acts as [|a acts IH]; intros [c s] H; [done|].
  apply IH. destruct a; simpl in *.
  - apply (balanced_start env c) in H.
    by destruct (start env c s) as [[c' s'] r].
  - by apply balanced_write.
  - by apply balanced_stop.
  - by apply balanced_handle.
  - done.
Qed.
End session_invariant.

(** ** Completion *)

Section completion.
Import SpeechRecognizer.
Implicit Types (s : SpeechRecognizer.t) (c : Credential.t) (p : nat).

Lemma release_done_idempotent s :
  release_done (release_done s) = release_done s.
Proof.
  unfold release_done. destruct (doneResolve s) eqn:H; simpl; [done|].
  by rewrite H.
Qed.

(** C1, as the code has it.  Whatever is called on a session and whatever
    its socket delivers, in any order, no completion promise is resolved
    twice; releasing the signal a second time changes nothing; and
    [onRecognitionComplete] was called once for each zero-status final
    event received, so once when one such event is followed by a closure
    and not at all when none arrives. *)
Theorem completion_signal_released_at_most_once c s acts :
  pristine s ->
  let s' := (run acts (c, s)).2 in
  (forall p, (count (is_release p) s' <= 1)%nat) /\
  release_done (release_done s') = release_done s' /\
  count is_complete s' = count is_terminal s'.
Proof.
  intros Hs s'. split; [|split].
  - apply (signal_inv_run acts (c, s)). by apply signal_inv_pristine.
  - apply release_done_idempotent.
  - apply (balanced_run acts (c, s)).
    destruct Hs as (_ & _ & _ & _ & _ & Ht).
    unfold balanced, count. simpl. by rewrite Ht.
Qed.

Lemma completion_signal_released_at_most_once_witness :
  pristine sample_recognizer /\
  let s' := (run [Start sample_env; Transport EvOpen;
                  Transport (inbound final_response); Transport EvClose]
               (sample_credential, sample_recognizer)).2 in
  (forall p, (count (is_release p) s' <= 1)%nat) /\
  release_done (release_done s') = release_done s' /\
  count is_complete s' = count is_terminal s'.
Proof.
  split.
  - repeat split; reflexivity.
  - apply (completion_signal_released_at_most_once sample_credential
             sample_recognizer).
    repeat split; reflexivity.
Defined.

(** C1, as stated, fails: a session whose socket closes before any final
    event makes no completion callback, and one that receives two final
    events makes two. *)
Lemma completion_callback_not_exactly_once :
  count is_complete
    (run [Start sample_env; Transport EvOpen; Transport EvClose]
       (sample_credential, sample_recognizer)).2 = 0%nat /\
  count is_complete
    (run [Start sample_env; Transport EvOpen;
          Transport (inbound final_response);
          Transport (inbound final_response)]
       (sample_credential, sample_recognizer)).2 = 2%nat.
Proof. split; by vm_compute. Qed.
End completion.

(** ** Dispatch of inbound events *)

Section dispatch.
Import SpeechRecognizer.
Implicit Types (s : SpeechRecognizer.t) (p : nat)
  (resp : SpeechRecognitionResponse).

Lemma trace_release_done s :
  trace (release_done s) = (trace s ++ released s)%list.
Proof.
  unfold release_done, released.
  destruct (doneResolve s); simpl; [done | by rewrite app_nil_r].
Qed.

(** Once the signal is released, the current promise is resolved. *)
Lemma release_done_resolves s p :
  signal_inv s -> donePromise s = Some p ->
  resolved p (release_done s) = true.
Proof.
  intros Hinv Hp. apply resolved_count.
  rewrite SpeechRecognizer_count_release_done.
  destruct Hinv as (_ & _ & _ & Hprom).
  destruct (Hprom p Hp) as [_ [-> | ->]]; [|lia].
  simpl. rewrite Nat.eqb_refl. lia.
Qed.

(** C7.  A well-formed event of status zero is classified by its slice
    kind: 0 calls [onSentenceBegin], 1 [onRecognitionResultChange], 2
    [onSentenceEnd]; with no slice kind, an event that is not final calls
    [onRecognitionStart] and a final one calls nothing.  When the event is
    final, [onRecognitionComplete] is called too, after the classification
    callback, and the completion signal is released: the resolver at hand
    is called and dropped, and the promise of the connection is
    resolved.  Nothing else is done. *)
Theorem zero_status_event_dispatch s resp :
  code resp = 0 ->
  let s' := handleMessage (TextData (ParseOk resp)) s in
  let completion :=
    if final resp =? 1
    then Listener (onRecognitionComplete resp) :: released s
    else [] in
  (result resp ≫= slice_type = Some 0 ->
   trace s' = (trace s ++ Listener (onSentenceBegin resp) :: completion)%list)
  /\
  (result resp ≫= slice_type = Some 1 ->
   trace s'
   = (trace s ++ Listener (onRecognitionResultChange resp) :: completion)%list)
  /\
  (result resp ≫= slice_type = Some 2 ->
   trace s' = (trace s ++ Listener (onSentenceEnd resp) :: completion)%list)
  /\
  (result resp ≫= slice_type = None -> final resp <> 1 ->
   trace s' = (trace s ++ [Listener (onRecognitionStart resp)])%list) /\
  (result resp ≫= slice_type = None -> final resp = 1 ->
   trace s' = (trace s ++ completion)%list) /\
  (final resp = 1 ->
   doneResolve s' = None /\
   forall p, signal_inv s -> donePromise s = Some p ->
             resolved p s' = true) /\
  state s' = state s /\ ws s' = ws s.
Proof.
  intros Hcode s' completion. unfold s', completion, handleMessage.
  rewrite Hcode. simpl. unfold dispatchEvent.
  split_and!.
  - intros ->. destruct (final resp =? 1); simpl.
    + rewrite trace_release_done. simpl. by rewrite <- !app_assoc.
    + done.
  - intros ->. destruct (final resp =? 1); simpl.
    + rewrite trace_release_done. simpl. by rewrite <- !app_assoc.
    + done.
  - intros ->. destruct (final resp =? 1); simpl.
    + rewrite trace_release_done. simpl. by rewrite <- !app_assoc.
    + done.
  - intros -> Hfinal. apply Z.eqb_neq in Hfinal. by rewrite Hfinal.
  - intros -> ->. simpl. rewrite trace_release_done. simpl.
    by rewrite <- !app_assoc.
  - intros ->. simpl. split.
    + unfold release_done. repeat case_match; simpl; done.
    + intros p Hinv Hp. apply release_done_resolves.
      * apply signal_inv_emit; [done|].
        repeat case_match; simpl; repeat signal_step.
      * repeat case_match; simpl; done.
  - destruct (final resp =? 1); unfold release_done;
      repeat case_match; simpl; done.
  - destruct (final resp =? 1); unfold release_done;
      repeat case_match; simpl; done.
Qed.

Lemma zero_status_event_dispatch_witness :
  code final_response = 0 /\
  let s := running_recognizer in
  let resp := final_response in
  let s' := handleMessage (TextData (ParseOk resp)) s in
  let completion :=
    if final resp =? 1
    then Listener (onRecognitionComplete resp) :: released s
    else [] in
  (result resp ≫= slice_type = Some 0 ->
   trace s' = (trace s ++ Listener (onSentenceBegin resp) :: completion)%list)
  /\
  (result resp ≫= slice_type = Some 1 ->
   trace s'
   = (trace s ++ Listener (onRecognitionResultChange resp) :: completion)%list)
  /\
  (result resp ≫= slice_type = Some 2 ->
   trace s' = (trace s ++ Listener (onSentenceEnd resp) :: completion)%list)
  /\
  (result resp ≫= slice_type = None -> final resp <> 1 ->
   trace s' = (trace s ++ [Listener (onRecognitionStart resp)])%list) /\
  (result resp ≫= slice_type = None -> final resp = 1 ->
   trace s' = (trace s ++ completion)%list) /\
  (final resp = 1 ->
   doneResolve s' = None /\
   forall p, signal_inv s -> donePromise s = Some p ->
             resolved p s' = true) /\
  state s' = state s /\ ws s' = ws s.
Proof.
  split; [reflexivity|].
  apply (zero_status_event_dispatch running_recognizer final_response).
  reflexivity.
Defined.

Lemma trace_close s :
  trace (close s)
  = (trace s ++ match ws s with Some w => [WsClose w] | None => [] end)%list.
Proof.
  unfold close. destruct (ws s); simpl; [done | by rewrite app_nil_r].
Qed.

(** C6, as the code has it.  A well-formed event with a non-zero status
    calls [onFail] with the event and an error made of the event's own
    status code and message (of the ServerError kind only when that code
    is 1007); then the socket at hand is closed and dropped and the
    completion signal is released.  That is all: the state of the session
    is left as it was and the message handler keeps no record of the
    failure, so a frame delivered afterwards is dispatched like any
    other. *)
Theorem fatal_event_fails_closes_and_releases s resp :
  code resp <> 0 ->
  let s' := handleMessage (TextData (ParseOk resp)) s in
  let error := ASRError.new (code resp) (message resp) in
  trace s'
  = (trace s ++ [Listener (onFail (Some resp) error)]
     ++ match ws s with Some w => [WsClose w] | None => [] end
     ++ released s)%list /\
  ASRError.code error = code resp /\
  ws s' = None /\
  doneResolve s' = None /\
  (forall p, signal_inv s -> donePromise s = Some p ->
             resolved p s' = true) /\
  state s' = state s /\
  (forall next,
      code next = 0 -> final next <> 1 ->
      result next ≫= slice_type = Some 1 ->
      trace (handleMessage (TextData (ParseOk next)) s')
      = (trace s' ++ [Listener (onRecognitionResultChange next)])%list).
Proof.
  intros Hcode%Z.eqb_neq s' error.
  assert (s' = release_done
                 (close (emit (Listener (onFail (Some resp) error)) s)))
    as Hs'.
  { unfold s', handleMessage. by rewrite Hcode. }
  clearbody s'. subst s'. split_and!.
  - rewrite trace_release_done, trace_close. simpl.
    rewrite <- !app_assoc. simpl.
    assert (released (close (emit (Listener (onFail (Some resp) error)) s))
            = released s) as ->; [|done].
    unfold released, close. simpl. by destruct (ws s).
  - done.
  - unfold release_done, close. repeat case_match; simpl in *; done.
  - unfold release_done, close. repeat case_match; simpl in *; done.
  - intros p Hinv Hp. apply release_done_resolves.
    + by apply signal_inv_close, signal_inv_emit.
    + unfold close. simpl. by destruct (ws s).
  - unfold release_done, close. repeat case_match; simpl in *; done.
  - intros next Hzero Hfinal%Z.eqb_neq Hslice.
    unfold handleMessage, dispatchEvent.
    by rewrite Hzero, Hfinal, Hslice.
Qed.

Lemma fatal_event_fails_closes_and_releases_witness :
  code fatal_response <> 0 /\
  let s := running_recognizer in
  let resp := fatal_response in
  let s' := handleMessage (TextData (ParseOk resp)) s in
  let error := ASRError.new (code resp) (message resp) in
  trace s'
  = (trace s ++ [Listener (onFail (Some resp) error)]
     ++ match ws s with Some w => [WsClose w] | None => [] end
     ++ released s)%list /\
  ASRError.code error = code resp /\
  ws s' = None /\
  doneResolve s' = None /\
  (forall p, signal_inv s -> donePromise s = Some p ->
             resolved p s' = true) /\
  state s' = state s /\
  (forall next,
      code next = 0 -> final next <> 1 ->
      result next ≫= slice_type = Some 1 ->
      trace (handleMessage (TextData (ParseOk next)) s')
      = (trace s' ++ [Listener (onRecognitionResultChange next)])%list).
Proof.
  split; [by vm_compute|].
  apply (fatal_event_fails_closes_and_releases running_recognizer
           fatal_response).
  by vm_compute.
Defined.

(** C6, as stated, fails on a running session that receives an event of
    status 1005 and then an interim result: the error handed to [onFail]
    has code 1005, which is [AUTH_FAILED] and not [SERVER_ERROR], and the
    interim result is still dispatched to [onRecognitionResultChange]. *)
Lemma fatal_event_is_not_server_error_nor_last :
  let s := handle (inbound interim_response)
             (handle (inbound fatal_response) running_recognizer) in
  let error :=
    {| ASRError.code := 1005;
       ASRError.message := "trtc-asr error [1005]: auth failed" |} in
  drop (length (trace running_recognizer)) (trace s)
  = [Inbound (inbound fatal_response);
     Listener (onFail (Some fatal_response) error);
     WsClose 0; DoneResolve 0;
     Inbound (inbound interim_response);
     Listener (onRecognitionResultChange interim_response)] /\
  ASRError.code error = ErrorCode.AUTH_FAILED /\
  ASRError.code error <> ErrorCode.SERVER_ERROR /\
  state s = RUNNING.
Proof. split_and!; by vm_compute. Qed.
End dispatch.

(** ** write and stop *)

Section lifecycle.
Import SpeechRecognizer.
Implicit Types (s : SpeechRecognizer.t) (c : Credential.t)
  (o : SendOutcome) (evs : list (N * WsEvent)).

Lemma State_eqb_eq (a b : State) : State_eqb a b = true <-> a = b.
Proof. destruct a, b; by compute. Qed.

Lemma State_eqb_neq (a b : State) : State_eqb a b = false <-> a <> b.
Proof. destruct a, b; by compute. Qed.

(** Outside the Running state [write] is refused and does nothing. *)
Lemma write_not_running data o s :
  state s <> RUNNING ->
  write data o s
  = (s, {| at_ms := 0;
           rejection := Some (ASRError.new ErrorCode.NOT_STARTED
                                "recognizer not running") |}).
Proof.
  intros H%State_eqb_neq. unfold write. by rewrite H.
Qed.

Lemma stop_not_running o evs s :
  state s <> RUNNING ->
  stop o evs s
  = (s, {| at_ms := 0;
           rejection := Some (ASRError.new ErrorCode.NOT_STARTED
                                "recognizer not running") |}).
Proof.
  intros H%State_eqb_neq. unfold stop. by rewrite H.
Qed.

Lemma stop_running o evs s :
  state s = RUNNING -> state (stop o evs s).1 = STOPPED.
Proof.
  intros H. unfold stop. rewrite H. simpl.
  destruct (ws s); [|done].
  destruct (deliver_before _ _ _) as [s2 later].
  destruct (rejection _); [done|].
  destruct (donePromise s2); [|done].
  by destruct (await_done _ _ _ _ _).
Qed.

(** A stopped session stays stopped: every call is refused and no
    handler but that of [open], which a socket runs once and before
    anything else, writes the state. *)
Lemma stopped_step c s a :
  state s = STOPPED -> a <> Transport EvOpen ->
  state (step (c, s) a).2 = STOPPED.
Proof.
  intros H Ha. destruct a as [env|data o|o evs|ev|sig]; simpl.
  - unfold start. by rewrite H.
  - rewrite write_not_running; [done | by rewrite H].
  - rewrite stop_not_running; [done | by rewrite H].
  - unfold handle, on_open, on_error, on_close, handleMessage,
      dispatchEvent, release_done, close.
    destruct ev as [|msg|data|]; [done|..]; simpl; rewrite ?H; simpl;
      repeat case_match; simpl; done.
  - done.
Qed.

Lemma stopped_run c s acts :
  state s = STOPPED -> Forall (fun a => a <> Transport EvOpen) acts ->
  state (run acts (c, s)).2 = STOPPED.
Proof.
  revert c s. induction acts as [|a acts IH]; intros c s H Hacts; [done|].
  apply Forall_cons in Hacts as [Ha Hacts].
  change (run (a :: acts) (c, s)) with (run acts (step (c, s) a)).
  pose proof (stopped_step c s a H Ha) as H'.
  destruct (step (c, s) a) as [c' s']. by apply IH.
Qed.

(** C2, as the code has it.  [write] on a session that is not Running,
    so before [start] and after [stop], is rejected with NOT_STARTED and
    sends nothing.  [stop] on a Running session leaves it Stopped, whether
    it resolves or rejects; [stop] on a session that is not Running is
    rejected with NOT_STARTED and leaves the state as it was, Stopped or
    not.  Either way a [write] after [stop] is rejected with NOT_STARTED
    and sends nothing, and once Stopped the session stays so. *)
Theorem write_and_stop_guards c s data o o' evs :
  let not_started :=
    {| at_ms := 0;
       rejection := Some (ASRError.new ErrorCode.NOT_STARTED
                            "recognizer not running") |} in
  (state s <> RUNNING -> write data o s = (s, not_started)) /\
  (state s = RUNNING -> state (stop o evs s).1 = STOPPED) /\
  (state s <> RUNNING -> stop o evs s = (s, not_started)) /\
  write data o' (stop o evs s).1 = ((stop o evs s).1, not_started) /\
  ASRError.code (ASRError.new ErrorCode.NOT_STARTED "recognizer not running")
  = ErrorCode.NOT_STARTED /\
  (state s = RUNNING ->
   forall acts, Forall (fun a => a <> Transport EvOpen) acts ->
     state (run acts (c, (stop o evs s).1)).2 = STOPPED).
Proof.
  intros not_started. split_and!.
  - apply write_not_running.
  - apply stop_running.
  - apply stop_not_running.
  - apply write_not_running.
    destruct (State_eqb (state s) RUNNING) eqn:H.
    + apply State_eqb_eq in H. by rewrite (stop_running o evs s H).
    + apply State_eqb_neq in H. by rewrite (stop_not_running o evs s H).
  - done.
  - intros H acts Hacts. apply stopped_run; [|done]. by apply stop_running.
Qed.

(** C2, as stated, fails: [stop] called on a session that was never
    started rejects with NOT_STARTED and leaves it Idle, not Stopped. *)
Lemma stop_before_start_leaves_idle :
  state (stop NoAck [] sample_recognizer).1 = IDLE /\
  (exists e, rejection (stop NoAck [] sample_recognizer).2 = Some e /\
             ASRError.code e = ErrorCode.NOT_STARTED) /\
  state (stop NoAck [] sample_recognizer).1 <> STOPPED.
Proof.
  split_and!; [by vm_compute | | by vm_compute].
  eexists. split; by vm_compute.
Qed.

(** *** How long [stop] takes *)

Lemma setTimeout_delay_bounds (ms : Z) :
  1 <= setTimeout_delay ms <= 2147483647.
Proof.
  unfold setTimeout_delay.
  destruct (ms <? 1) eqn:H1, (2147483647 <? ms) eqn:H2; simpl; lia.
Qed.

Lemma settle_send_bounds (timeout : Z) o (m1 m2 : string) :
  0 <= at_ms (settle_send timeout o m1 m2) <= setTimeout_delay timeout.
Proof.
  pose proof (setTimeout_delay_bounds timeout).
  unfold settle_send. destruct o as [after err|]; simpl; [|lia].
  destruct (Z.of_N after <? setTimeout_delay timeout) eqn:Hlt; simpl; lia.
Qed.



End lifecycle.

(** ** The token of the credential *)

Section token.
Import SpeechRecognizer.
Implicit Types (s : SpeechRecognizer.t) (c : Credential.t)
  (env : StartEnv) (f : Effect -> bool).

(** With a token on the credential, [connect] leaves the credential
    alone and adds nothing to the history but the socket it makes: it
    does not call the token provider. *)
Lemma connect_with_token env c s f :
  Credential.userSig c <> "" ->
  (forall w url headers, f (WsNew w url headers) = false) ->
  (connect env c s).1.1 = c /\
  count f (connect env c s).1.2 = count f s.
Proof.
  intros Hsig%truthy_str_true Hf. unfold connect. rewrite Hsig.
  repeat case_match; simpl; split; try done; count_steps;
    rewrite ?Hf; lia.
Qed.

(** Without one, it calls the provider once, with the application id, the
    secret, the subject and a validity of 86400 s, and stores what it
    returns. *)
Lemma connect_without_token env c s :
  Credential.userSig c = "" ->
  match genUserSig (api_genSig env) (Credential.sdkAppId c)
          (Credential.secretKey c) (subject env s) 86400 with
  | Returns sig =>
      (connect env c s).1.1 = Credential.setUserSig sig c /\
      count is_derivation (connect env c s).1.2
      = S (count is_derivation s)
  | Throws err =>
      connect env c s
      = (c,
         with_state IDLE
           (emit (GenUserSig (Credential.sdkAppId c) (subject env s) 86400
                    (Throws err))
              (if truthy_str (voiceId s) then s
               else with_voiceId (uuidv4 env) s)),
         Rejected (ASRError.new ErrorCode.AUTH_FAILED
                     ("generate user sig failed: " +:+ err)))
  end.
Proof.
  intros Hsig. unfold connect, subject. rewrite Hsig. simpl.
  destruct (truthy_str (voiceId s)) eqn:Hv; simpl;
    destruct (genUserSig _ _ _ _ _) as [sig|err]; simpl; try done;
    repeat case_match; simpl; split; try done; count_steps; lia.
Qed.

Lemma start_keeps_identity env c s :
  Credential.appId (start env c s).1.1 = Credential.appId c /\
  Credential.sdkAppId (start env c s).1.1 = Credential.sdkAppId c /\
  Credential.secretKey (start env c s).1.1 = Credential.secretKey c.
Proof.
  unfold start, connect.
  repeat case_match; simplify_eq; simpl; done.
Qed.

Lemma start_with_token env c s f :
  Credential.userSig c <> "" ->
  (forall w url headers, f (WsNew w url headers) = false) ->
  (start env c s).1.1 = c /\ count f (start env c s).1.2 = count f s.
Proof.
  intros Hsig Hf. unfold start. destruct (negb _); [done|].
  destruct (connect_with_token env c (with_state STARTING s) f Hsig Hf)
    as [Hc Hn].
  destruct (connect env c (with_state STARTING s)) as [[c1 s1] []];
    simpl in *; done.
Qed.

(** A [start] on an Idle session that finds no token derives one. *)
Lemma start_caches_token env c s sig :
  state s = IDLE -> Credential.userSig c = "" ->
  genUserSig (api_genSig env) (Credential.sdkAppId c)
    (Credential.secretKey c) (subject env s) 86400 = Returns sig ->
  (start env c s).1.1 = Credential.setUserSig sig c /\
  count is_derivation (start env c s).1.2 = S (count is_derivation s).
Proof.
  intros Hidle Hsig Hgen. unfold start. rewrite Hidle. simpl.
  pose proof (connect_without_token env c (with_state STARTING s) Hsig)
    as Hc.
  change (subject env (with_state STARTING s)) with (subject env s) in Hc.
  rewrite Hgen in Hc. destruct Hc as [Hc Hn].
  destruct (connect env c (with_state STARTING s)) as [[c1 s1] []];
    simpl in *; done.
Qed.

(** Every [start] either leaves the credential and the count of derived
    tokens as they were, or found no token and derived one. *)
Lemma start_derives env c s :
  ((start env c s).1.1 = c /\
   count is_derivation (start env c s).1.2 = count is_derivation s) \/
  (Credential.userSig c = "" /\
   exists sig,
     genUserSig (api_genSig env) (Credential.sdkAppId c)
       (Credential.secretKey c) (subject env s) 86400 = Returns sig /\
     (start env c s).1.1 = Credential.setUserSig sig c /\
     count is_derivation (start env c s).1.2
     = S (count is_derivation s)).
Proof.
  destruct (truthy_str (Credential.userSig c)) eqn:Hsig.
  { left. apply start_with_token; [by apply truthy_str_true | done]. }
  assert (Credential.userSig c = "") as Hempty.
  { by destruct (Credential.userSig c). }
  destruct (State_eqb (state s) IDLE) eqn:Hidle.
  - apply State_eqb_eq in Hidle.
    destruct (genUserSig (api_genSig env) (Credential.sdkAppId c)
                (Credential.secretKey c) (subject env s) 86400)
      as [sig|err] eqn:Hgen.
    + right. split; [done|]. exists sig. split; [done|].
      by apply start_caches_token.
    + left. unfold start. rewrite Hidle. simpl.
      pose proof (connect_without_token env c (with_state STARTING s)
                    Hempty) as Hc.
      change (subject env (with_state STARTING s)) with (subject env s)
        in Hc.
      rewrite Hgen in Hc. rewrite Hc. simpl. split; [done|].
      count_steps. destruct (truthy_str (voiceId s)); count_steps; lia.
  - left. unfold start. by rewrite Hidle.
Qed.

Lemma tally_cons f s (ss : list SpeechRecognizer.t) :
  tally f (s :: ss) = (count f s + tally f ss)%nat.
Proof. reflexivity. Qed.

(** Starts that find a token: the credential stays and the provider is
    not called. *)
Lemma start_all_with_token c f
    (starts : list (StartEnv * SpeechRecognizer.t)) :
  Credential.userSig c <> "" ->
  (forall w url headers, f (WsNew w url headers) = false) ->
  (start_all c starts).1 = c /\
  tally f (start_all c starts).2 = tally f (starts.*2).
Proof.
  intros Hsig Hf. induction starts as [|[env s] starts IH]; [done|].
  destruct (start_with_token env c s f Hsig Hf) as [Hc Hn].
  simpl. destruct (start env c s) as [[c1 s1] r]. simpl in *. subst c1.
  destruct IH as [IHc IHn].
  destruct (start_all c starts) as [c2 ss]. simpl in *. subst c2.
  split; [done|]. rewrite !tally_cons.
  change (tally f (list_fmap _ _ snd starts)) with (tally f (starts.*2)).
  lia.
Qed.

Lemma start_all_derives c (starts : list (StartEnv * SpeechRecognizer.t)) :
  Forall (fun es => forall a k u e, api_genSig es.1 a k u e <> Returns "")
    starts ->
  Credential.secretKey (start_all c starts).1 = Credential.secretKey c /\
  (tally is_derivation (start_all c starts).2
   <= tally is_derivation (starts.*2) + 1)%nat.
Proof.
  revert c. induction starts as [|[env s] starts IH]; intros c Hne.
  { simpl. split; [done | compute; lia]. }
  apply Forall_cons in Hne as [Henv Hne]. simpl in Henv.
  pose proof (start_keeps_identity env c s) as (_ & _ & Hkey).
  pose proof (start_derives env c s) as Hstart.
  pose proof (fun c1 Hsig =>
                start_all_with_token c1 is_derivation starts Hsig
                  (fun _ _ _ => eq_refl)) as Hsame.
  simpl. destruct (start env c s) as [[c1 s1] r]. simpl in *.
  destruct (IH c1 Hne) as (IHkey & IHle). specialize (Hsame c1).
  destruct (start_all c1 starts) as [c2 ss]. simpl in *.
  rewrite !tally_cons.
  change (tally is_derivation (list_fmap _ _ snd starts))
    with (tally is_derivation (starts.*2)) in *.
  split; [by rewrite IHkey|].
  destruct Hstart as [[-> Hn] | (Hempty & sig & Hgen & -> & Hn)]; [lia|].
  assert (Credential.userSig (Credential.setUserSig sig c) <> "") as Hsig.
  { simpl. intros ->. unfold genUserSig in Hgen. by apply Henv in Hgen. }
  destruct (Hsame Hsig) as [_ Hd]. lia.
Qed.

(** The socket made by a [start] that finds a token carries that token,
    in the [signature] field of the query and in the [X-TRTC-UserSig]
    header. *)
Lemma start_uses_token env c s :
  state s = IDLE -> Credential.userSig c <> "" ->
  WebSocket_throws env = None ->
  exists qs,
    trace (start env c s).1.2
    = (trace s
       ++ [WsNew (attempts s)
             (endpoint s +:+ "/asr/v2/" +:+ String_of (Credential.appId c)
              +:+ "?" +:+ qs)
             [("X-TRTC-SdkAppId", String_of (Credential.sdkAppId c));
              ("X-TRTC-UserSig", Credential.userSig c)]])%list /\
    forall v, ("signature", v) ∈ query_pairs qs
              <-> v = encodeURIComponent (Credential.userSig c).
Proof.
  intros Hidle Hsig%truthy_str_true Hws.
  unfold start, connect. rewrite Hidle, Hsig, Hws. simpl.
  destruct (truthy_str (voiceId s)); simpl;
    (eexists; split; [reflexivity|]);
    intros v; unfold SignatureParams.buildQueryStringWithSignature;
    (rewrite elem_of_query_pairs;
       [|apply signed_nonempty|intros k; apply signed_plain]);
    rewrite lookup_insert_eq;
    (split; [by intros (x & [= <-] & ->) | eauto]).
Qed.

(** C9.  Sessions that share a credential are started one after the
    other, with a token provider that never returns the empty string.
    The secret key of the credential is never changed, and over all the
    starts at most one token is derived.  A [start] on an Idle session
    that finds the credential without a token derives one and stores it
    on the credential; from then on, and whenever the credential has a
    token, a [start] leaves the credential as it is, does not call the
    provider, and opens its socket with the token it found. *)
Theorem token_derived_at_most_once c
    (starts : list (StartEnv * SpeechRecognizer.t)) :
  Forall (fun es => forall a k u e, api_genSig es.1 a k u e <> Returns "")
    starts ->
  Credential.secretKey (start_all c starts).1 = Credential.secretKey c /\
  (tally is_derivation (start_all c starts).2
   <= tally is_derivation (starts.*2) + 1)%nat /\
  (Credential.userSig c <> "" ->
   (start_all c starts).1 = c /\
   tally is_provider_call (start_all c starts).2
   = tally is_provider_call (starts.*2)) /\
  (forall env s sig,
      state s = IDLE -> Credential.userSig c = "" ->
      genUserSig (api_genSig env) (Credential.sdkAppId c)
        (Credential.secretKey c) (subject env s) 86400 = Returns sig ->
      Credential.userSig (start env c s).1.1 = sig /\
      Credential.secretKey (start env c s).1.1 = Credential.secretKey c) /\
  (forall env s,
      state s = IDLE -> Credential.userSig c <> "" ->
      WebSocket_throws env = None ->
      exists qs,
        trace (start env c s).1.2
        = (trace s
           ++ [WsNew (attempts s)
                 (endpoint s +:+ "/asr/v2/"
                  +:+ String_of (Credential.appId c) +:+ "?" +:+ qs)
                 [("X-TRTC-SdkAppId", String_of (Credential.sdkAppId c));
                  ("X-TRTC-UserSig", Credential.userSig c)]])%list /\
        forall v, ("signature", v) ∈ query_pairs qs
                  <-> v = encodeURIComponent (Credential.userSig c)).
Proof.
  intros Hne. destruct (start_all_derives c starts Hne) as (Hk & Hle).
  split_and!; try done.
  - intros Hsig. by apply start_all_with_token.
  - intros env s sig Hidle Hempty Hgen.
    by destruct (start_caches_token env c s sig Hidle Hempty Hgen)
      as [-> _].
  - intros env s. apply start_uses_token.
Qed.

Lemma token_derived_at_most_once_witness :
  let c := sample_credential in
  let starts :=
    [(sample_env, sample_recognizer);
     (sample_env, setVoiceId "second-session" sample_recognizer)] in
  Forall (fun es => forall a k u e, api_genSig es.1 a k u e <> Returns "")
    starts /\
  Credential.secretKey (start_all c starts).1 = Credential.secretKey c /\
  (tally is_derivation (start_all c starts).2
   <= tally is_derivation (starts.*2) + 1)%nat /\
  (start_all c starts).1
  = Credential.setUserSig "sig-0b0e2a5e-6d0f-4f43-9a5c-3d1f0c9f7a11" c.
Proof.
  intros c starts.
  assert (Forall (fun es => forall a k u e,
                      api_genSig es.1 a k u e <> Returns "") starts) as H.
  { repeat constructor; simpl; discriminate. }
  destruct (token_derived_at_most_once c starts H) as (Hkey & Hle & _).
  split_and!; [exact H | exact Hkey | exact Hle | reflexivity].
Defined.

(** The rejection a [start] can return while the session is Idle is
    never ALREADY_STARTED. *)
Lemma start_idle_not_already_started env c s e :
  state s = IDLE -> (start env c s).2 = Some e ->
  ASRError.code e <> ErrorCode.ALREADY_STARTED.
Proof.
  intros Hidle. unfold start. rewrite Hidle. simpl.
  destruct (connect env c (with_state STARTING s)) as [[c1 s1] r] eqn:Hc.
  destruct r as [e'|err|]; simpl; intros [= <-]; [|done].
  unfold connect in Hc. repeat case_match; simplify_eq; done.
Qed.

(** C10.  When the token provider throws during [start] on an Idle
    session whose credential has no token, [start] rejects with
    AUTH_FAILED, which is not CONNECT_FAILED; the session is Idle again,
    no socket was made and the credential is as it was; and the next
    [start], whatever it meets, is not rejected with ALREADY_STARTED. *)
Theorem start_auth_failure_returns_to_idle env c s err :
  state s = IDLE ->
  Credential.userSig c = "" ->
  genUserSig (api_genSig env) (Credential.sdkAppId c)
    (Credential.secretKey c) (subject env s) 86400 = Throws err ->
  let c' := (start env c s).1.1 in
  let s' := (start env c s).1.2 in
  (start env c s).2
  = Some (ASRError.new ErrorCode.AUTH_FAILED
            ("generate user sig failed: " +:+ err)) /\
  ErrorCode.AUTH_FAILED <> ErrorCode.CONNECT_FAILED /\
  state s' = IDLE /\
  ws s' = ws s /\
  c' = c /\
  (forall env' e, (start env' c' s').2 = Some e ->
                  ASRError.code e <> ErrorCode.ALREADY_STARTED).
Proof.
  intros Hidle Hempty Hgen c' s'.
  assert (start env c s
          = (c,
             with_state IDLE
               (emit (GenUserSig (Credential.sdkAppId c) (subject env s)
                        86400 (Throws err))
                  (if truthy_str (voiceId s) then with_state STARTING s
                   else with_voiceId (uuidv4 env)
                          (with_state STARTING s))),
             Some (ASRError.new ErrorCode.AUTH_FAILED
                     ("generate user sig failed: " +:+ err)))) as Hstart.
  { unfold start. rewrite Hidle. simpl.
    pose proof (connect_without_token env c (with_state STARTING s)
                  Hempty) as Hc.
    change (subject env (with_state STARTING s)) with (subject env s) in Hc.
    rewrite Hgen in Hc. by rewrite Hc. }
  unfold c', s'. rewrite Hstart. simpl. split_and!; try done.
  - by destruct (truthy_str (voiceId s)).
  - intros env' e. by apply start_idle_not_already_started.
Qed.

Lemma start_auth_failure_returns_to_idle_witness :
  let env := failing_env in
  let c := sample_credential in
  let s := sample_recognizer in
  let err := "Error: invalid secret key" in
  state s = IDLE /\
  Credential.userSig c = "" /\
  genUserSig (api_genSig env) (Credential.sdkAppId c)
    (Credential.secretKey c) (subject env s) 86400 = Throws err /\
  let c' := (start env c s).1.1 in
  let s' := (start env c s).1.2 in
  (start env c s).2
  = Some (ASRError.new ErrorCode.AUTH_FAILED
            ("generate user sig failed: " +:+ err)) /\
  ErrorCode.AUTH_FAILED <> ErrorCode.CONNECT_FAILED /\
  state s' = IDLE /\
  ws s' = ws s /\
  c' = c /\
  (forall env' e, (start env' c' s').2 = Some e ->
                  ASRError.code e <> ErrorCode.ALREADY_STARTED).
Proof.
  intros env c s err.
  split; [reflexivity|]. split; [reflexivity|]. split; [reflexivity|].
  apply (start_auth_failure_returns_to_idle env c s err); reflexivity.
Defined.
End token.

(** ** Scenarios *)

Section scenarios.
Import SpeechRecognizer.

(** The parameters of the specification's scenario give the query string
    of the repository's test, keys sorted and no [hotword_id]. *)
Example scenario_query_string :
  SignatureParams.buildQueryString sample_params
  = "convert_num_mode=1&engine_model_type=16k_zh&expired=1700086400"
    +:+ "&needvad=1&nonce=42&secretid=1300403317&timestamp=1700000000"
    +:+ "&voice_format=1&voice_id=test-voice-001" /\
  "hotword_id" ∉ query_keys (SignatureParams.buildQueryString sample_params).
Proof.
  split; [by vm_compute|].
  apply (bool_decide_unpack _). by vm_compute.
Qed.

(** A signature is escaped and sorted among the keys. *)
Example scenario_signed_query_string :
  SignatureParams.buildQueryStringWithSignature sample_params "a b/c=+&"
  = "convert_num_mode=1&engine_model_type=16k_zh&expired=1700086400"
    +:+ "&needvad=1&nonce=42&secretid=1300403317"
    +:+ "&signature=a%20b%2Fc%3D%2B%26&timestamp=1700000000"
    +:+ "&voice_format=1&voice_id=test-voice-001".
Proof. by vm_compute. Qed.

(** A started session whose socket opens: one socket, one pending
    promise, the token stored on the credential. *)
Example scenario_start :
  state running_recognizer = RUNNING /\
  ws running_recognizer = Some 0%nat /\
  doneResolve running_recognizer = Some 0%nat /\
  Credential.userSig
    (run [Start sample_env; Transport EvOpen]
       (sample_credential, sample_recognizer)).1
  = "sig-0b0e2a5e-6d0f-4f43-9a5c-3d1f0c9f7a11".
Proof. split_and!; by vm_compute. Qed.

(** A write of 6400 bytes on a running session with the default timeout
    and a transport that acknowledges after 3 ms resolves after 3 ms and
    sends one binary frame. *)
Example scenario_write :
  let data := replicate (64 * 100) Byte.x00 in
  (write data (Acked 3 None) running_recognizer).2
  = {| at_ms := 3; rejection := None |} /\
  trace (write data (Acked 3 None) running_recognizer).1
  = (trace running_recognizer ++ [WsSend 0 (BinaryFrame data)])%list.
Proof. split; reflexivity. Qed.

(** [stop] on a running session: the end-of-stream frame is acknowledged
    after 3 ms, the final event comes after 40 ms and the closure after 45
    ms; [stop] resolves at 40 ms with the session Stopped.  The closure
    that follows finds the state past Stopping and reports nothing. *)
Example scenario_stop :
  let stopped :=
    stop (Acked 3 None) [(40%N, inbound final_response); (45%N, EvClose)]
      running_recognizer in
  stopped.2 = {| at_ms := 40; rejection := None |} /\
  state stopped.1 = STOPPED /\
  drop (length (trace running_recognizer)) (trace stopped.1)
  = [WsSend 0 (TextFrame endMsg);
     Inbound (inbound final_response);
     Listener (onRecognitionComplete final_response);
     DoneResolve 0; WsClose 0] /\
  trace (handle EvClose stopped.1)
  = (trace stopped.1 ++ [Inbound EvClose])%list.
Proof. split_and!; by vm_compute. Qed.

(** A closure nobody asked for: [onFail] with no event and READ_FAILED,
    and the completion signal is released. *)
Example scenario_unexpected_close :
  drop (length (trace running_recognizer))
    (trace (handle EvClose running_recognizer))
  = [Inbound EvClose;
     Listener (onFail None
                 (ASRError.new ErrorCode.READ_FAILED
                    "websocket connection closed unexpectedly"));
     DoneResolve 0].
Proof. by vm_compute. Qed.
End scenarios.

(** * More of the session *)

(** ** start *)

Section start_more.
Import SpeechRecognizer.
Implicit Types (s : SpeechRecognizer.t) (c : Credential.t)
  (env : StartEnv).

(** What a [start] on an Idle session leaves, by the way it ends. *)
Lemma start_idle_shape env c s :
  state s = IDLE ->
  match (start env c s).2 with
  | None =>
      WebSocket_throws env = None /\
      state (start env c s).1.2 = STARTING /\
      ws (start env c s).1.2 = Some (attempts s) /\
      doneResolve (start env c s).1.2 = Some (attempts s) /\
      donePromise (start env c s).1.2 = Some (attempts s) /\
      attempts (start env c s).1.2 = S (attempts s) /\
      voiceId (start env c s).1.2 = subject env s
  | Some e =>
      state (start env c s).1.2 = IDLE /\
      ws (start env c s).1.2 = ws s /\
      voiceId (start env c s).1.2 = subject env s /\
      ((ASRError.code e = ErrorCode.AUTH_FAILED /\
        Credential.userSig c = "" /\
        (start env c s).1.1 = c /\
        attempts (start env c s).1.2 = attempts s) \/
       (ASRError.code e = ErrorCode.CONNECT_FAILED /\
        WebSocket_throws env <> None))
  end.
Proof.
  intros Hidle. unfold start, connect, subject. rewrite Hidle. simpl.
  destruct (truthy_str (Credential.userSig c)) eqn:Hsig;
    destruct (truthy_str (voiceId s)) eqn:Hv; simpl;
    try destruct (genUserSig _ _ _ _ _) as [sig|err]; simpl;
    try destruct (WebSocket_throws env) eqn:Hws; simpl;
    rewrite ?Hv; simpl; split_and?; try done;
    try (right; by split);
    try (left; split_and!; try done; by destruct (Credential.userSig c)).
Qed.

Lemma start_not_idle env c s :
  state s <> IDLE ->
  start env c s
  = (c, s, Some (ASRError.new ErrorCode.ALREADY_STARTED
                   "recognizer already started")).
Proof. intros H%State_eqb_neq. unfold start. by rewrite H. Qed.

(** X1.  A session is started once: while a [start] is pending, and after
    its socket has opened, another [start] is rejected with
    ALREADY_STARTED and changes neither the session nor the credential: no
    token is derived and no socket is made. *)
Theorem second_start_is_rejected env env' c s :
  state s = IDLE ->
  (start env c s).2 = None ->
  let c1 := (start env c s).1.1 in
  let s1 := (start env c s).1.2 in
  let already :=
    Some (ASRError.new ErrorCode.ALREADY_STARTED
            "recognizer already started") in
  state s1 = STARTING /\
  start env' c1 s1 = (c1, s1, already) /\
  state (handle EvOpen s1) = RUNNING /\
  start env' c1 (handle EvOpen s1) = (c1, handle EvOpen s1, already).
Proof.
  intros Hidle Hpending c1 s1 already.
  pose proof (start_idle_shape env c s Hidle) as Hshape.
  rewrite Hpending in Hshape. destruct Hshape as (_ & Hstate & _).
  fold s1 in Hstate. split_and!.
  - done.
  - apply start_not_idle. by rewrite Hstate.
  - done.
  - by apply start_not_idle.
Qed.

Lemma second_start_is_rejected_witness :
  state sample_recognizer = IDLE /\
  (start sample_env sample_credential sample_recognizer).2 = None /\
  let c1 := (start sample_env sample_credential sample_recognizer).1.1 in
  let s1 := (start sample_env sample_credential sample_recognizer).1.2 in
  let already :=
    Some (ASRError.new ErrorCode.ALREADY_STARTED
            "recognizer already started") in
  state s1 = STARTING /\
  start failing_env c1 s1 = (c1, s1, already) /\
  state (handle EvOpen s1) = RUNNING /\
  start failing_env c1 (handle EvOpen s1) = (c1, handle EvOpen s1, already).
Proof.
  split; [reflexivity|]. split; [by vm_compute|].
  apply (second_start_is_rejected sample_env failing_env sample_credential
           sample_recognizer); [reflexivity | by vm_compute].
Defined.

(** X2.  A [start] on an Idle session ends in one of three ways.  Pending:
    the socket was made, the session is Starting and holds the new socket
    and a fresh completion promise.  Rejected with AUTH_FAILED: the token
    provider threw; the credential is unchanged.  Rejected with
    CONNECT_FAILED: the socket could not be made.  After either rejection
    the session is Idle again with the socket handle it had, so [start]
    can be called again; [start] itself never makes a session Running. *)
Theorem start_on_idle_session env c s :
  state s = IDLE ->
  match (start env c s).2 with
  | None =>
      WebSocket_throws env = None /\
      state (start env c s).1.2 = STARTING /\
      ws (start env c s).1.2 = Some (attempts s) /\
      doneResolve (start env c s).1.2 = Some (attempts s) /\
      donePromise (start env c s).1.2 = Some (attempts s) /\
      attempts (start env c s).1.2 = S (attempts s) /\
      voiceId (start env c s).1.2 = subject env s
  | Some e =>
      state (start env c s).1.2 = IDLE /\
      ws (start env c s).1.2 = ws s /\
      voiceId (start env c s).1.2 = subject env s /\
      ((ASRError.code e = ErrorCode.AUTH_FAILED /\
        Credential.userSig c = "" /\
        (start env c s).1.1 = c /\
        attempts (start env c s).1.2 = attempts s) \/
       (ASRError.code e = ErrorCode.CONNECT_FAILED /\
        WebSocket_throws env <> None))
  end.
Proof. apply start_idle_shape. Qed.

Lemma start_on_idle_session_witness :
  state sample_recognizer = IDLE /\
  state (start sample_env sample_credential sample_recognizer).1.2
  = STARTING /\
  ws (start sample_env sample_credential sample_recognizer).1.2
  = Some 0%nat.
Proof.
  split; [reflexivity|].
  pose proof (start_on_idle_session sample_env sample_credential
                sample_recognizer eq_refl) as H.
  change ((start sample_env sample_credential sample_recognizer).2)
    with (@None ASRError.t) in H.
  destruct H as (_ & Hstate & Hws & _). split; [exact Hstate | exact Hws].
Defined.
End start_more.

(** ** The handlers of the socket *)

Section handlers_more.
Import SpeechRecognizer.
Implicit Types (s : SpeechRecognizer.t) (c : Credential.t)
  (env : StartEnv) (resp : SpeechRecognitionResponse).

(** X3.  A socket error while a [start] is pending rejects it with
    CONNECT_FAILED and returns the session to Idle, and the session can be
    started again: with a token at hand and a socket that can be made, the
    new [start] is pending on a socket of its own.  A socket error in any
    other state calls no callback and changes nothing. *)
Theorem connection_error_allows_retry env env' c s msg :
  state s = IDLE ->
  (start env c s).2 = None ->
  let c1 := (start env c s).1.1 in
  let s1 := (start env c s).1.2 in
  let s2 := handle (EvError msg) s1 in
  trace s2
  = (trace s1
     ++ [Inbound (EvError msg);
         StartReject (ASRError.new ErrorCode.CONNECT_FAILED
                        ("websocket connect failed: " +:+ msg))])%list /\
  state s2 = IDLE /\
  (WebSocket_throws env' = None -> Credential.userSig c1 <> "" ->
   (start env' c1 s2).2 = None /\
   state (start env' c1 s2).1.2 = STARTING /\
   ws (start env' c1 s2).1.2 = Some (S (attempts s))) /\
  (forall s', state s' <> STARTING ->
              handle (EvError msg) s' = emit (Inbound (EvError msg)) s').
Proof.
  intros Hidle Hpending c1 s1 s2.
  pose proof (start_idle_shape env c s Hidle) as Hshape.
  rewrite Hpending in Hshape.
  destruct Hshape as (_ & Hstate & _ & _ & _ & Hatt & _).
  fold s1 in Hstate, Hatt.
  assert (s2 = emit (StartReject (ASRError.new ErrorCode.CONNECT_FAILED
                                    ("websocket connect failed: " +:+ msg)))
                 (with_state IDLE (emit (Inbound (EvError msg)) s1))) as Hs2.
  { unfold s2, handle, on_error. simpl. by rewrite Hstate. }
  split_and!.
  - rewrite Hs2. simpl. by rewrite <- app_assoc.
  - by rewrite Hs2.
  - intros Hws Hsig.
    assert (state s2 = IDLE) as Hidle2 by (by rewrite Hs2).
    pose proof (start_idle_shape env' c1 s2 Hidle2) as Hshape.
    destruct ((start env' c1 s2).2) as [e|].
    + destruct Hshape as (_ & _ & _ & [(_ & Hempty & _) | (_ & Hthrows)]);
        done.
    + destruct Hshape as (_ & Hst & Hw & _). split_and!; [done | done |].
      rewrite Hw, Hs2. simpl. by rewrite Hatt.
  - intros s' Hs'%State_eqb_neq. unfold handle, on_error. simpl.
    by rewrite Hs'.
Qed.

Lemma connection_error_allows_retry_witness :
  state sample_recognizer = IDLE /\
  (start sample_env sample_credential sample_recognizer).2 = None /\
  let c1 := (start sample_env sample_credential sample_recognizer).1.1 in
  let s1 := (start sample_env sample_credential sample_recognizer).1.2 in
  let s2 := handle (EvError "ECONNREFUSED") s1 in
  state s2 = IDLE /\
  WebSocket_throws sample_env = None /\ Credential.userSig c1 <> "" /\
  ws (start sample_env c1 s2).1.2 = Some 1%nat.
Proof.
  split; [reflexivity|]. split; [by vm_compute|].
  destruct (connection_error_allows_retry sample_env sample_env
              sample_credential sample_recognizer "ECONNREFUSED"
              eq_refl eq_refl) as (_ & Hidle & Hretry & _).
  assert (Credential.userSig
            (start sample_env sample_credential sample_recognizer).1.1
          <> "") as Hsig by (by vm_compute).
  destruct (Hretry eq_refl Hsig) as (_ & _ & Hws).
  split_and!; [exact Hidle | reflexivity | exact Hsig | exact Hws].
Defined.

(** What the message handler leaves alone, whatever the frame. *)
Lemma handleMessage_frame data s :
  state (handleMessage data s) = state s /\
  attempts (handleMessage data s) = attempts s /\
  voiceId (handleMessage data s) = voiceId s /\
  writeTimeout (handleMessage data s) = writeTimeout s /\
  donePromise (handleMessage data s) = donePromise s.
Proof.
  unfold handleMessage, dispatchEvent, release_done, close.
  repeat case_match; simpl; done.
Qed.

(** X4.  A fatal event leaves the session Running without a socket.  A
    [write] is then rejected with NOT_STARTED and sends nothing; [stop] is
    rejected with NOT_STARTED too, at once and without sending the
    end-of-stream frame, and leaves the session Stopped. *)
Theorem after_fatal_event_write_and_stop_are_refused s resp data o evs :
  state s = RUNNING ->
  code resp <> 0 ->
  let s1 := handle (inbound resp) s in
  let no_connection :=
    {| at_ms := 0;
       rejection := Some (ASRError.new ErrorCode.NOT_STARTED
                            "connection not established") |} in
  state s1 = RUNNING /\
  ws s1 = None /\
  write data o s1 = (s1, no_connection) /\
  (stop o evs s1).2 = no_connection /\
  state (stop o evs s1).1 = STOPPED /\
  trace (stop o evs s1).1 = trace s1.
Proof.
  intros Hrun Hcode%Z.eqb_neq s1 no_connection.
  assert (state s1 = RUNNING) as Hstate.
  { unfold s1, handle, inbound.
    destruct (handleMessage_frame (TextData (ParseOk resp))
                (emit (Inbound (EvMessage (TextData (ParseOk resp)))) s))
      as (-> & _). done. }
  assert (ws s1 = None) as Hws.
  { unfold s1, handle, inbound, handleMessage, release_done, close.
    rewrite Hcode. repeat case_match; simpl in *; done. }
  split_and!; try done.
  - unfold write. by rewrite Hstate, Hws.
  - unfold stop. rewrite Hstate. simpl. by rewrite Hws.
  - unfold stop. rewrite Hstate. simpl. by rewrite Hws.
  - unfold stop. rewrite Hstate. simpl. by rewrite Hws.
Qed.

Lemma after_fatal_event_write_and_stop_are_refused_witness :
  state running_recognizer = RUNNING /\
  code fatal_response <> 0 /\
  let s1 := handle (inbound fatal_response) running_recognizer in
  ws s1 = None /\
  state (stop NoAck [] s1).1 = STOPPED /\
  trace (stop NoAck [] s1).1 = trace s1.
Proof.
  split; [by vm_compute|]. split; [by vm_compute|].
  assert (state running_recognizer = RUNNING) as Hrun by (by vm_compute).
  assert (code fatal_response <> 0) as Hcode by (by vm_compute).
  destruct (after_fatal_event_write_and_stop_are_refused
              running_recognizer fatal_response [] NoAck [] Hrun Hcode)
    as (_ & Hws & _ & _ & Hstop & Htrace).
  split_and!; [exact Hws | exact Hstop | exact Htrace].
Defined.


Lemma handle_close_shape s :
  state (handle EvClose s) = state s /\
  ws (handle EvClose s) = ws s /\
  doneResolve (handle EvClose s) = None /\
  trace (handle EvClose s)
  = (trace s ++ [Inbound EvClose]
     ++ (if State_value (state s) <? State_value STOPPING
         then [read_failed_on_close] else [])
     ++ released s)%list.
Proof.
  assert (handle EvClose s
          = release_done
              (if State_value (state s) <? State_value STOPPING
               then emit read_failed_on_close (emit (Inbound EvClose) s)
               else emit (Inbound EvClose) s)) as -> by done.
  split_and!.
  - unfold release_done. repeat case_match; simpl in *; done.
  - unfold release_done. repeat case_match; simpl in *; done.
  - unfold release_done. repeat case_match; simpl in *; done.
  - rewrite trace_release_done. unfold released.
    destruct (State_value (state s) <? State_value STOPPING); simpl;
      rewrite <- !app_assoc; done.
Qed.

(** X6.  The closing of the socket never changes the state nor the socket
    handle of the session.  It is reported to the listener, as [onFail]
    with no event and READ_FAILED, exactly when the state is before
    Stopping; then the completion signal is released.  So a session that
    was Running stays Running with its stale socket handle, on which a
    [write] is still sent; and since a fatal event leaves the state as it
    is, the closing that follows one is reported as a second failure. *)
Theorem closing_is_reported_before_stopping s :
  let s1 := handle EvClose s in
  state s1 = state s /\
  ws s1 = ws s /\
  doneResolve s1 = None /\
  trace s1
  = (trace s ++ [Inbound EvClose]
     ++ (if State_value (state s) <? State_value STOPPING
         then [read_failed_on_close] else [])
     ++ released s)%list /\
  (forall w data o,
      state s = RUNNING -> ws s = Some w ->
      trace (write data o s1).1
      = (trace s1 ++ [WsSend w (BinaryFrame data)])%list) /\
  (forall resp,
      State_value (state s) < State_value STOPPING -> code resp <> 0 ->
      trace (handle EvClose (handle (inbound resp) s))
      = (trace (handle (inbound resp) s)
         ++ [Inbound EvClose; read_failed_on_close])%list).
Proof.
  intros s1. destruct (handle_close_shape s) as (Hstate & Hws & Hres & Ht).
  split_and!; try done.
  - intros w data o Hrun Hw. unfold write.
    fold s1 in Hstate, Hws. by rewrite Hstate, Hrun, Hws, Hw.
  - intros resp Hlt%Z.ltb_lt Hcode.
    set (s2 := handle (inbound resp) s).
    assert (state s2 = state s) as Hstate2.
    { unfold s2, handle, inbound.
      by destruct (handleMessage_frame (TextData (ParseOk resp))
                     (emit (Inbound (EvMessage (TextData (ParseOk resp)))) s))
        as (-> & _). }
    assert (doneResolve s2 = None) as Hres2.
    { apply Z.eqb_neq in Hcode.
      unfold s2, handle, inbound, handleMessage, release_done, close.
      rewrite Hcode. repeat case_match; simpl in *; done. }
    destruct (handle_close_shape s2) as (_ & _ & _ & ->).
    unfold released. rewrite Hstate2, Hlt, Hres2. done.
Qed.
End handlers_more.

(** ** The sockets of a session *)

Section sockets.
Import SpeechRecognizer.
Implicit Types (s : SpeechRecognizer.t) (c : Credential.t) (w : nat)
  (e : Effect) (f : Effect -> bool).

Lemma count_zero_not_elem f s e :
  count f s = 0%nat -> e ∈ trace s -> f e = false.
Proof.
  unfold count. intros Hzero Hin.
  destruct (f e) eqn:He; [|done].
  assert (e ∈ filter (fun e => f e = true) (trace s)) as Hf.
  { by apply list_elem_of_filter. }
  destruct (filter _ (trace s)); [by apply elem_of_nil in Hf | done].
Qed.

Lemma sends_precede_close_snoc (tr : list Effect) e :
  sends_precede_close tr ->
  (forall w frame, e = WsSend w frame -> WsClose w ∉ tr) ->
  sends_precede_close (tr ++ [e]).
Proof.
  intros Htr He l1 l2 w frame Heq Hin.
  destruct l2 as [|e' l2 _] using rev_ind; [by apply elem_of_nil in Hin|].
  rewrite app_comm_cons, app_assoc in Heq.
  apply app_inj_tail in Heq as [-> <-].
  apply elem_of_app in Hin as [Hin | Hin%list_elem_of_singleton].
  - by apply (Htr l1 l2 w frame).
  - apply (He w frame (eq_sym Hin)). apply elem_of_app. right. by left.
Qed.

Lemma socket_inv_same s s' :
  trace s' = trace s -> ws s' = ws s -> attempts s' = attempts s ->
  socket_inv s -> socket_inv s'.
Proof.
  intros Ht Hw Ha. unfold socket_inv, count. by rewrite Ht, Hw, Ha.
Qed.

(** An effect that is about no socket. *)
Lemma socket_inv_emit e s :
  (forall w, is_ws_new w e = false /\ is_ws_send w e = false
             /\ is_ws_close w e = false) ->
  socket_inv s -> socket_inv (emit e s).
Proof.
  intros He (Hnew & Hclose & Hfresh & Hmade & Hws & Hord).
  unfold socket_inv. setoid_rewrite SpeechRecognizer_count_emit.
  assert (forall w, is_ws_new w e = false) as He1 by (intros w; apply He).
  assert (forall w, is_ws_send w e = false) as He2 by (intros w; apply He).
  assert (forall w, is_ws_close w e = false) as He3 by (intros w; apply He).
  setoid_rewrite He1. setoid_rewrite He2. setoid_rewrite He3.
  setoid_rewrite Nat.add_0_r. split_and!; try done.
  apply sends_precede_close_snoc; [done|].
  intros w frame ->. specialize (He2 w). simpl in He2.
  by rewrite Nat.eqb_refl in He2.
Qed.

(** A frame goes to the socket at hand. *)
Lemma socket_inv_send w frame s :
  ws s = Some w -> socket_inv s -> socket_inv (emit (WsSend w frame) s).
Proof.
  intros Hw (Hnew & Hclose & Hfresh & Hmade & Hws & Hord).
  destruct (Hws w Hw) as [Hw1 Hw0].
  unfold socket_inv. setoid_rewrite SpeechRecognizer_count_emit. simpl.
  setoid_rewrite Nat.add_0_r. split_and!; try done.
  - intros w' Hzero. destruct (Hmade w' Hzero) as [Hs Hc].
    split; [|done]. destruct (Nat.eqb_spec w' w) as [-> | _]; lia.
  - apply sends_precede_close_snoc; [done|].
    intros w' frame' [= <- _] Hin.
    pose proof (count_zero_not_elem (is_ws_close w) s (WsClose w) Hw0 Hin)
      as Hc.
    simpl in Hc. by rewrite Nat.eqb_refl in Hc.
Qed.

(** [close]: the socket at hand is closed and dropped. *)
Lemma socket_inv_close s : socket_inv s -> socket_inv (close s).
Proof.
  intros Hinv. unfold close. destruct (ws s) as [w|] eqn:Hw; [|done].
  destruct Hinv as (Hnew & Hclose & Hfresh & Hmade & Hws & Hord).
  destruct (Hws w Hw) as [Hw1 Hw0].
  unfold socket_inv.
  change (trace (with_ws None (emit (WsClose w) s)))
    with (trace s ++ [WsClose w])%list.
  assert (forall f, count f (with_ws None (emit (WsClose w) s))
                    = (count f s + if f (WsClose w) then 1 else 0)%nat)
    as Hcount.
  { intros f. apply (SpeechRecognizer_count_emit f (WsClose w) s). }
  setoid_rewrite Hcount. simpl. setoid_rewrite Nat.add_0_r.
  split_and!; try done.
  - intros w'. destruct (Nat.eqb_spec w' w) as [-> | _];
      [lia | specialize (Hclose w'); lia].
  - intros w' Hzero. destruct (Hmade w' Hzero) as [Hs Hc].
    split; [done|]. destruct (Nat.eqb_spec w' w) as [-> | _]; lia.
  - by apply sends_precede_close_snoc.
Qed.

(** [connect] makes the next socket and keeps it. *)
Lemma socket_inv_open url headers s :
  socket_inv s ->
  socket_inv (with_ws (Some (attempts s))
                (emit (WsNew (attempts s) url headers) (new_donePromise s))).
Proof.
  intros (Hnew & Hclose & Hfresh & Hmade & Hws & Hord).
  unfold socket_inv.
  assert (forall f, count f (with_ws (Some (attempts s))
                               (emit (WsNew (attempts s) url headers)
                                  (new_donePromise s)))
                    = (count f s
                       + if f (WsNew (attempts s) url headers)
                         then 1 else 0)%nat) as Hcount.
  { intros f. apply (SpeechRecognizer_count_emit f _ (new_donePromise s)). }
  setoid_rewrite Hcount. simpl. setoid_rewrite Nat.add_0_r.
  pose proof (Hfresh (attempts s) (le_n _)) as Hzero.
  split_and!.
  - intros w. destruct (Nat.eqb_spec w (attempts s)) as [-> | _];
      [lia | specialize (Hnew w); lia].
  - done.
  - intros w Hw. destruct (Nat.eqb_spec w (attempts s)) as [-> | _];
      [lia|]. rewrite Hfresh; lia.
  - intros w Hw. apply Hmade.
    destruct (Nat.eqb_spec w (attempts s)); lia.
  - intros w [= <-]. rewrite Nat.eqb_refl, Hzero.
    split; [done|]. by apply Hmade.
  - by apply sends_precede_close_snoc.
Qed.

Lemma socket_inv_open_at n url headers s :
  attempts s = n -> socket_inv s ->
  socket_inv (with_ws (Some n)
                (emit (WsNew n url headers) (new_donePromise s))).
Proof. intros <-. apply socket_inv_open. Qed.

Lemma socket_inv_new_donePromise s :
  socket_inv s -> socket_inv (new_donePromise s).
Proof.
  intros (Hnew & Hclose & Hfresh & Hmade & Hws & Hord).
  unfold socket_inv, new_donePromise, count; simpl. split_and!; try done.
  intros w Hw. apply Hfresh. lia.
Qed.

Lemma socket_inv_release_done s :
  socket_inv s -> socket_inv (release_done s).
Proof.
  intros H. unfold release_done. destruct (doneResolve s) as [p|]; [|done].
  apply (socket_inv_same (emit (DoneResolve p) s)); [done..|].
  by apply socket_inv_emit.
Qed.

Lemma socket_inv_with_state st s :
  socket_inv s -> socket_inv (with_state st s).
Proof. by apply socket_inv_same. Qed.

Lemma socket_inv_with_voiceId id s :
  socket_inv s -> socket_inv (with_voiceId id s).
Proof. by apply socket_inv_same. Qed.

Lemma socket_inv_pristine s : pristine s -> socket_inv s.
Proof.
  intros (_ & Hws & _ & _ & _ & Htrace).
  unfold socket_inv, count. rewrite Hws, Htrace. simpl.
  split_and!; try done; try (intros; lia).
  intros l1 l2 w frame Heq. by destruct l1.
Qed.
End sockets.

(** One step of an invariance proof for the sockets. *)
Ltac socket_step :=
  first
    [ assumption
    | apply socket_inv_release_done
    | apply socket_inv_close
    | apply socket_inv_open_at; [reflexivity|]
    | apply socket_inv_new_donePromise
    | apply socket_inv_with_state
    | apply socket_inv_with_voiceId
    | apply socket_inv_send; [by simpl|]
    | apply socket_inv_emit; [by intros ?|] ].

Section sockets_run.
Import SpeechRecognizer.
Implicit Types (s : SpeechRecognizer.t) (c : Credential.t) (w : nat).

Lemma socket_inv_handle ev s : socket_inv s -> socket_inv (handle ev s).
Proof.
  intros H.
  unfold handle, on_open, on_error, on_close, handleMessage, dispatchEvent.
  repeat case_match; repeat socket_step.
Qed.

Lemma socket_inv_connect env c s :
  socket_inv s -> socket_inv (connect env c s).1.2.
Proof.
  intros H. unfold connect.
  repeat case_match; simplify_eq; simpl; repeat socket_step;
    repeat case_match; repeat socket_step.
Qed.

Lemma socket_inv_start env c s :
  socket_inv s -> socket_inv (start env c s).1.2.
Proof.
  intros H. unfold start. destruct (negb _); [done|].
  pose proof (socket_inv_connect env c (with_state STARTING s)
                (socket_inv_with_state _ _ H)) as Hc.
  destruct (connect env c (with_state STARTING s)) as [[c' s'] []];
    simpl in *; repeat socket_step.
Qed.

Lemma socket_inv_write data o s :
  socket_inv s -> socket_inv (write data o s).1.
Proof.
  intros H. unfold write. repeat case_match; simpl; repeat socket_step.
Qed.

Lemma socket_inv_deliver_before limit evs s :
  socket_inv s -> socket_inv (deliver_before limit evs s).1.
Proof.
  revert s. induction evs as [|[a ev] evs IH]; intros s H; simpl; [done|].
  destruct (Z.of_N a <? limit); [|done]. by apply IH, socket_inv_handle.
Qed.

Lemma socket_inv_await_done p deadline now evs s :
  socket_inv s -> socket_inv (await_done p deadline now evs s).1.
Proof.
  revert now s. induction evs as [|[a ev] evs IH]; intros now s H; simpl.
  - by destruct (resolved p s).
  - destruct (resolved p s); [done|].
    destruct (Z.of_N a <? deadline); [|done].
    by apply IH, socket_inv_handle.
Qed.

Lemma socket_inv_stop o evs s :
  socket_inv s -> socket_inv (stop o evs s).1.
Proof.
  intros H. unfold stop. destruct (negb _); [done|].
  destruct (ws (with_state STOPPING s)) as [w|] eqn:Hw;
    [|by repeat socket_step].
  set (s1 := emit _ _).
  assert (socket_inv s1) as H1.
  { unfold s1. apply socket_inv_send; [done|]. by apply socket_inv_with_state. }
  set (sent := settle_send _ _ _ _).
  pose proof (socket_inv_deliver_before (at_ms sent) evs s1 H1) as H2.
  destruct (deliver_before _ evs s1) as [s2 later]. simpl in H2.
  destruct (rejection sent); [simpl; by repeat socket_step|].
  destruct (donePromise s2) as [p|]; [|simpl; by repeat socket_step].
  pose proof (socket_inv_await_done p (at_ms sent + 10000) (at_ms sent)
                later s2 H2) as H3.
  destruct (await_done _ _ _ later s2) as [s3 finished].
  simpl in *. by repeat socket_step.
Qed.

Lemma socket_inv_run acts (world : Credential.t * SpeechRecognizer.t) :
  socket_inv world.2 -> socket_inv (run acts world).2.
Proof.
  revert world. induction acts as [|a acts IH]; intros [c s] H; [done|].
  apply IH. destruct a; simpl in *.
  - apply (socket_inv_start env c) in H.
    by destruct (start env c s) as [[c' s'] r].
  - by apply socket_inv_write.
  - by apply socket_inv_stop.
  - by apply socket_inv_handle.
  - done.
Qed.

(** X7.  Whatever is called on a session and whatever its socket
    delivers, the session makes each socket once and closes it at most
    once, sends frames and closings only to sockets it has made, never
    sends a frame on a socket after closing it, and the socket it holds is
    one it has made and not closed. *)
Theorem sockets_are_used_in_order c s acts :
  pristine s ->
  let s' := (run acts (c, s)).2 in
  (forall w, (count (is_ws_new w) s' <= 1)%nat) /\
  (forall w, (count (is_ws_close w) s' <= 1)%nat) /\
  (forall w, count (is_ws_new w) s' = 0%nat ->
             count (is_ws_send w) s' = 0%nat /\
             count (is_ws_close w) s' = 0%nat) /\
  (forall w, ws s' = Some w ->
             count (is_ws_new w) s' = 1%nat /\
             count (is_ws_close w) s' = 0%nat) /\
  (forall l1 l2 w frame,
      trace s' = (l1 ++ WsClose w :: l2)%list -> WsSend w frame ∉ l2).
Proof.
  intros Hs s'.
  pose proof (socket_inv_run acts (c, s) (socket_inv_pristine s Hs))
    as (Hnew & Hclose & _ & Hmade & Hws & Hord).
  split_and!; done.
Qed.

Lemma sockets_are_used_in_order_witness :
  pristine sample_recognizer /\
  let s' := (run [Start sample_env; Transport EvOpen;
                  Write [Byte.x01] (Acked 2 None);
                  Transport (inbound fatal_response);
                  Write [Byte.x02] (Acked 2 None);
                  Stop NoAck []; Transport EvClose]
               (sample_credential, sample_recognizer)).2 in
  count (is_ws_new 0) s' = 1%nat /\
  (count (is_ws_close 0) s' <= 1)%nat /\
  (forall l1 l2 w frame,
      trace s' = (l1 ++ WsClose w :: l2)%list -> WsSend w frame ∉ l2).
Proof.
  split; [repeat split; reflexivity|].
  intros s'.
  assert (pristine sample_recognizer) as H by (repeat split; reflexivity).
  destruct (sockets_are_used_in_order sample_credential sample_recognizer
              [Start sample_env; Transport EvOpen;
               Write [Byte.x01] (Acked 2 None);
               Transport (inbound fatal_response);
               Write [Byte.x02] (Acked 2 None);
               Stop NoAck []; Transport EvClose] H)
    as (_ & Hclose & _ & _ & Hord).
  split_and!; [by vm_compute | apply Hclose | exact Hord].
Defined.
End sockets_run.

(** ** write *)

Section write_more.
Import SpeechRecognizer.
Implicit Types (s : SpeechRecognizer.t) (w : nat) (o : SendOutcome)
  (f : Effect -> bool).

Lemma settle_send_acknowledged (timeout : Z) o (m1 m2 : string) :
  rejection (settle_send timeout o m1 m2) = None <-> acknowledged timeout o.
Proof.
  unfold settle_send, acknowledged. destruct o as [after [err|]|]; simpl.
  - destruct (Z.of_N after <? _); simpl; split; try done;
      by intros (a & [= _ ?] & _).
  - destruct (Z.of_N after <? _) eqn:Hlt; simpl; split; try done.
    + intros _. exists after. split; [done|]. by apply Z.ltb_lt.
    + intros (a & [= <-] & Ha%Z.ltb_lt). by rewrite Ha in Hlt.
  - split; [done|]. by intros (a & ? & _).
Qed.

Lemma settle_send_code (timeout : Z) o (m1 m2 : string) e :
  rejection (settle_send timeout o m1 m2) = Some e ->
  ASRError.code e = ErrorCode.WRITE_FAILED.
Proof.
  unfold settle_send. destruct o as [after [err|]|]; simpl;
    try destruct (Z.of_N after <? _); simpl; by intros [= <-].
Qed.

Lemma write_running s w data o :
  state s = RUNNING -> ws s = Some w ->
  write data o s
  = (emit (WsSend w (BinaryFrame data)) s,
     settle_send (writeTimeout s) o "write timeout"
       "write audio data failed: ").
Proof. intros Hrun Hw. unfold write. by rewrite Hrun, Hw. Qed.

(** X8.  A [write] on a Running session that holds a socket sends the
    chunk as one binary frame on that socket and changes nothing else:
    the session stays Running whether the write succeeds or fails.  It
    settles within the write timeout; it resolves exactly when the frame
    is acknowledged without error before the timer fires, and otherwise
    rejects with WRITE_FAILED. *)
Theorem write_on_running_session s w data o :
  state s = RUNNING -> ws s = Some w ->
  (write data o s).1 = emit (WsSend w (BinaryFrame data)) s /\
  state (write data o s).1 = RUNNING /\
  0 <= at_ms (write data o s).2 <= setTimeout_delay (writeTimeout s) /\
  (rejection (write data o s).2 = None
   <-> acknowledged (writeTimeout s) o) /\
  (forall e, rejection (write data o s).2 = Some e ->
             ASRError.code e = ErrorCode.WRITE_FAILED).
Proof.
  intros Hrun Hw. rewrite (write_running s w data o Hrun Hw). simpl.
  split_and!.
  - done.
  - done.
  - apply settle_send_bounds.
  - apply settle_send_bounds.
  - apply settle_send_acknowledged.
  - intros e. apply settle_send_code.
Qed.

Lemma write_on_running_session_witness :
  state running_recognizer = RUNNING /\
  ws running_recognizer = Some 0%nat /\
  (write [Byte.x01] (Acked 7 None) running_recognizer).1
  = emit (WsSend 0 (BinaryFrame [Byte.x01])) running_recognizer /\
  (rejection (write [Byte.x01] (Acked 7 None) running_recognizer).2 = None
   <-> acknowledged (writeTimeout running_recognizer) (Acked 7 None)).
Proof.
  split; [by vm_compute|]. split; [by vm_compute|].
  assert (state running_recognizer = RUNNING) as Hrun by (by vm_compute).
  assert (ws running_recognizer = Some 0%nat) as Hw by (by vm_compute).
  destruct (write_on_running_session running_recognizer 0 [Byte.x01]
              (Acked 7 None) Hrun Hw) as (H1 & _ & _ & H2 & _).
  split; [exact H1 | exact H2].
Defined.


End write_more.

(** ** stop *)

Section stop_more.
Import SpeechRecognizer.
Implicit Types (s : SpeechRecognizer.t) (p w : nat) (o : SendOutcome)
  (f : Effect -> bool).

(** What no handler of the socket changes. *)
Lemma handle_frame ev s :
  attempts (handle ev s) = attempts s /\
  voiceId (handle ev s) = voiceId s /\
  writeTimeout (handle ev s) = writeTimeout s /\
  donePromise (handle ev s) = donePromise s.
Proof.
  unfold handle, on_open, on_error, on_close, handleMessage, dispatchEvent,
    release_done, close.
  destruct ev as [|msg|[[err|resp]|]|]; simpl; repeat case_match; simpl; done.
Qed.

Lemma count_handle f ev s :
  not_of_handlers f -> count f (handle ev s) = count f s.
Proof.
  intros (Hin & Hl & Hc & Hd & Hs & Hr).
  unfold handle, on_open, on_error, on_close, handleMessage, dispatchEvent.
  destruct ev as [|msg|[[err|resp]|]|]; simpl;
    repeat case_match; count_steps;
    rewrite ?Hin, ?Hl, ?Hc, ?Hd, ?Hs, ?Hr; repeat case_match;
    try lia;
    match goal with
    | H : f (WsClose _) = true |- _ => by rewrite Hc in H
    | H : f (DoneResolve _) = true |- _ => by rewrite Hd in H
    end.
Qed.

Lemma trace_emit_prefix e s : trace s `prefix_of` trace (emit e s).
Proof. by exists [e]. Qed.

Lemma trace_release_done_prefix s : trace s `prefix_of` trace (release_done s).
Proof. rewrite trace_release_done. by eexists. Qed.

Lemma trace_close_prefix s : trace s `prefix_of` trace (close s).
Proof. unfold close. case_match; [by exists [WsClose n] | done]. Qed.

Lemma trace_handle_prefix ev s : trace s `prefix_of` trace (handle ev s).
Proof.
  unfold handle, on_open, on_error, on_close, handleMessage, dispatchEvent,
    release_done, close.
  destruct ev as [|msg|[[err|resp]|]|]; simpl; repeat case_match; simpl;
    rewrite <- ?app_assoc; by eexists.
Qed.

Lemma resolved_prefix p s s' :
  trace s `prefix_of` trace s' -> resolved p s = true -> resolved p s' = true.
Proof.
  intros [l Hl]. unfold resolved. rewrite Hl, existsb_app.
  by intros ->.
Qed.

Lemma held_or_closed_handle w ev s :
  held_or_closed w s -> held_or_closed w (handle ev s).
Proof.
  intros [Hw | [Hnone Hin]].
  - unfold held_or_closed, handle, on_open, on_error, on_close, handleMessage,
      dispatchEvent, release_done, close.
    destruct ev as [|msg|[[err|resp]|]|]; simpl; repeat case_match;
      simpl in *; simplify_eq; try (by left);
      right; (split; [done|]);
      rewrite ?elem_of_app, ?list_elem_of_singleton; tauto.
  - right. split.
    + unfold handle, on_open, on_error, on_close, handleMessage,
        dispatchEvent, release_done, close.
      destruct ev as [|msg|[[err|resp]|]|]; simpl; repeat case_match;
        simpl in *; simplify_eq; done.
    + destruct (trace_handle_prefix ev s) as [l ->].
      apply elem_of_app. by left.
Qed.

Lemma held_or_closed_close w s :
  held_or_closed w s ->
  ws (close s) = None /\ WsClose w ∈ trace (close s).
Proof.
  unfold close. intros [Hw | [Hnone Hin]].
  - rewrite Hw. simpl. split; [done|].
    apply elem_of_app. right. by apply list_elem_of_singleton.
  - by rewrite Hnone.
Qed.

(** What the handlers that run while [stop] is suspended leave alone. *)
Lemma deliver_before_frame limit evs s :
  let s' := (deliver_before limit evs s).1 in
  donePromise s' = donePromise s /\
  trace s `prefix_of` trace s' /\
  (forall f, not_of_handlers f -> count f s' = count f s) /\
  (forall w, held_or_closed w s -> held_or_closed w s').
Proof.
  revert s. induction evs as [|[a ev] evs IH]; intros s; simpl; [done|].
  destruct (Z.of_N a <? limit); [|done].
  destruct (IH (handle ev s)) as (Hp & Ht & Hc & Hw).
  destruct (handle_frame ev s) as (_ & _ & _ & Hp').
  split_and!.
  - by rewrite Hp.
  - etrans; [apply (trace_handle_prefix ev)|done].
  - intros f Hf. rewrite (Hc f Hf). by apply count_handle.
  - intros w Hheld. by apply Hw, held_or_closed_handle.
Qed.

Lemma await_done_frame p deadline now evs s :
  let s' := (await_done p deadline now evs s).1 in
  trace s `prefix_of` trace s' /\
  (forall f, not_of_handlers f -> count f s' = count f s) /\
  (forall w, held_or_closed w s -> held_or_closed w s').
Proof.
  revert now s. induction evs as [|[a ev] evs IH]; intros now s; simpl.
  - by destruct (resolved p s).
  - destruct (resolved p s); [done|].
    destruct (Z.of_N a <? deadline); [|done].
    destruct (IH (Z.max now (Z.of_N a)) (handle ev s)) as (Ht & Hc & Hw).
    split_and!.
    + etrans; [apply (trace_handle_prefix ev)|done].
    + intros f Hf. rewrite (Hc f Hf). by apply count_handle.
    + intros w Hheld. by apply Hw, held_or_closed_handle.
Qed.

Lemma is_send_not_of_handlers : not_of_handlers is_send.
Proof. by split_and!. Qed.

(** X10.  [stop] on a Running session that holds a socket sends the
    end-of-stream text frame first, and sends nothing else.  It resolves
    exactly when that frame is acknowledged without error before the write
    timer fires; otherwise it rejects with WRITE_FAILED, within the write
    timeout.  Either way the socket is closed and dropped, whatever
    reaches the handlers in the meantime. *)
Theorem stop_on_running_session s w o evs :
  state s = RUNNING -> ws s = Some w ->
  let r := stop o evs s in
  (exists rest,
      trace r.1 = (trace s ++ WsSend w (TextFrame endMsg) :: rest)%list) /\
  count is_send r.1 = S (count is_send s) /\
  (rejection r.2 = None <-> acknowledged (writeTimeout s) o) /\
  (forall e, rejection r.2 = Some e ->
             ASRError.code e = ErrorCode.WRITE_FAILED /\
             at_ms r.2 <= setTimeout_delay (writeTimeout s)) /\
  ws r.1 = None /\
  WsClose w ∈ trace r.1.
Proof.
  intros Hrun Hw. unfold stop. rewrite Hrun. simpl. rewrite Hw.
  set (s1 := emit (WsSend w (TextFrame endMsg)) (with_state STOPPING s)).
  change (writeTimeout s1) with (writeTimeout s).
  set (sent := settle_send (writeTimeout s) o _ _).
  pose proof (settle_send_acknowledged (writeTimeout s) o
                "send end signal timeout" "send end signal failed: ")
    as Hack.
  pose proof (settle_send_code (writeTimeout s) o
                "send end signal timeout" "send end signal failed: ")
    as Hcode.
  pose proof (settle_send_bounds (writeTimeout s) o
                "send end signal timeout" "send end signal failed: ")
    as Hbound.
  fold sent in Hack, Hcode, Hbound.
  assert (held_or_closed w s1) as Hheld1 by (by left).
  assert (count is_send s1 = S (count is_send s)) as Hsend1.
  { unfold s1. count_steps. lia. }
  assert (trace s1 = (trace s ++ [WsSend w (TextFrame endMsg)])%list)
    as Htrace1 by done.
  destruct (deliver_before_frame (at_ms sent) evs s1)
    as (_ & [l2 Ht2] & Hc2 & Hw2).
  destruct (deliver_before (at_ms sent) evs s1) as [s2 later].
  simpl in Ht2, Hc2, Hw2.
  assert (forall s3,
             trace s2 `prefix_of` trace s3 ->
             count is_send s3 = count is_send s2 ->
             held_or_closed w s3 ->
             (exists rest,
                 trace (with_state STOPPED (close s3))
                 = (trace s ++ WsSend w (TextFrame endMsg) :: rest)%list) /\
             count is_send (with_state STOPPED (close s3))
             = S (count is_send s) /\
             ws (with_state STOPPED (close s3)) = None /\
             WsClose w ∈ trace (with_state STOPPED (close s3))) as Hend.
  { intros s3 [l3 Ht3] Hc3 Hw3.
    destruct (held_or_closed_close w s3 Hw3) as [Hnone Hin].
    split_and!; [|
      |exact Hnone|exact Hin].
    - destruct (trace_close_prefix s3) as [l4 Ht4].
      exists (l2 ++ l3 ++ l4)%list.
      change (trace (with_state STOPPED (close s3))) with (trace (close s3)).
      rewrite Ht4, Ht3, Ht2; rewrite ?Htrace1; by rewrite <- !app_assoc.
    - change (count is_send (with_state STOPPED (close s3)))
        with (count is_send (close s3)).
      rewrite SpeechRecognizer_count_close, Hc3,
        (Hc2 is_send is_send_not_of_handlers), Hsend1.
      destruct (ws s3); simpl; lia. }
  destruct (rejection sent) as [err|] eqn:Hrej.
  - destruct (Hend s2) as (H1 & H2 & H3 & H4);
      [done | done | by apply Hw2 |].
    simpl. split_and!; try done.
    + rewrite Hrej. exact Hack.
    + intros e He. rewrite Hrej in He. split; [by apply Hcode | apply Hbound].
  - destruct (donePromise s2) as [p|].
    + destruct (await_done_frame p (at_ms sent + 10000) (at_ms sent)
                  later s2) as (Ht3 & Hc3 & Hw3).
      destruct (await_done p _ _ later s2) as [s3 finished].
      simpl in Ht3, Hc3, Hw3.
      destruct (Hend s3) as (H1 & H2 & H3 & H4);
        [done | by apply Hc3, is_send_not_of_handlers
         | by apply Hw3, Hw2 |].
      simpl. split_and!; try done.
    + destruct (Hend s2) as (H1 & H2 & H3 & H4);
        [done | done | by apply Hw2 |].
      simpl. split_and!; try done.
Qed.

Lemma stop_on_running_session_witness :
  state running_recognizer = RUNNING /\
  ws running_recognizer = Some 0%nat /\
  let r := stop (Acked 12 None) [(40%N, EvClose)] running_recognizer in
  count is_send r.1 = S (count is_send running_recognizer) /\
  ws r.1 = None /\
  WsClose 0 ∈ trace r.1.
Proof.
  assert (state running_recognizer = RUNNING) as Hrun by (by vm_compute).
  assert (ws running_recognizer = Some 0%nat) as Hw by (by vm_compute).
  split; [exact Hrun|]. split; [exact Hw|].
  destruct (stop_on_running_session running_recognizer 0 (Acked 12 None)
              [(40%N, EvClose)] Hrun Hw) as (_ & Hsend & _ & _ & Hnone & Hin).
  split_and!; [exact Hsend | exact Hnone | exact Hin].
Defined.
End stop_more.

(** *** What [stop] waits for *)

Section stop_wait.
Import SpeechRecognizer.
Implicit Types (s : SpeechRecognizer.t) (p w : nat) (a t : N).

Lemma settle_send_acked (timeout : Z) a (m1 m2 : string) :
  Z.of_N a < setTimeout_delay timeout ->
  settle_send timeout (Acked a None) m1 m2
  = {| at_ms := Z.of_N a; rejection := None |}.
Proof. intros Ha%Z.ltb_lt. unfold settle_send. by rewrite Ha. Qed.

Lemma await_done_resolved p (deadline now : Z) evs s :
  resolved p s = true -> await_done p deadline now evs s = (s, now).
Proof. intros H. destruct evs; simpl; by rewrite H. Qed.

Lemma resolved_emit p e s :
  resolved p (emit e s) = resolved p s || is_release p e.
Proof. unfold resolved. simpl. rewrite existsb_app. simpl. by rewrite orb_false_r. Qed.

Lemma resolved_release_done p s :
  doneResolve s = Some p -> resolved p (release_done s) = true.
Proof.
  intros H. unfold release_done. rewrite H.
  change (resolved p (with_doneResolve None (emit (DoneResolve p) s)))
    with (resolved p (emit (DoneResolve p) s)).
  rewrite resolved_emit. simpl. rewrite Nat.eqb_refl. apply orb_true_r.
Qed.

(** The handler of a releasing event resolves the pending promise. *)
Lemma handle_releases ev s p :
  doneResolve s = Some p -> releases ev = true ->
  resolved p (handle ev s) = true.
Proof.
  intros Hp Hev. unfold handle.
  destruct ev as [|msg|[[err|resp]|]|]; simpl in Hev; try done.
  - unfold handleMessage.
    destruct (negb (code resp =? 0)) eqn:Hcode; simpl in Hev.
    + apply resolved_release_done. unfold close. by case_match.
    + rewrite Hev. apply resolved_release_done.
      unfold dispatchEvent. by repeat case_match.
  - unfold on_close. apply resolved_release_done. by case_match.
Qed.

(** X11.  On a Running session whose end-of-stream frame is acknowledged
    in time, [stop] resolves: at the acknowledgement when the completion
    signal was already released; 10000 ms after it when nothing reaches
    the handlers before; and, when the signal is pending, at the arrival
    of a final event, an event of non-zero status or the closing of the
    socket that comes first, less than 10000 ms after the
    acknowledgement.  Such a closing is not reported to [onFail]. *)
Theorem stop_waits_for_completion s w p a evs :
  state s = RUNNING -> ws s = Some w -> donePromise s = Some p ->
  Z.of_N a < setTimeout_delay (writeTimeout s) ->
  let resolves_at (ms : Z) := {| at_ms := ms; rejection := None |} in
  (resolved p s = true ->
   (stop (Acked a None) evs s).2 = resolves_at (Z.of_N a)) /\
  (resolved p s = false ->
   (forall t ev, head evs = Some (t, ev) -> Z.of_N a + 10000 <= Z.of_N t) ->
   (stop (Acked a None) evs s).2 = resolves_at (Z.of_N a + 10000)) /\
  (resolved p s = false -> doneResolve s = Some p ->
   forall t ev rest,
     evs = (t, ev) :: rest -> releases ev = true ->
     Z.of_N a <= Z.of_N t < Z.of_N a + 10000 ->
     (stop (Acked a None) evs s).2 = resolves_at (Z.of_N t) /\
     (ev = EvClose ->
      count is_fail (stop (Acked a None) evs s).1 = count is_fail s)).
Proof.
  intros Hrun Hw Hp Ha resolves_at.
  assert (forall evs, stop (Acked a None) evs s
          = let s1 := emit (WsSend w (TextFrame endMsg))
                        (with_state STOPPING s) in
            let '(s2, later) := deliver_before (Z.of_N a) evs s1 in
            let '(s3, finished) :=
              match donePromise s2 with
              | Some p => await_done p (Z.of_N a + 10000) (Z.of_N a) later s2
              | None => (s2, Z.of_N a)
              end in
            (with_state STOPPED (close s3), resolves_at finished)) as Hstop.
  { intros evs'. unfold stop. rewrite Hrun. simpl. rewrite Hw.
    unfold settle_send. simpl.
    apply Z.ltb_lt in Ha. rewrite Ha. simpl.
    by destruct (deliver_before _ _ _). }
  rewrite Hstop. clear Hstop. simpl.
  set (s1 := emit (WsSend w (TextFrame endMsg)) (with_state STOPPING s)).
  assert (resolved p s1 = resolved p s) as Hres1.
  { unfold s1. rewrite resolved_emit. simpl. apply orb_false_r. }
  split_and!.
  - intros Hres.
    destruct (deliver_before_frame (Z.of_N a) evs s1) as (Hp2 & Ht2 & _).
    destruct (deliver_before (Z.of_N a) evs s1) as [s2 later].
    simpl in Hp2, Ht2.
    change (donePromise s1) with (donePromise s) in Hp2.
    rewrite Hp2, Hp, await_done_resolved; [done|].
    apply (resolved_prefix p s1); [done | by rewrite Hres1].
  - intros Hres Hlate.
    assert (deliver_before (Z.of_N a) evs s1 = (s1, evs)) as ->.
    { destruct evs as [|[t ev] rest]; simpl; [done|].
      specialize (Hlate t ev eq_refl).
      destruct (Z.ltb_spec (Z.of_N t) (Z.of_N a)); [lia | done]. }
    change (donePromise s1) with (donePromise s). rewrite Hp.
    destruct evs as [|[t ev] rest]; simpl; rewrite Hres1, Hres; [done|].
    specialize (Hlate t ev eq_refl).
    destruct (Z.ltb_spec (Z.of_N t) (Z.of_N a + 10000)); [lia | done].
  - intros Hres Hpending t ev rest -> Hev Ht. simpl.
    destruct (Z.ltb_spec (Z.of_N t) (Z.of_N a)) as [|_]; [lia|].
    change (donePromise s1) with (donePromise s). rewrite Hp. simpl.
    rewrite Hres1, Hres.
    destruct (Z.ltb_spec (Z.of_N t) (Z.of_N a + 10000)) as [_|]; [|lia].
    rewrite await_done_resolved; [|by apply handle_releases].
    split.
    + unfold resolves_at, snd. f_equal. lia.
    + intros ->. unfold fst.
      change (count is_fail (with_state STOPPED (close (handle EvClose s1))))
        with (count is_fail (close (handle EvClose s1))).
      rewrite SpeechRecognizer_count_close.
      unfold count at 1.
      destruct (handle_close_shape s1) as (_ & _ & _ & ->).
      change (State_value (state s1) <? State_value STOPPING) with false.
      unfold released, s1, count.
      rewrite !filter_app, !length_app. simpl.
      repeat case_match; simpl; rewrite ?filter_app, ?length_app; simpl; lia.
Qed.

Lemma stop_waits_for_completion_witness :
  state running_recognizer = RUNNING /\
  ws running_recognizer = Some 0%nat /\
  donePromise running_recognizer = Some 0%nat /\
  Z.of_N 12 < setTimeout_delay (writeTimeout running_recognizer) /\
  resolved 0 running_recognizer = false /\
  doneResolve running_recognizer = Some 0%nat /\
  (stop (Acked 12 None) [(40%N, EvClose)] running_recognizer).2
  = {| at_ms := 40; rejection := None |} /\
  count is_fail (stop (Acked 12 None) [(40%N, EvClose)] running_recognizer).1
  = count is_fail running_recognizer.
Proof.
  assert (state running_recognizer = RUNNING) as Hrun by (by vm_compute).
  assert (ws running_recognizer = Some 0%nat) as Hw by (by vm_compute).
  assert (donePromise running_recognizer = Some 0%nat) as Hp
    by (by vm_compute).
  assert (Z.of_N 12 < setTimeout_delay (writeTimeout running_recognizer))
    as Ha by (by vm_compute).
  assert (resolved 0 running_recognizer = false) as Hres by (by vm_compute).
  assert (doneResolve running_recognizer = Some 0%nat) as Hpending
    by (by vm_compute).
  destruct (stop_waits_for_completion running_recognizer 0 0 12
              [(40%N, EvClose)] Hrun Hw Hp Ha) as (_ & _ & Hwait).
  destruct (Hwait Hres Hpending 40%N EvClose [] eq_refl eq_refl)
    as [Hat Hquiet]; [by vm_compute|].
  split_and!; try assumption.
  by apply Hquiet.
Defined.
End stop_wait.

(** ** The identity of a session *)

Section identity.
Import SpeechRecognizer.
Variables (a : Z) (id : string).
Implicit Types (s : SpeechRecognizer.t) (c : Credential.t) (env : StartEnv).












End identity.



(** ** A token set by the caller *)

Section preset_token.
Import SpeechRecognizer.
Implicit Types (s : SpeechRecognizer.t) (c : Credential.t)
  (f : Effect -> bool).

Lemma count_write f data o s :
  (forall w frame, f (WsSend w frame) = false) ->
  count f (write data o s).1 = count f s.
Proof.
  intros Hf. unfold write. repeat case_match; simpl; try done.
  count_steps. rewrite Hf. lia.
Qed.

Lemma count_stop f o evs s :
  not_of_handlers f ->
  (forall w frame, f (WsSend w frame) = false) ->
  count f (stop o evs s).1 = count f s.
Proof.
  intros Hh Hf. unfold stop. destruct (negb _); [done|].
  destruct (ws (with_state STOPPING s)) as [w|]; [|done].
  set (s1 := emit _ _).
  assert (count f s1 = count f s) as H1.
  { unfold s1. count_steps. rewrite Hf. lia. }
  assert (forall s3, count f (with_state STOPPED (close s3)) = count f s3)
    as Hclose.
  { intros s3.
    change (count f (with_state STOPPED (close s3)))
      with (count f (close s3)).
    rewrite SpeechRecognizer_count_close.
    destruct Hh as (_ & _ & Hc & _). destruct (ws s3); rewrite ?Hc; lia. }
  set (sent := settle_send _ _ _ _).
  destruct (deliver_before_frame (at_ms sent) evs s1) as (_ & _ & H2 & _).
  destruct (deliver_before _ evs s1) as [s2 later]. simpl in H2.
  destruct (rejection sent); simpl; [by rewrite Hclose, H2|].
  destruct (donePromise s2) as [p|]; simpl; [|by rewrite Hclose, H2].
  destruct (await_done_frame p (at_ms sent + 10000) (at_ms sent) later s2)
    as (_ & H3 & _).
  destruct (await_done _ _ _ later s2) as [s3 finished]. simpl in *.
  by rewrite Hclose, H3, H2.
Qed.

Lemma is_provider_call_not_of_handlers : not_of_handlers is_provider_call.
Proof. by split_and!. Qed.

(** X13.  A token set with [setUserSig] is never replaced by the sessions
    that share the credential: whatever is called on a session and
    whatever reaches its handlers, as long as nobody sets another token,
    the credential stays as it is and the token provider is never
    called. *)
Theorem preset_token_is_kept c s acts sig :
  sig <> "" ->
  Forall (fun act => forall u, act <> SetUserSig u) acts ->
  let world := run acts (Credential.setUserSig sig c, s) in
  world.1 = Credential.setUserSig sig c /\
  count is_provider_call world.2 = count is_provider_call s.
Proof.
  intros Hsig. set (c' := Credential.setUserSig sig c).
  assert (Credential.userSig c' <> "") as Hc' by done.
  clearbody c'. revert s.
  induction acts as [|act acts IH]; intros s Hacts; [done|].
  apply Forall_cons in Hacts as [Hact Hacts]. simpl.
  destruct act as [env|data o|o evs|ev|u]; simpl.
  - destruct (start_with_token env c' s is_provider_call Hc')
      as [Hc Hn]; [done|].
    destruct (start env c' s) as [[c1 s1] r]. simpl in *. subst c1.
    destruct (IH s1 Hacts) as [H1 H2]. split; [done | congruence].
  - destruct (IH (write data o s).1 Hacts) as [H1 H2].
    split; [done|]. rewrite H2. by apply count_write.
  - destruct (IH (stop o evs s).1 Hacts) as [H1 H2].
    split; [done|]. rewrite H2.
    apply count_stop; [apply is_provider_call_not_of_handlers | done].
  - destruct (IH (handle ev s) Hacts) as [H1 H2].
    split; [done|]. rewrite H2.
    apply count_handle, is_provider_call_not_of_handlers.
  - by destruct (Hact u).
Qed.

Lemma preset_token_is_kept_witness :
  let acts := [Start sample_env; Transport EvOpen; Stop NoAck [];
               Start failing_env] in
  "preset-sig" <> "" /\
  Forall (fun act => forall u, act <> SetUserSig u) acts /\
  (run acts (Credential.setUserSig "preset-sig" sample_credential,
             sample_recognizer)).1
  = Credential.setUserSig "preset-sig" sample_credential.
Proof.
  intros acts.
  assert ("preset-sig" <> "") as Hsig by done.
  assert (Forall (fun act => forall u, act <> SetUserSig u) acts) as Hacts.
  { repeat constructor; done. }
  split_and!; try assumption.
  apply (preset_token_is_kept sample_credential sample_recognizer acts
           "preset-sig" Hsig Hacts).
Defined.
End preset_token.

(** ** The required parameters of the query *)

Section required_parameters.
Implicit Types (p : SignatureParams.t) (opts : SignatureParams.Options).

Lemma carries_required p k v :
  SignatureParams.toMap p !! k = Some v ->
  carries (query_pairs (SignatureParams.buildQueryString p)) k True
    (encodeURIComponent v).
Proof.
  intros Hk. by apply (carries_toMap p k true True v).
Qed.

(** X14.  Parameters built by the constructor always put the eight
    required keys in the query string, each once: [secretid] is the
    account's AppID; [timestamp] is the clock in whole seconds, rounded
    down; [expired] is one day later; [nonce] is a number from 1 to
    9999999; [engine_model_type] and [voice_id] are the URI-encoded
    options; [voice_format] and [needvad] are the options, 1 when left
    out.  The query string holds no key but those of [toMap]. *)
Theorem required_parameters_are_sent opts (now_ms rnd : Z) :
  0 <= rnd < 9999999 ->
  let p := SignatureParams.new opts now_ms rnd in
  let kvs := query_pairs (SignatureParams.buildQueryString p) in
  carries kvs "secretid" True
    (String_of (SignatureParams.opt_appId opts)) /\
  carries kvs "timestamp" True (String_of (SignatureParams.timestamp p)) /\
  1000 * SignatureParams.timestamp p <= now_ms
    < 1000 * SignatureParams.timestamp p + 1000 /\
  carries kvs "expired" True
    (String_of (SignatureParams.timestamp p + 86400)) /\
  carries kvs "nonce" True (String_of (SignatureParams.nonce p)) /\
  1 <= SignatureParams.nonce p <= 9999999 /\
  carries kvs "engine_model_type" True
    (encodeURIComponent (SignatureParams.opt_engineModelType opts)) /\
  carries kvs "voice_id" True
    (encodeURIComponent (SignatureParams.opt_voiceId opts)) /\
  carries kvs "voice_format" True
    (String_of (default 1 (SignatureParams.opt_voiceFormat opts))) /\
  carries kvs "needvad" True
    (String_of (default 1 (SignatureParams.opt_needVad opts))) /\
  (forall k, k ∈ kvs.*1 -> k ∈ (KEYS_BEFORE ++ KEYS_AFTER)%list) /\
  NoDup (kvs.*1).
Proof.
  intros Hrnd p kvs. unfold kvs.
  split_and!;
    try (rewrite <- encodeURIComponent_String_of;
         apply carries_required; by toMap_lookup);
    try (apply carries_required; by toMap_lookup).
  - simpl. pose proof (Z.div_mod now_ms 1000).
    pose proof (Z.mod_pos_bound now_ms 1000). lia.
  - simpl. pose proof (Z.div_mod now_ms 1000).
    pose proof (Z.mod_pos_bound now_ms 1000). lia.
  - simpl. lia.
  - simpl. lia.
  - intros k. fold (query_keys (SignatureParams.buildQueryString p)).
    unfold SignatureParams.buildQueryString.
    rewrite query_keys_encodeParams;
      [|apply toMap_nonempty|intros k'; apply toMap_plain].
    intros Hk%elem_of_sorted_keys. by apply toMap_keys in Hk.
  - fold (query_keys (SignatureParams.buildQueryString p)).
    unfold SignatureParams.buildQueryString.
    rewrite query_keys_encodeParams;
      [|apply toMap_nonempty|intros k'; apply toMap_plain].
    apply sorted_keys_NoDup.
Qed.

Lemma required_parameters_are_sent_witness :
  0 <= 41 < 9999999 /\
  carries (query_pairs (SignatureParams.buildQueryString sample_params))
    "secretid" True (String_of 1300403317) /\
  1 <= SignatureParams.nonce sample_params <= 9999999.
Proof.
  assert (0 <= 41 < 9999999) as Hrnd by lia.
  destruct (required_parameters_are_sent sample_opts 1700000000123 41 Hrnd)
    as (Hid & _ & _ & _ & _ & Hnonce & _).
  split_and!; [lia | lia | exact Hid | apply Hnonce | apply Hnonce].
Defined.
End required_parameters.

(** * The HTTP recognizers *)

(** ** One request *)

Section request.
Context {Doc : Type}.
Implicit Types (c : Credential.t) (env : HttpEnv Doc) (body : JsObject).

(** X15.  A request of the HTTP recognizers asks the token provider only
    when the credential holds no token, once, for the request id and
    86400 s.  When the provider throws,
    the request fails with AUTH_FAILED and nothing is posted.  Otherwise
    exactly one POST is made, with the defined properties of the body and
    the token, the credential's or the derived one, in the X-TRTC-UserSig
    header; it gives a document only for status 200 and a text that
    parses, and fails with CONNECT_FAILED, SERVER_ERROR or READ_FAILED
    otherwise. *)
Theorem request_posts_at_most_once (endpoint path : string) c env body :
  let r := doRequest endpoint path c env body in
  (r.1 = token_calls c env /\
   Credential.userSig c = "" /\
   exists err,
     http_genSig env (Credential.sdkAppId c) (Credential.secretKey c)
       (http_uuidv4 env) 86400 = Throws err /\
     r.2 = inl (ASRError.new ErrorCode.AUTH_FAILED
                  ("generate user sig failed: " +:+ err))) \/
  (exists url sig,
      r.1 = (token_calls c env
             ++ [HttpFetch url (request_headers c sig) (json_fields body)])%list
      /\
      (Credential.userSig c <> "" -> sig = Credential.userSig c) /\
      (Credential.userSig c = "" ->
       http_genSig env (Credential.sdkAppId c) (Credential.secretKey c)
         (http_uuidv4 env) 86400 = Returns sig) /\
      match r.2 with
      | inr doc =>
          exists text,
            http_fetch env = FetchReturns 200 text /\
            JSON_parse env text = Returns doc
      | inl e =>
          ASRError.code e = ErrorCode.CONNECT_FAILED \/
          ASRError.code e = ErrorCode.SERVER_ERROR \/
          ASRError.code e = ErrorCode.READ_FAILED
      end).
Proof.
  intros r. unfold r, doRequest, token_calls, genUserSig.
  change (86400 <=? 0) with false. cbv iota.
  destruct (truthy_str (Credential.userSig c)) eqn:Hsig.
  - right. apply truthy_str_true in Hsig.
    eexists _, (Credential.userSig c). split_and!; [|done|done|].
    + by repeat case_match.
    + destruct (http_fetch env) as [err|status text]; simpl; [by left|].
      destruct (status =? 200) eqn:Hstatus; simpl; [|by right; left].
      apply Z.eqb_eq in Hstatus as ->.
      destruct (JSON_parse env text) eqn:Hparse; simpl; [by eauto|].
      by right; right.
  - assert (Credential.userSig c = "") as Hnone.
    { destruct (Credential.userSig c); [done | discriminate]. }
    destruct (http_genSig env _ _ _ _) as [sig|err] eqn:Hgen.
    + right. eexists _, sig. split_and!; [|done|done|].
      * by repeat case_match.
      * destruct (http_fetch env) as [err|status text]; simpl; [by left|].
        destruct (status =? 200) eqn:Hstatus; simpl; [|by right; left].
        apply Z.eqb_eq in Hstatus as ->.
        destruct (JSON_parse env text) eqn:Hparse; simpl; [by eauto|].
        by right; right.
    + left. split_and!; [done | done |]. by exists err.
Qed.

(** What a request does, counted. *)
Lemma doRequest_counts (endpoint path : string) c env body :
  let r := doRequest endpoint path c env body in
  (http_count is_fetch r.1 <= 1)%nat /\
  (http_count is_token_call r.1 <= 1)%nat /\
  (Credential.userSig c <> "" -> http_count is_token_call r.1 = 0%nat) /\
  (forall doc, r.2 = inr doc -> http_count is_fetch r.1 = 1%nat).
Proof.
  intros r. unfold r, doRequest, http_count.
  destruct (truthy_str (Credential.userSig c)) eqn:Ht.
  - repeat case_match; simpl; split_and!; try done; lia.
  - assert (Credential.userSig c = "") as Hnone.
    { destruct (Credential.userSig c); [done | discriminate]. }
    repeat case_match; simplify_eq; simpl; split_and!; try done; lia.
Qed.

(** How a request ends. *)
Lemma doRequest_result (endpoint path : string) c env body :
  match (doRequest endpoint path c env body).2 with
  | inr doc =>
      exists text,
        http_fetch env = FetchReturns 200 text /\
        JSON_parse env text = Returns doc
  | inl e =>
      ASRError.code e = ErrorCode.AUTH_FAILED \/
      ASRError.code e = ErrorCode.CONNECT_FAILED \/
      ASRError.code e = ErrorCode.SERVER_ERROR \/
      ASRError.code e = ErrorCode.READ_FAILED
  end.
Proof.
  unfold doRequest.
  destruct (truthy_str (Credential.userSig c));
    [|destruct (genUserSig _ _ _ _ _); [|by left]];
    (destruct (http_fetch env) as [err|status text]; simpl;
     [by right; left|];
     destruct (status =? 200) eqn:Hstatus; simpl; [|by right; right; left];
     apply Z.eqb_eq in Hstatus as ->;
     destruct (JSON_parse env text) eqn:Hparse; simpl;
     [by eauto | by right; right; right]).
Qed.
End request.

(** ** The sentence recognizer *)

Section sentence.
Import SentenceRecognizer.
Implicit Types (r : SentenceRecognizer.t) (c : Credential.t)
  (env : HttpEnv (option Response))
  (req : option SentenceRecognitionRequest).

Lemma validateRequest_code req e :
  validateRequest req = Some e ->
  ASRError.code e = ErrorCode.INVALID_PARAM.
Proof.
  unfold validateRequest, invalid.
  repeat case_match; intros [= <-]; done.
Qed.

(** How [recognize] ends, by what it finds. *)
Lemma recognize_shape r c env req :
  match validateRequest req with
  | Some e => recognize r c env req = ([], inl e)
  | None =>
      exists rq,
        req = Some rq /\
        let sent := doRequest (endpoint r) "/v1/SentenceRecognition" c env
                      (buildBody rq) in
        (recognize r c env req).1 = sent.1 /\
        match sent.2 with
        | inl e => (recognize r c env req).2 = inl e
        | inr None =>
            exists e, (recognize r c env req).2 = inl e /\
                      ASRError.code e = ErrorCode.SERVER_ERROR
        | inr (Some response) =>
            match Error response with
            | Some err =>
                exists e, (recognize r c env req).2 = inl e /\
                          ASRError.code e = ErrorCode.SERVER_ERROR
            | None => (recognize r c env req).2 = inr (parseResult response)
            end
        end
  end.
Proof.
  unfold recognize.
  destruct (validateRequest req) as [e|] eqn:Hv; [done|].
  destruct req as [rq|]; [|done]. exists rq. split; [done|].
  destruct (doRequest _ _ c env (buildBody rq)) as [effs [e|[response|]]];
    simpl; split; try done.
  - by destruct (Error response).
  - destruct (Error response); [by eexists|done].
  - by eexists.
Qed.

(** X16.  [recognize] checks the request before anything else: a request
    that fails validation is rejected with INVALID_PARAM without a call
    of the token provider and without a POST, and no other failure has
    that code.  Whatever happens, at most one POST is made and the token
    provider is called at most once.  A result is returned only after
    exactly one POST answered with status 200 whose text parses to a
    document with a [Response] that holds no [Error]; it is that
    response with defaults for what is missing. *)
Theorem recognize_checks_before_it_sends r c env req :
  let out := recognize r c env req in
  (forall e, validateRequest req = Some e ->
             out = ([], inl e) /\
             ASRError.code e = ErrorCode.INVALID_PARAM) /\
  (forall e, out.2 = inl e ->
             ASRError.code e = ErrorCode.INVALID_PARAM ->
             out.1 = [] /\ validateRequest req = Some e) /\
  (http_count is_fetch out.1 <= 1)%nat /\
  (http_count is_token_call out.1 <= 1)%nat /\
  (forall res,
      out.2 = inr res ->
      http_count is_fetch out.1 = 1%nat /\
      validateRequest req = None /\
      exists text response,
        http_fetch env = FetchReturns 200 text /\
        JSON_parse env text = Returns (Some response) /\
        Error response = None /\
        res = parseResult response).
Proof.
  intros out. unfold out.
  pose proof (recognize_shape r c env req) as Hshape.
  destruct (validateRequest req) as [e0|] eqn:Hv.
  { rewrite Hshape. simpl. split_and!.
    - intros e [= <-]. split; [done|].
      by apply (validateRequest_code req).
    - by intros e [= <-].
    - unfold http_count. simpl. lia.
    - unfold http_count. simpl. lia.
    - done. }
  destruct Hshape as (rq & -> & Heffs & Hres). rewrite Heffs.
  set (sent := doRequest (endpoint r) "/v1/SentenceRecognition" c env
                 (buildBody rq)) in *.
  pose proof (doRequest_counts (endpoint r) "/v1/SentenceRecognition" c env
                (buildBody rq)) as (Hfetch & Htoken & _ & Hone).
  pose proof (doRequest_result (endpoint r) "/v1/SentenceRecognition" c env
                (buildBody rq)) as Hsent.
  fold sent in Hfetch, Htoken, Hone, Hsent.
  split_and!; try done.
  - intros e He Hcode. exfalso.
    destruct (sent.2) as [e'|[response|]].
    + rewrite Hres in He. injection He as <-.
      rewrite Hcode in Hsent. by destruct Hsent as [|[|[|]]].
    + destruct (Error response).
      * destruct Hres as (e' & Hres & Hcode'). rewrite Hres in He.
        injection He as <-. by rewrite Hcode in Hcode'.
      * by rewrite Hres in He.
    + destruct Hres as (e' & Hres & Hcode'). rewrite Hres in He.
      injection He as <-. by rewrite Hcode in Hcode'.
  - intros res Hout.
    destruct (sent.2) as [e'|[response|]] eqn:Hsent2.
    + by rewrite Hres in Hout.
    + destruct (Error response) eqn:Herr.
      * destruct Hres as (e' & Hres & _). by rewrite Hres in Hout.
      * rewrite Hres in Hout. injection Hout as <-.
        destruct Hsent as (text & Hf & Hp).
        split; [by eapply Hone|]. split; [done|]. by exists text, response.
    + destruct Hres as (e' & Hres & _). by rewrite Hres in Hout.
Qed.
End sentence.

(** ** The bodies of the requests *)

Section bodies.
Implicit Types (k : string) (v : JsValue) (o : JsObject).

Lemma obj_get_set_eq k v o : obj_get k (obj_set k v o) = v.
Proof.
  induction o as [|[k' v'] o IH]; simpl.
  - by rewrite String.eqb_refl.
  - destruct (String.eqb_spec k k') as [->|Hne]; simpl.
    + by rewrite String.eqb_refl.
    + by apply String.eqb_neq in Hne as ->.
Qed.

Lemma obj_get_set_ne k k' v o :
  k <> k' -> obj_get k' (obj_set k v o) = obj_get k' o.
Proof.
  intros Hne. induction o as [|[k0 v0] o IH]; simpl.
  - apply not_eq_sym in Hne. by apply String.eqb_neq in Hne as ->.
  - destruct (String.eqb_spec k k0) as [->|Hk]; simpl.
    + apply not_eq_sym in Hne. by apply String.eqb_neq in Hne as ->.
    + by rewrite IH.
Qed.

Lemma obj_get_set_if_eq (b : bool) k v o :
  obj_get k (obj_set_if b k v o) = if b then v else obj_get k o.
Proof. destruct b; simpl; [apply obj_get_set_eq | done]. Qed.

Lemma obj_get_set_if_ne (b : bool) k k' v o :
  k <> k' -> obj_get k' (obj_set_if b k v o) = obj_get k' o.
Proof. destruct b; simpl; [apply obj_get_set_ne | done]. Qed.

Lemma base64_nonempty (data : list Byte.byte) :
  data <> [] -> truthy_str (base64 data) = true.
Proof. by destruct data as [|a [|b [|c rest]]]. Qed.

Lemma truthy_opt_str_true (x : option string) :
  truthy_opt_str x = true <-> exists s, x = Some s /\ s <> "".
Proof.
  destruct x as [s|]; simpl.
  - rewrite truthy_str_true. split; [by eauto | by intros (? & [= <-] & ?)].
  - split; [done | by intros (? & ? & _)].
Qed.
End bodies.

(** Reading a property of a body that was built by assignments. *)
Ltac body_lookup :=
  repeat first
    [ rewrite obj_get_set_if_eq
    | rewrite obj_get_set_if_ne by done
    | rewrite obj_get_set_eq
    | rewrite obj_get_set_ne by done ].

Section sentence_bodies.
Import SentenceRecognizer.
Implicit Types (r : SentenceRecognizer.t) (c : Credential.t)
  (env : HttpEnv (option Response)) (rq : SentenceRecognitionRequest).

(** X17.  The body of a sentence request that passed validation names a
    non-empty engine and voice format and the source type as given.  With
    source type 0 it carries the non-empty URL and neither [Data] nor
    [DataLen]; with any other source type it carries no [Url], and with
    source type 1 its [Data] is not empty.  [ConvertNumMode] is in the
    body exactly when the request sets it to a value other than 1, so
    that 0 is sent. *)
Theorem sentence_body_of_valid_request rq :
  validateRequest (Some rq) = None ->
  let body := buildBody rq in
  engServiceType rq <> "" /\
  voiceFormat rq <> "" /\
  obj_get "EngSerViceType" body = JsString (engServiceType rq) /\
  obj_get "VoiceFormat" body = JsString (voiceFormat rq) /\
  obj_get "SourceType" body = JsNumber (sourceType rq) /\
  (sourceType rq = SourceType.URL ->
   exists u, u <> "" /\
             obj_get "Url" body = JsString u /\
             obj_get "Data" body = JsUndefined /\
             obj_get "DataLen" body = JsUndefined) /\
  (sourceType rq <> SourceType.URL ->
   obj_get "Url" body = JsUndefined /\
   obj_get "Data" body = of_opt_str (data rq) /\
   obj_get "DataLen" body = of_opt_num (dataLen rq)) /\
  (sourceType rq = SourceType.DATA ->
   exists d, d <> "" /\ obj_get "Data" body = JsString d) /\
  obj_get "ConvertNumMode" body
  = match convertNumMode rq with
    | Some n => if n =? 1 then JsUndefined else JsNumber n
    | None => JsUndefined
    end.
Proof.
  unfold validateRequest, invalid. intros Hvalid.
  destruct (truthy_str (engServiceType rq)) eqn:Heng; [|done].
  destruct (truthy_str (voiceFormat rq)) eqn:Hfmt; [|done].
  simpl in Hvalid.
  destruct ((sourceType rq =? SourceType.URL)
            && negb (truthy_opt_str (url rq))) eqn:Hurl; [done|].
  destruct ((sourceType rq =? SourceType.DATA)
            && negb (truthy_opt_str (data rq))) eqn:Hdata; [done|].
  unfold buildBody.
  split; [by apply truthy_str_true|].
  split; [by apply truthy_str_true|].
  destruct (Z.eqb_spec (sourceType rq) SourceType.URL) as [Hsrc|Hsrc].
  - simpl in Hurl. apply negb_false_iff, truthy_opt_str_true in Hurl.
    destruct Hurl as (u & Hu & Hne).
    split_and!. all: body_lookup. all: try done.
    + intros _. exists u. by rewrite Hu.
    + rewrite Hsrc. intros Hd. discriminate Hd.
    + by destruct (convertNumMode rq) as [n|]; [destruct (n =? 1)|].
  - split_and!. all: body_lookup. all: try done.
    + intros Hd. rewrite Hd in Hdata. simpl in Hdata.
      apply negb_false_iff, truthy_opt_str_true in Hdata.
      destruct Hdata as (d & Hd' & Hne). exists d. by rewrite Hd'.
    + by destruct (convertNumMode rq) as [n|]; [destruct (n =? 1)|].
Qed.

Lemma sentence_body_of_valid_request_witness :
  let rq :=
    {| engServiceType := "16k_zh"; sourceType := SourceType.URL;
       voiceFormat := "wav"; url := Some "https://example.com/a.wav";
       data := None; dataLen := None; wordInfo := None;
       filterDirty := None; filterModal := None; filterPunc := None;
       convertNumMode := Some 0; hotwordId := None; hotwordList := None;
       inputSampleRate := None |} in
  validateRequest (Some rq) = None /\
  obj_get "ConvertNumMode" (buildBody rq) = JsNumber 0.
Proof.
  intros rq.
  assert (validateRequest (Some rq) = None) as Hvalid by (by vm_compute).
  split; [exact Hvalid|].
  apply (sentence_body_of_valid_request rq Hvalid).
Defined.

(** X18.  Local audio for the sentence recognizer: empty data, and data
    of more than 3 * 1024 * 1024 bytes, are rejected with INVALID_PARAM
    before anything is sent.  Data of up to that size, that size
    included, goes to [recognize] as a request whose body holds the engine,
    source type 1, the voice format, the data in base64 and their length
    in bytes, and nothing else; that request passes validation when
    engine and format are not empty. *)
Theorem recognizeData_limits r c env (audio : list Byte.byte)
    (format engine : string) :
  let size := Z.of_nat (length audio) in
  (audio = [] \/ 3 * 1024 * 1024 < size ->
   exists e,
     recognizeData r c env audio format engine = ([], inl e) /\
     ASRError.code e = ErrorCode.INVALID_PARAM) /\
  (audio <> [] -> size <= 3 * 1024 * 1024 ->
   exists rq,
     recognizeData r c env audio format engine
     = recognize r c env (Some rq) /\
     json_fields (buildBody rq)
     = [("EngSerViceType", JsString engine);
        ("SourceType", JsNumber 1);
        ("VoiceFormat", JsString format);
        ("Data", JsString (base64 audio));
        ("DataLen", JsNumber size)] /\
     (format <> "" -> engine <> "" -> validateRequest (Some rq) = None)).
Proof.
  intros size. unfold recognizeData, too_large. fold size. split.
  - intros [-> | Hbig]; [eexists; split; [reflexivity | done]|].
    destruct audio as [|b audio]; [eexists; split; [reflexivity | done]|].
    apply Z.ltb_lt in Hbig. rewrite Hbig.
    eexists; split; [reflexivity | done].
  - intros Hne Hsize.
    pose proof (base64_nonempty audio Hne) as Hdata.
    destruct audio as [|b audio]; [done|].
    apply Z.ltb_ge in Hsize. rewrite Hsize.
    set (encoded := base64 (b :: audio)) in *. clearbody encoded size.
    eexists. split; [reflexivity|]. split; [reflexivity|].
    intros Hf%truthy_str_true He%truthy_str_true.
    unfold validateRequest. simpl. by rewrite He, Hf, Hdata.
Qed.

Lemma recognizeData_limits_witness :
  let audio := replicate 5 Byte.x41 in
  audio <> [] /\
  Z.of_nat (length audio) <= 3 * 1024 * 1024 /\
  exists rq,
    recognizeData SentenceRecognizer.new sample_credential
      {| http_uuidv4 := "req-1";
         http_genSig := fun _ _ userId _ => Returns ("sig-" +:+ userId);
         http_now := 1700000000123;
         http_fetch := FetchFails "ECONNREFUSED";
         JSON_parse := fun _ => Throws "SyntaxError" |}
      audio "pcm" "16k_zh"
    = recognize SentenceRecognizer.new sample_credential
        {| http_uuidv4 := "req-1";
           http_genSig := fun _ _ userId _ => Returns ("sig-" +:+ userId);
           http_now := 1700000000123;
           http_fetch := FetchFails "ECONNREFUSED";
           JSON_parse := fun _ => Throws "SyntaxError" |}
        (Some rq) /\
    json_fields (buildBody rq)
    = [("EngSerViceType", JsString "16k_zh");
       ("SourceType", JsNumber 1);
       ("VoiceFormat", JsString "pcm");
       ("Data", JsString "QUFBQUE=");
       ("DataLen", JsNumber 5)].
Proof.
  intros audio.
  assert (audio <> []) as Hne by done.
  assert (Z.of_nat (length audio) <= 3 * 1024 * 1024) as Hsize
    by (by vm_compute).
  split; [exact Hne|]. split; [exact Hsize|].
  destruct (recognizeData_limits SentenceRecognizer.new sample_credential
              {| http_uuidv4 := "req-1";
                 http_genSig := fun _ _ userId _ => Returns ("sig-" +:+ userId);
                 http_now := 1700000000123;
                 http_fetch := FetchFails "ECONNREFUSED";
                 JSON_parse := fun _ => Throws "SyntaxError" |}
              audio "pcm" "16k_zh") as [_ Hok].
  destruct (Hok Hne Hsize) as (rq & Hcall & Hbody & _).
  exists rq. split; [exact Hcall | exact Hbody].
Defined.
End sentence_bodies.

Section sentence_options.
Import SentenceRecognizer.
Implicit Types (r : SentenceRecognizer.t) (c : Credential.t)
  (env : HttpEnv (option Response)) (rq : SentenceRecognitionRequest).

(** X19.  [recognizeDataWithOptions] writes into the request of the
    caller.  When the audio is empty or larger than 3 * 1024 * 1024 bytes
    the request is left as it was and the call is rejected with
    INVALID_PARAM.  Otherwise the source type of the request becomes 1,
    its data the audio in base64 and its length the number of bytes, the
    other properties stay, and that request goes to [recognize]: what it
    held as data is lost, and a URL it holds is not sent. *)
Theorem recognizeDataWithOptions_writes_the_request r c env
    (raw : list Byte.byte) rq :
  let out := recognizeDataWithOptions r c env raw rq in
  let size := Z.of_nat (length raw) in
  (raw = [] \/ 3 * 1024 * 1024 < size ->
   out.1 = rq /\
   exists e, out.2 = ([], inl e) /\
             ASRError.code e = ErrorCode.INVALID_PARAM) /\
  (raw <> [] -> size <= 3 * 1024 * 1024 ->
   out.2 = recognize r c env (Some out.1) /\
   sourceType out.1 = SourceType.DATA /\
   data out.1 = Some (base64 raw) /\
   dataLen out.1 = Some size /\
   engServiceType out.1 = engServiceType rq /\
   voiceFormat out.1 = voiceFormat rq /\
   url out.1 = url rq /\
   convertNumMode out.1 = convertNumMode rq /\
   obj_get "Data" (buildBody out.1) = JsString (base64 raw) /\
   obj_get "DataLen" (buildBody out.1) = JsNumber size /\
   obj_get "Url" (buildBody out.1) = JsUndefined).
Proof.
  intros out size. unfold out, recognizeDataWithOptions, too_large.
  fold size. split.
  - intros [-> | Hbig].
    { split; [done|]. eexists; split; [reflexivity | done]. }
    destruct raw as [|b raw].
    { split; [done|]. eexists; split; [reflexivity | done]. }
    apply Z.ltb_lt in Hbig. rewrite Hbig.
    split; [done|]. eexists; split; [reflexivity | done].
  - intros Hne Hsize. destruct raw as [|b raw]; [done|].
    apply Z.ltb_ge in Hsize. rewrite Hsize.
    set (encoded := base64 (b :: raw)). clearbody encoded size.
    cbn [fst snd].
    split_and!; try reflexivity.
    all: unfold buildBody; cbn [sourceType data dataLen url]; simpl Z.eqb;
      cbv iota; by body_lookup.
Qed.

Lemma recognizeDataWithOptions_writes_the_request_witness :
  let rq :=
    {| engServiceType := "16k_zh"; sourceType := SourceType.URL;
       voiceFormat := "wav"; url := Some "https://example.com/a.wav";
       data := None; dataLen := None; wordInfo := None;
       filterDirty := None; filterModal := None; filterPunc := None;
       convertNumMode := None; hotwordId := None; hotwordList := None;
       inputSampleRate := None |} in
  let env :=
    {| http_uuidv4 := "req-1";
       http_genSig := fun _ _ userId _ => Returns ("sig-" +:+ userId);
       http_now := 1700000000123;
       http_fetch := FetchFails "ECONNREFUSED";
       JSON_parse := fun _ => Throws "SyntaxError" |} in
  let raw := [Byte.x41; Byte.x42] in
  raw <> [] /\
  Z.of_nat (length raw) <= 3 * 1024 * 1024 /\
  sourceType
    (recognizeDataWithOptions SentenceRecognizer.new sample_credential env
       raw rq).1 = SourceType.DATA /\
  obj_get "Url"
    (buildBody
       (recognizeDataWithOptions SentenceRecognizer.new sample_credential
          env raw rq).1) = JsUndefined.
Proof.
  intros rq env raw.
  assert (raw <> []) as Hne by done.
  assert (Z.of_nat (length raw) <= 3 * 1024 * 1024) as Hsize
    by (by vm_compute).
  split; [exact Hne|]. split; [exact Hsize|].
  destruct (recognizeDataWithOptions_writes_the_request
              SentenceRecognizer.new sample_credential env raw rq)
    as [_ Hok].
  destruct (Hok Hne Hsize)
    as (_ & Hsrc & _ & _ & _ & _ & _ & _ & _ & _ & Hurl).
  split; [exact Hsrc | exact Hurl].
Defined.
End sentence_options.

(** ** The file recognizer *)

Section file_tasks.
Import FileRecognizer.
Implicit Types (r : FileRecognizer.t) (c : Credential.t)
  (env : HttpEnv (option Response)) (rq : CreateRecTaskRequest)
  (req : option CreateRecTaskRequest).

Lemma validateCreateRequest_code req e :
  validateCreateRequest req = Some e ->
  ASRError.code e = ErrorCode.INVALID_PARAM.
Proof.
  unfold validateCreateRequest, invalid.
  repeat case_match; intros [= <-]; done.
Qed.

Lemma checked_result (respData : option Response) :
  match checked respData with
  | inl e => ASRError.code e = ErrorCode.SERVER_ERROR
  | inr response => respData = Some response /\ Error response = None
  end.
Proof.
  unfold checked. destruct respData as [response|]; [|done].
  by destruct (Error response) eqn:Herr.
Qed.

(** X20.  The body of a task request that passed validation names a
    non-empty engine and a positive number of channels.  With source type
    0 it carries the non-empty URL and neither [Data] nor [DataLen]; with
    any other source type it carries no [Url], and with source type 1 its
    [Data] is not empty.  [ConvertNumMode] is in the body exactly when
    the request sets it to a value other than 0: unlike the sentence
    recognizer, the file recognizer sends 1 and cannot send 0. *)
Theorem task_body_of_valid_request rq :
  validateCreateRequest (Some rq) = None ->
  let body := buildBody rq in
  engineModelType rq <> "" /\
  0 < channelNum rq /\
  obj_get "EngineModelType" body = JsString (engineModelType rq) /\
  obj_get "ChannelNum" body = JsNumber (channelNum rq) /\
  obj_get "ResTextFormat" body = JsNumber (resTextFormat rq) /\
  obj_get "SourceType" body = JsNumber (sourceType rq) /\
  (sourceType rq = FileSourceType.URL ->
   exists u, u <> "" /\
             obj_get "Url" body = JsString u /\
             obj_get "Data" body = JsUndefined /\
             obj_get "DataLen" body = JsUndefined) /\
  (sourceType rq <> FileSourceType.URL ->
   obj_get "Url" body = JsUndefined /\
   obj_get "Data" body = of_opt_str (data rq) /\
   obj_get "DataLen" body = of_opt_num (dataLen rq)) /\
  (sourceType rq = FileSourceType.DATA ->
   exists d, d <> "" /\ obj_get "Data" body = JsString d) /\
  obj_get "ConvertNumMode" body
  = match convertNumMode rq with
    | Some n => if n =? 0 then JsUndefined else JsNumber n
    | None => JsUndefined
    end.
Proof.
  unfold validateCreateRequest, invalid. intros Hvalid.
  destruct (truthy_str (engineModelType rq)) eqn:Heng; [|done].
  simpl in Hvalid.
  destruct (Z.leb_spec (channelNum rq) 0) as [|Hchan]; [done|].
  destruct ((sourceType rq =? FileSourceType.URL)
            && negb (truthy_opt_str (url rq))) eqn:Hurl; [done|].
  destruct ((sourceType rq =? FileSourceType.DATA)
            && negb (truthy_opt_str (data rq))) eqn:Hdata; [done|].
  unfold buildBody.
  split; [by apply truthy_str_true|]. split; [done|].
  destruct (Z.eqb_spec (sourceType rq) FileSourceType.URL) as [Hsrc|Hsrc].
  - simpl in Hurl. apply negb_false_iff, truthy_opt_str_true in Hurl.
    destruct Hurl as (u & Hu & Hne).
    split_and!. all: body_lookup. all: try done.
    + intros _. exists u. by rewrite Hu.
    + rewrite Hsrc. intros Hd. discriminate Hd.
    + destruct (convertNumMode rq) as [n|]; simpl; [|done].
      unfold truthy_num. by destruct (n =? 0).
  - split_and!. all: body_lookup. all: try done.
    + intros Hd. rewrite Hd in Hdata. simpl in Hdata.
      apply negb_false_iff, truthy_opt_str_true in Hdata.
      destruct Hdata as (d & Hd' & Hne). exists d. by rewrite Hd'.
    + destruct (convertNumMode rq) as [n|]; simpl; [|done].
      unfold truthy_num. by destruct (n =? 0).
Qed.

Lemma task_body_of_valid_request_witness :
  let rq :=
    {| engineModelType := "16k_zh"; channelNum := 1; resTextFormat := 1;
       sourceType := FileSourceType.URL;
       url := Some "https://example.com/a.wav";
       data := None; dataLen := None; callbackUrl := None;
       filterDirty := None; filterModal := None; filterPunc := None;
       convertNumMode := Some 0; hotwordId := None; hotwordList := None |} in
  validateCreateRequest (Some rq) = None /\
  obj_get "ConvertNumMode" (buildBody rq) = JsUndefined.
Proof.
  intros rq.
  assert (validateCreateRequest (Some rq) = None) as Hvalid
    by (by vm_compute).
  split; [exact Hvalid|].
  apply (task_body_of_valid_request rq Hvalid).
Defined.

(** How [createTask] ends, by what it finds. *)
Lemma createTask_shape r c env req :
  match validateCreateRequest req with
  | Some e => createTask r c env req = ([], inl e)
  | None =>
      exists rq,
        req = Some rq /\
        let sent := doRequest (endpoint r) "/v1/CreateRecTask" c env
                      (buildBody rq) in
        (createTask r c env req).1 = sent.1 /\
        match sent.2 with
        | inl e => (createTask r c env req).2 = inl e
        | inr respData =>
            match checked respData with
            | inl e => (createTask r c env req).2 = inl e
            | inr response =>
                match Data response ≫= RecTaskId with
                | Some id =>
                    if truthy_str id then
                      (createTask r c env req).2 = inr id
                    else
                      exists e, (createTask r c env req).2 = inl e /\
                                ASRError.code e = ErrorCode.SERVER_ERROR
                | None =>
                    exists e, (createTask r c env req).2 = inl e /\
                              ASRError.code e = ErrorCode.SERVER_ERROR
                end
            end
        end
  end.
Proof.
  unfold createTask.
  destruct (validateCreateRequest req) as [e|] eqn:Hv; [done|].
  destruct req as [rq|]; [|done]. exists rq. split; [done|].
  destruct (doRequest _ _ c env (buildBody rq)) as [effs [e|respData]];
    simpl; [done|].
  destruct (checked respData) as [e|response]; simpl; [done|].
  split; [by destruct (negb _)|].
  destruct (Data response ≫= RecTaskId) as [id|]; simpl.
  - destruct (truthy_str id); simpl; [done | by eexists].
  - by eexists.
Qed.

(** X21.  [createTask] checks the request before anything else: a
    request that fails validation is rejected with INVALID_PARAM without
    a call of the token provider and without a POST, and no other failure
    has that code.  At most one POST is made.  A task id is returned only
    after exactly one POST answered with status 200 whose [Response]
    holds no [Error], and it is the [RecTaskId] of that response: it is
    never empty. *)
Theorem createTask_returns_a_task_id r c env req :
  let out := createTask r c env req in
  (forall e, validateCreateRequest req = Some e ->
             out = ([], inl e) /\
             ASRError.code e = ErrorCode.INVALID_PARAM) /\
  (forall e, out.2 = inl e ->
             ASRError.code e = ErrorCode.INVALID_PARAM ->
             out.1 = [] /\ validateCreateRequest req = Some e) /\
  (http_count is_fetch out.1 <= 1)%nat /\
  (forall id,
      out.2 = inr id ->
      id <> "" /\
      http_count is_fetch out.1 = 1%nat /\
      validateCreateRequest req = None /\
      exists text response task,
        http_fetch env = FetchReturns 200 text /\
        JSON_parse env text = Returns (Some response) /\
        Error response = None /\
        Data response = Some task /\
        RecTaskId task = Some id).
Proof.
  intros out. unfold out.
  pose proof (createTask_shape r c env req) as Hshape.
  destruct (validateCreateRequest req) as [e0|] eqn:Hv.
  { rewrite Hshape. simpl. split_and!.
    - intros e [= <-]. split; [done|].
      by apply (validateCreateRequest_code req).
    - by intros e [= <-].
    - unfold http_count. simpl. lia.
    - done. }
  destruct Hshape as (rq & -> & Heffs & Hres). rewrite Heffs.
  set (sent := doRequest (endpoint r) "/v1/CreateRecTask" c env
                 (buildBody rq)) in *.
  pose proof (doRequest_counts (endpoint r) "/v1/CreateRecTask" c env
                (buildBody rq)) as (Hfetch & _ & _ & Hone).
  pose proof (doRequest_result (endpoint r) "/v1/CreateRecTask" c env
                (buildBody rq)) as Hsent.
  fold sent in Hfetch, Hone, Hsent.
  split_and!; try done.
  - intros e He Hcode. exfalso.
    destruct (sent.2) as [e'|respData].
    { rewrite Hres in He. injection He as <-.
      rewrite Hcode in Hsent. by destruct Hsent as [|[|[|]]]. }
    pose proof (checked_result respData) as Hchecked.
    destruct (checked respData) as [e'|response].
    { rewrite Hres in He. injection He as <-.
      by rewrite Hcode in Hchecked. }
    destruct (Data response ≫= RecTaskId) as [id|].
    + destruct (truthy_str id); [by rewrite Hres in He|].
      destruct Hres as (e' & Hres & Hcode'). rewrite Hres in He.
      injection He as <-. by rewrite Hcode in Hcode'.
    + destruct Hres as (e' & Hres & Hcode'). rewrite Hres in He.
      injection He as <-. by rewrite Hcode in Hcode'.
  - intros id Hout.
    destruct (sent.2) as [e'|respData] eqn:Hsent2.
    { by rewrite Hres in Hout. }
    pose proof (checked_result respData) as Hchecked.
    destruct (checked respData) as [e'|response].
    { by rewrite Hres in Hout. }
    destruct Hchecked as [-> Herr].
    destruct (Data response) as [task|] eqn:Htask; simpl in Hres.
    + destruct (RecTaskId task) as [id'|] eqn:Hid.
      * destruct (truthy_str id') eqn:Htruthy.
        -- rewrite Hres in Hout. injection Hout as <-.
           destruct Hsent as (text & Hf & Hp).
           split; [by apply truthy_str_true|].
           split; [by eapply Hone|]. split; [done|].
           by exists text, response, task.
        -- destruct Hres as (e' & Hres & _). by rewrite Hres in Hout.
      * destruct Hres as (e' & Hres & _). by rewrite Hres in Hout.
    + destruct Hres as (e' & Hres & _). by rewrite Hres in Hout.
Qed.

(** X22.  Local audio and URLs for the file recognizer: empty data, data
    of more than 5 * 1024 * 1024 bytes and an empty URL are rejected with
    INVALID_PARAM before anything is sent.  Data of up to that size, that
    size included, goes to [createTask] as a request for one channel and
    result format 1 whose body holds the data in base64 and their length
    in bytes; a URL goes as source type 0.  These requests pass
    validation when the engine is not empty. *)
Theorem createTask_from_audio r c env (audio : list Byte.byte)
    (audioURL engine : string) :
  let size := Z.of_nat (length audio) in
  (audio = [] \/ 5 * 1024 * 1024 < size ->
   exists e,
     createTaskFromData r c env audio engine = ([], inl e) /\
     ASRError.code e = ErrorCode.INVALID_PARAM) /\
  (audio <> [] -> size <= 5 * 1024 * 1024 ->
   exists rq,
     createTaskFromData r c env audio engine
     = createTask r c env (Some rq) /\
     json_fields (buildBody rq)
     = [("EngineModelType", JsString engine);
        ("ChannelNum", JsNumber 1);
        ("ResTextFormat", JsNumber 1);
        ("SourceType", JsNumber 1);
        ("Data", JsString (base64 audio));
        ("DataLen", JsNumber size)] /\
     (engine <> "" -> validateCreateRequest (Some rq) = None)) /\
  (audioURL = "" ->
   exists e,
     createTaskFromURL r c env audioURL engine = ([], inl e) /\
     ASRError.code e = ErrorCode.INVALID_PARAM) /\
  (audioURL <> "" ->
   exists rq,
     createTaskFromURL r c env audioURL engine
     = createTask r c env (Some rq) /\
     json_fields (buildBody rq)
     = [("EngineModelType", JsString engine);
        ("ChannelNum", JsNumber 1);
        ("ResTextFormat", JsNumber 1);
        ("SourceType", JsNumber 0);
        ("Url", JsString audioURL)] /\
     (engine <> "" -> validateCreateRequest (Some rq) = None)).
Proof.
  intros size. unfold createTaskFromData, createTaskFromURL, too_large.
  fold size. split_and!.
  - intros [-> | Hbig]; [eexists; split; [reflexivity | done]|].
    destruct audio as [|b audio]; [eexists; split; [reflexivity | done]|].
    apply Z.ltb_lt in Hbig. rewrite Hbig.
    eexists; split; [reflexivity | done].
  - intros Hne Hsize.
    pose proof (base64_nonempty audio Hne) as Hdata.
    destruct audio as [|b audio]; [done|].
    apply Z.ltb_ge in Hsize. rewrite Hsize.
    set (encoded := base64 (b :: audio)) in *. clearbody encoded size.
    eexists. split; [reflexivity|]. split; [reflexivity|].
    intros He%truthy_str_true.
    unfold validateCreateRequest. simpl. by rewrite He, Hdata.
  - intros ->. simpl. eexists; split; [reflexivity | done].
  - intros Hurl%truthy_str_true. rewrite Hurl. simpl.
    eexists. split; [reflexivity|]. split; [reflexivity|].
    intros He%truthy_str_true.
    unfold validateCreateRequest. simpl. by rewrite He, Hurl.
Qed.
End file_tasks.

Lemma createTask_from_audio_witness :
  let env : HttpEnv (option FileRecognizer.Response) :=
    {| http_uuidv4 := "req-1";
       http_genSig := fun _ _ userId _ => Returns ("sig-" +:+ userId);
       http_now := 1700000000123;
       http_fetch := FetchFails "ECONNREFUSED";
       JSON_parse := fun _ => Throws "SyntaxError" |} in
  let audio := [Byte.x41; Byte.x42; Byte.x43] in
  audio <> [] /\
  Z.of_nat (length audio) <= 5 * 1024 * 1024 /\
  exists rq,
    FileRecognizer.createTaskFromData FileRecognizer.new sample_credential
      env audio "16k_zh"
    = FileRecognizer.createTask FileRecognizer.new sample_credential env
        (Some rq) /\
    json_fields (FileRecognizer.buildBody rq)
    = [("EngineModelType", JsString "16k_zh");
       ("ChannelNum", JsNumber 1);
       ("ResTextFormat", JsNumber 1);
       ("SourceType", JsNumber 1);
       ("Data", JsString "QUJD");
       ("DataLen", JsNumber 3)].
Proof.
  intros env audio.
  assert (audio <> []) as Hne by done.
  assert (Z.of_nat (length audio) <= 5 * 1024 * 1024) as Hsize
    by (by vm_compute).
  split; [exact Hne|]. split; [exact Hsize|].
  destruct (createTask_from_audio FileRecognizer.new sample_credential env
              audio "" "16k_zh") as (_ & Hok & _).
  destruct (Hok Hne Hsize) as (rq & Hcall & Hbody & _).
  exists rq. split; [exact Hcall | exact Hbody].
Defined.

(** ** Polling a task *)

Section polling.
Import FileRecognizer.
Implicit Types (r : FileRecognizer.t) (c : Credential.t)
  (env : HttpEnv (option Response)) (turns : list Turn).

Lemma http_count_app (f : HttpEffect -> bool) (l1 l2 : list HttpEffect) :
  http_count f (l1 ++ l2) = (http_count f l1 + http_count f l2)%nat.
Proof. unfold http_count. by rewrite filter_app, length_app. Qed.

(** A status request: at most one POST, and never the error of the
    deadline. *)
Lemma describeTaskStatus_shape r c env (id : string) :
  let out := describeTaskStatus r c env id in
  (http_count is_fetch out.1 <= 1)%nat /\
  (forall e, out.2 = inl e -> ASRError.code e <> ErrorCode.TIMEOUT) /\
  (id = "" -> exists e, out = ([], inl e) /\
                        ASRError.code e = ErrorCode.INVALID_PARAM).
Proof.
  intros out. unfold out, describeTaskStatus.
  destruct (truthy_str id) eqn:Hid; simpl.
  - pose proof (doRequest_counts (endpoint r) "/v1/DescribeTaskStatus" c env
                  [("RecTaskId", JsString id)]) as (Hfetch & _).
    pose proof (doRequest_result (endpoint r) "/v1/DescribeTaskStatus" c env
                  [("RecTaskId", JsString id)]) as Hsent.
    destruct (doRequest _ _ c env _) as [effs [e|respData]]; simpl in *.
    + split_and!; [done | | by intros ->].
      intros e' [= <-] Hcode. rewrite Hcode in Hsent.
      by destruct Hsent as [|[|[|]]].
    + pose proof (checked_result respData) as Hchecked.
      destruct (checked respData) as [e|response]; simpl.
      * split_and!; [done | | by intros ->].
        intros e' [= <-] Hcode. by rewrite Hcode in Hchecked.
      * destruct (Data response); simpl;
          (split_and!; [done | | by intros ->]); [done|].
        by intros e' [= <-].
  - split_and!; [unfold http_count; simpl; lia | by intros e [= <-] |].
    intros _. by eexists.
Qed.

Lemma turns_needed_pos (timeoutMs delay : Z) :
  (1 <= turns_needed timeoutMs delay)%nat.
Proof. unfold turns_needed. destruct (timeoutMs <? 0); lia. Qed.

(** A turn that ends in a pause of [delay] ms or more leaves one turn
    less to go. *)
Lemma turns_needed_step (remaining remaining' delay : Z) :
  1 <= delay -> 0 <= remaining -> remaining' <= remaining - delay ->
  (S (turns_needed remaining' delay) <= turns_needed remaining delay)%nat.
Proof.
  intros Hd Hr Hstep. unfold turns_needed.
  destruct (Z.ltb_spec remaining 0) as [|_]; [lia|].
  destruct (Z.ltb_spec remaining' 0) as [|Hpos]; [lia|].
  assert (remaining' / delay <= remaining / delay - 1); [|
    pose proof (Z.div_pos remaining' delay); lia].
  replace (remaining / delay - 1) with ((remaining - delay) / delay).
  - apply Z.div_le_mono; lia.
  - replace (remaining - delay) with (remaining + (-1) * delay) by lia.
    rewrite Z.div_add by lia. lia.
Qed.

Lemma poll_bound r c (id : string) (intervalMs timeoutMs deadline : Z)
    turns :
  forall now,
    let out := poll r c id intervalMs timeoutMs deadline now turns in
    let n := turns_needed (deadline - now) (setTimeout_delay intervalMs) in
    (http_count is_fetch out.1 <= n)%nat /\
    ((n <= length turns)%nat -> is_Some out.2.2) /\
    now <= out.2.1 /\
    (forall st, out.2.2 = Some (inr st) ->
                status st = TaskStatusCode.SUCCESS) /\
    (forall e, out.2.2 = Some (inl e) ->
               ASRError.code e = ErrorCode.TIMEOUT -> deadline < out.2.1).
Proof.
  pose proof (setTimeout_delay_bounds intervalMs) as Hdelay.
  induction turns as [|turn turns IH]; intros now; simpl.
  { pose proof (turns_needed_pos (deadline - now)
                  (setTimeout_delay intervalMs)).
    split_and!; try done; unfold http_count; simpl; lia. }
  pose proof (turns_needed_pos (deadline - now)
                (setTimeout_delay intervalMs)) as Hpos.
  destruct (describeTaskStatus_shape r c (at_clock now (turn_env turn)) id)
    as (Hfetch & Hcodes & _).
  destruct (describeTaskStatus r c (at_clock now (turn_env turn)) id)
    as [effs [e|st]]; simpl in *.
  { split_and!; try done; try lia.
    intros e' [= <-] Hcode. by destruct (Hcodes e eq_refl). }
  destruct (Z.eqb_spec (status st) TaskStatusCode.SUCCESS) as [Hok|_];
    simpl.
  { split_and!; try done; try lia. by intros st' [= <-]. }
  destruct (Z.eqb_spec (status st) TaskStatusCode.FAILED) as [Hfailed|_];
    simpl.
  { split_and!; try done; try lia. by intros e' [= <-]. }
  destruct (Z.ltb_spec deadline (now + Z.of_N (took turn))) as [Hlate|Hin];
    simpl.
  { split_and!; try done; try lia. }
  set (now' := now + Z.of_N (took turn) + setTimeout_delay intervalMs
               + Z.of_N (late turn)).
  specialize (IH now').
  pose proof (turns_needed_step (deadline - now) (deadline - now')
                (setTimeout_delay intervalMs)) as Hstep.
  destruct (poll r c id intervalMs timeoutMs deadline now' turns)
    as [more [finished res]]; simpl in *.
  destruct IH as (Hmore & Hends & Hclock & Hsuccess & Htimeout).
  assert (S (turns_needed (deadline - now') (setTimeout_delay intervalMs))
          <= turns_needed (deadline - now) (setTimeout_delay intervalMs))%nat
    as Hless by (apply Hstep; unfold now'; lia).
  split_and!.
  - rewrite http_count_app. lia.
  - intros Hlen. apply Hends. lia.
  - unfold now' in Hclock. lia.
  - done.
  - done.
Qed.

(** X23.  Polling a task ends.  With a pause of [intervalMs] (as
    [setTimeout] takes it) and a timeout of [timeoutMs], the loop of
    [waitForResultWithInterval] is left after at most
    [timeoutMs / pause + 2] status requests, one when the timeout is
    negative, however long each request takes and whatever it returns;
    [waitForResult] makes at most 602.  The loop returns a status only
    when it is SUCCESS, and reports TIMEOUT only once the deadline has
    passed. *)
Theorem polling_ends r c (id : string) (intervalMs timeoutMs now : Z) turns :
  let out := waitForResultWithInterval r c id intervalMs timeoutMs now turns in
  let n := turns_needed timeoutMs (setTimeout_delay intervalMs) in
  (http_count is_fetch out.1 <= n)%nat /\
  ((n <= length turns)%nat -> is_Some out.2.2) /\
  (forall st, out.2.2 = Some (inr st) ->
              status st = TaskStatusCode.SUCCESS) /\
  (forall e, out.2.2 = Some (inl e) ->
             ASRError.code e = ErrorCode.TIMEOUT ->
             now + timeoutMs < out.2.1) /\
  (http_count is_fetch (waitForResult r c id now turns).1 <= 602)%nat /\
  ((602 <= length turns)%nat ->
   is_Some (waitForResult r c id now turns).2.2).
Proof.
  intros out n. unfold out, n, waitForResult, waitForResultWithInterval.
  destruct (poll_bound r c id intervalMs timeoutMs (now + timeoutMs) turns
              now) as (Hcount & Hends & _ & Hsuccess & Htimeout).
  destruct (poll_bound r c id 1000 600000 (now + 600000) turns now)
    as (Hcount' & Hends' & _).
  replace (now + timeoutMs - now) with timeoutMs in Hcount, Hends by lia.
  replace (now + 600000 - now) with 600000 in Hcount', Hends' by lia.
  change (turns_needed 600000 (setTimeout_delay 1000)) with 602%nat
    in Hcount', Hends'.
  by split_and!.
Qed.
End polling.

(** * What goes on the wire *)

Section wire.
Import SpeechRecognizer.
Implicit Types (s : SpeechRecognizer.t) (c : Credential.t)
  (env : StartEnv) (p : SignatureParams.t).

(** Reading a key other than [signature] back from the signed query. *)
Lemma signed_carries p (sig k : string) (x : option string) :
  k <> "signature" ->
  SignatureParams.toMap p !! k = x ->
  forall v,
    (k, v) ∈ query_pairs (SignatureParams.buildQueryStringWithSignature p sig)
    <-> exists y, x = Some y /\ v = encodeURIComponent y.
Proof.
  intros Hk Hx v. unfold SignatureParams.buildQueryStringWithSignature.
  rewrite elem_of_query_pairs;
    [|apply signed_nonempty|intros k'; apply signed_plain].
  rewrite lookup_insert_ne by done. by rewrite Hx.
Qed.

Lemma signed_carries_signature p (sig : string) :
  forall v,
    ("signature", v)
    ∈ query_pairs (SignatureParams.buildQueryStringWithSignature p sig)
    <-> v = encodeURIComponent sig.
Proof.
  intros v. unfold SignatureParams.buildQueryStringWithSignature.
  rewrite elem_of_query_pairs;
    [|apply signed_nonempty|intros k'; apply signed_plain].
  rewrite lookup_insert_eq.
  split; [by intros (x & [= <-] & ->) | eauto].
Qed.

(** The socket a [start] opens, and the parameters of its URL. *)
Lemma start_opens env c s :
  state s = IDLE -> (start env c s).2 = None ->
  let c' := (start env c s).1.1 in
  let p :=
    SignatureParams.new
      {| SignatureParams.opt_appId := Credential.appId c;
         SignatureParams.opt_engineModelType := engineModelType s;
         SignatureParams.opt_voiceId := subject env s;
         SignatureParams.opt_voiceFormat := Some (voiceFormat s);
         SignatureParams.opt_needVad := Some (needVad s);
         SignatureParams.opt_convertNumMode := Some (convertNumMode s);
         SignatureParams.opt_hotwordId := Some (hotwordId s);
         SignatureParams.opt_customizationId := Some (customizationId s);
         SignatureParams.opt_filterDirty := Some (filterDirty s);
         SignatureParams.opt_filterModal := Some (filterModal s);
         SignatureParams.opt_filterPunc := Some (filterPunc s);
         SignatureParams.opt_wordInfo := Some (wordInfo s);
         SignatureParams.opt_vadSilenceTime := Some (vadSilenceTime s);
         SignatureParams.opt_maxSpeakTime := Some (maxSpeakTime s) |}
      (Date_now env) (random_draw env) in
  last (trace (start env c s).1.2)
  = Some (WsNew (attempts s)
            (endpoint s +:+ "/asr/v2/" +:+ String_of (Credential.appId c)
             +:+ "?"
             +:+ SignatureParams.buildQueryStringWithSignature p
                   (Credential.userSig c'))
            [("X-TRTC-SdkAppId", String_of (Credential.sdkAppId c));
             ("X-TRTC-UserSig", Credential.userSig c')]).
Proof.
  intros Hidle. unfold start, connect, subject. rewrite Hidle. simpl.
  destruct (truthy_str (voiceId s)), (truthy_str (Credential.userSig c));
    simpl;
    try destruct (genUserSig _ _ _ _ _); simpl;
    destruct (WebSocket_throws env); simpl; try done;
    intros _; by rewrite last_snoc.
Qed.

(** X24.  The socket opened by a [start] on an Idle session goes to the
    endpoint of the session, under [/asr/v2/] and the AppID, with a query
    that carries the configuration of the session: the token of the
    credential as [signature], the same token that the X-TRTC-UserSig
    header carries; the voice id; the engine; the AppID as [secretid];
    the clock in seconds as [timestamp]; and the hotword and
    customization ids exactly when they are set. *)
Theorem socket_url_carries_the_session env c s :
  state s = IDLE -> (start env c s).2 = None ->
  let token := Credential.userSig (start env c s).1.1 in
  exists qs,
    last (trace (start env c s).1.2)
    = Some (WsNew (attempts s)
              (endpoint s +:+ "/asr/v2/" +:+ String_of (Credential.appId c)
               +:+ "?" +:+ qs)
              [("X-TRTC-SdkAppId", String_of (Credential.sdkAppId c));
               ("X-TRTC-UserSig", token)]) /\
    let kvs := query_pairs qs in
    (forall v, ("signature", v) ∈ kvs <-> v = encodeURIComponent token) /\
    (forall v, ("voice_id", v) ∈ kvs
               <-> v = encodeURIComponent (subject env s)) /\
    (forall v, ("engine_model_type", v) ∈ kvs
               <-> v = encodeURIComponent (engineModelType s)) /\
    (forall v, ("secretid", v) ∈ kvs
               <-> v = String_of (Credential.appId c)) /\
    (forall v, ("timestamp", v) ∈ kvs
               <-> v = String_of (Date_now env / 1000)) /\
    (forall v, ("hotword_id", v) ∈ kvs
               <-> hotwordId s <> "" /\
                   v = encodeURIComponent (hotwordId s)) /\
    (forall v, ("customization_id", v) ∈ kvs
               <-> customizationId s <> "" /\
                   v = encodeURIComponent (customizationId s)).
Proof.
  intros Hidle Hopen token.
  pose proof (start_opens env c s Hidle Hopen) as Hlast.
  cbv zeta in Hlast. fold token in Hlast.
  eexists. split; [exact Hlast|]. cbv zeta.
  split; [apply signed_carries_signature|].
  split_and!; intros v.
  - rewrite (signed_carries _ _ "voice_id" (Some (subject env s)));
      [|done|by toMap_lookup].
    split; [by intros (y & [= <-] & ->) | eauto].
  - rewrite (signed_carries _ _ "engine_model_type"
               (Some (engineModelType s))); [|done|by toMap_lookup].
    split; [by intros (y & [= <-] & ->) | eauto].
  - rewrite (signed_carries _ _ "secretid"
               (Some (String_of (Credential.appId c))));
      [|done|by toMap_lookup].
    split.
    + intros (y & [= <-] & ->). apply encodeURIComponent_String_of.
    + intros ->. eexists. split; [done|].
      by rewrite encodeURIComponent_String_of.
  - rewrite (signed_carries _ _ "timestamp"
               (Some (String_of (Date_now env / 1000))));
      [|done|by toMap_lookup].
    split.
    + intros (y & [= <-] & ->). apply encodeURIComponent_String_of.
    + intros ->. eexists. split; [done|].
      by rewrite encodeURIComponent_String_of.
  - rewrite (signed_carries _ _ "hotword_id"
               (if truthy_str (hotwordId s) then Some (hotwordId s)
                else None)); [|done|by toMap_lookup].
    destruct (truthy_str (hotwordId s)) eqn:Hh.
    + apply truthy_str_true in Hh.
      split; [by intros (y & [= <-] & ->) | intros [_ ->]; eauto].
    + split; [by intros (y & ? & _)|].
      intros [Hne%truthy_str_true _]. by rewrite Hne in Hh.
  - rewrite (signed_carries _ _ "customization_id"
               (if truthy_str (customizationId s)
                then Some (customizationId s) else None));
      [|done|by toMap_lookup].
    destruct (truthy_str (customizationId s)) eqn:Hh.
    + apply truthy_str_true in Hh.
      split; [by intros (y & [= <-] & ->) | intros [_ ->]; eauto].
    + split; [by intros (y & ? & _)|].
      intros [Hne%truthy_str_true _]. by rewrite Hne in Hh.
Qed.

Lemma socket_url_carries_the_session_witness :
  state sample_recognizer = IDLE /\
  (start sample_env sample_credential sample_recognizer).2 = None /\
  exists qs,
    last (trace (start sample_env sample_credential sample_recognizer).1.2)
    = Some (WsNew (attempts sample_recognizer)
              (endpoint sample_recognizer +:+ "/asr/v2/"
               +:+ String_of (Credential.appId sample_credential)
               +:+ "?" +:+ qs)
              [("X-TRTC-SdkAppId",
                String_of (Credential.sdkAppId sample_credential));
               ("X-TRTC-UserSig",
                Credential.userSig
                  (start sample_env sample_credential
                     sample_recognizer).1.1)]).
Proof.
  assert (state sample_recognizer = IDLE) as Hidle by (by vm_compute).
  assert ((start sample_env sample_credential sample_recognizer).2 = None)
    as Hopen by (by vm_compute).
  split; [exact Hidle|]. split; [exact Hopen|].
  destruct (socket_url_carries_the_session sample_env sample_credential
              sample_recognizer Hidle Hopen) as (qs & Hlast & _).
  exists qs. exact Hlast.
Defined.

(** X25.  The secret key goes to the token provider and nowhere else.
    Two credentials that differ in nothing but the secret key, with a
    provider whose answer does not depend on the key, give the same
    session, the same history with the same URL and headers, and the same
    outcome of [start], and the same effects and result of a request of
    the HTTP recognizers; with a token set, that holds for any
    provider. *)
Theorem secret_key_goes_only_to_the_provider env c1 c2 s :
  Credential.appId c1 = Credential.appId c2 ->
  Credential.sdkAppId c1 = Credential.sdkAppId c2 ->
  Credential.userSig c1 = Credential.userSig c2 ->
  (Credential.userSig c1 = "" ->
   forall a k k' u x, api_genSig env a k u x = api_genSig env a k' u x) ->
  (start env c1 s).1.2 = (start env c2 s).1.2 /\
  (start env c1 s).2 = (start env c2 s).2 /\
  Credential.userSig (start env c1 s).1.1
  = Credential.userSig (start env c2 s).1.1 /\
  forall (Doc : Type) (henv : HttpEnv Doc) (endpoint path : string)
         (body : JsObject),
    http_genSig henv = api_genSig env ->
    doRequest endpoint path c1 henv body
    = doRequest endpoint path c2 henv body.
Proof.
  intros Happ Hsdk Hsig Hprov.
  destruct c1 as [a1 d1 k1 u1], c2 as [a2 d2 k2 u2]. simpl in *. subst.
  destruct (truthy_str u2) eqn:Ht.
  - split_and!.
    + unfold start, connect. simpl. rewrite ?Ht.
      repeat case_match; simplify_eq; simpl; done.
    + unfold start, connect. simpl. rewrite ?Ht.
      repeat case_match; simplify_eq; simpl; done.
    + unfold start, connect. simpl. rewrite ?Ht.
      repeat case_match; simplify_eq; simpl; done.
    + intros Doc henv endpoint path body _. unfold doRequest. simpl.
      by rewrite Ht.
  - assert (u2 = "") as -> by (by destruct u2).
    specialize (Hprov eq_refl).
    split_and!.
    + unfold start, connect, genUserSig. simpl.
      rewrite ?(Hprov d2 k1 k2).
      repeat case_match; simplify_eq; simpl; done.
    + unfold start, connect, genUserSig. simpl.
      rewrite ?(Hprov d2 k1 k2).
      repeat case_match; simplify_eq; simpl; done.
    + unfold start, connect, genUserSig. simpl.
      rewrite ?(Hprov d2 k1 k2).
      repeat case_match; simplify_eq; simpl; done.
    + intros Doc henv endpoint path body Hsame.
      unfold doRequest, genUserSig. simpl.
      by rewrite Hsame, (Hprov d2 k1 k2).
Qed.

Lemma secret_key_goes_only_to_the_provider_witness :
  let c2 := Credential.new (Credential.appId sample_credential)
              (Credential.sdkAppId sample_credential) "another-key" in
  Credential.appId sample_credential = Credential.appId c2 /\
  Credential.userSig sample_credential = Credential.userSig c2 /\
  (start sample_env sample_credential sample_recognizer).1.2
  = (start sample_env c2 sample_recognizer).1.2.
Proof.
  intros c2.
  assert (Credential.appId sample_credential = Credential.appId c2)
    as Happ by reflexivity.
  assert (Credential.sdkAppId sample_credential = Credential.sdkAppId c2)
    as Hsdk by reflexivity.
  assert (Credential.userSig sample_credential = Credential.userSig c2)
    as Hsig by reflexivity.
  split; [exact Happ|]. split; [exact Hsig|].
  apply (secret_key_goes_only_to_the_provider sample_env sample_credential
           c2 sample_recognizer Happ Hsdk Hsig).
  intros _ a k k' u x. reflexivity.
Defined.
End wire.

(** * The errors of a session *)

Section rejections.
Import SpeechRecognizer.
Implicit Types (s : SpeechRecognizer.t) (c : Credential.t)
  (env : StartEnv) (o : SendOutcome).

(** X26.  What the calls of a session reject with.  [start] rejects at
    once only with ALREADY_STARTED, AUTH_FAILED or CONNECT_FAILED, and
    then leaves the state and the socket handle of the session as they
    were.  [write] and [stop] reject only with NOT_STARTED or
    WRITE_FAILED: [stop] on a Stopped session is NOT_STARTED, and a
    completion that does not arrive is not an error of [stop].  No call
    rejects with ALREADY_STOPPED or TIMEOUT. *)
Theorem session_rejections env c s (data : list Byte.byte) o
    (evs : list (N * WsEvent)) :
  (forall e,
      (start env c s).2 = Some e ->
      (ASRError.code e = ErrorCode.ALREADY_STARTED \/
       ASRError.code e = ErrorCode.AUTH_FAILED \/
       ASRError.code e = ErrorCode.CONNECT_FAILED) /\
      state (start env c s).1.2 = state s /\
      ws (start env c s).1.2 = ws s) /\
  (forall e,
      rejection (write data o s).2 = Some e ->
      ASRError.code e = ErrorCode.NOT_STARTED \/
      ASRError.code e = ErrorCode.WRITE_FAILED) /\
  (forall e,
      rejection (stop o evs s).2 = Some e ->
      ASRError.code e = ErrorCode.NOT_STARTED \/
      ASRError.code e = ErrorCode.WRITE_FAILED) /\
  (state s = STOPPED ->
   exists e, rejection (stop o evs s).2 = Some e /\
             ASRError.code e = ErrorCode.NOT_STARTED).
Proof.
  split_and!.
  - intros e He.
    destruct (State_eqb (state s) IDLE) eqn:Hst;
      [apply State_eqb_eq in Hst as Hidle
      |apply State_eqb_neq in Hst as Hbusy].
    + pose proof (start_idle_shape env c s Hidle) as Hshape.
      rewrite He in Hshape.
      destruct Hshape as (Hstate & Hws & _ & [(Hcode & _) | (Hcode & _)]);
        rewrite Hidle; split_and!; try done; by auto.
    + rewrite (start_not_idle env c s Hbusy) in He |- *.
      injection He as <-. split_and!; try done. by left.
  - intros e. unfold write.
    destruct (negb _); simpl; [by intros [= <-]; left|].
    destruct (ws s) as [w|]; simpl; [|by intros [= <-]; left].
    intros He%settle_send_code. by right.
  - intros e. unfold stop.
    destruct (negb _); simpl; [by intros [= <-]; left|].
    destruct (ws s) as [w|]; simpl; [|by intros [= <-]; left].
    set (sent := settle_send _ _ _ _).
    pose proof (settle_send_code (writeTimeout s) o
                  "send end signal timeout" "send end signal failed: ")
      as Hcode.
    fold sent in Hcode.
    destruct (deliver_before _ _ _) as [s2 later].
    destruct (rejection sent) as [e'|] eqn:Hrej; simpl.
    + rewrite Hrej. intros [= <-]. right. by apply Hcode.
    + by destruct (donePromise s2); [destruct (await_done _ _ _ _ _)|].
  - intros Hstopped. rewrite stop_not_running by (by rewrite Hstopped).
    by eexists.
Qed.
End rejections.
